(** * BlueRoom games hub: the client-side scripts, embedded and verified

    The repository is a handful of browser scripts: the catalogue browser
    (filter, search, sort, paginate, address-bar synchronisation), the
    sitewide search panel, the community forum and the review widget (both
    backed by [localStorage]), the mock login and registration, the
    profile page, the tab lists of the home page and the overlay of a game
    page.  Each script is embedded below as Rocq functions that follow the
    JavaScript statement by statement; the theorems at the end relate
    them to the written specification and state further properties of
    the scripts.

    Modelling conventions.
    - A JavaScript string is a Stdlib [string], one character per code
      unit; [toLowerCase] and [trim] act on the ASCII range.
    - Integer-valued numbers (page numbers, counts, results of [parseInt])
      are [JS.number]: an exact integer, [NaN] or [Infinity].  Magnitudes
      above 2^53 are kept exact.
    - Real-valued numbers (trending signals, ratings, time values of dates)
      are IEEE binary64 floats, Rocq's primitive [float], which is the
      JavaScript number type; [StringToNumber] reads a numeric literal
      of the ASCII range and rounds it to the nearest float.
    - The DOM is reduced to the data written into it: a handler returns
      what it stores, what it shows and what it puts in the address bar. *)

From Stdlib Require Import ZArith List String Ascii Bool Lia Permutation Sorted.
From Stdlib Require Import Floats Numbers.DecimalString.
From stdpp Require Import gmap strings.
From Stdlib Require DecimalPos.

Set Warnings "-inexact-float".

Local Open Scope string_scope.
Local Open Scope Z_scope.

(* ===================================================================== *)
(** * Part I.  Definitions                                                *)
(* ===================================================================== *)

(** ** JavaScript built-ins used by the scripts *)

Module JS.

(** *** Strings *)

Definition lower_char (c : ascii) : ascii :=
  let n := N_of_ascii c in
  if ((65 <=? n) && (n <=? 90))%N then ascii_of_N (n + 32) else c.

(** [String.prototype.toLowerCase], as it acts on the ASCII range: the
    letters [A] to [Z] become [a] to [z]. *)
Fixpoint toLowerCase (s : string) : string :=
  match s with
  | EmptyString => EmptyString
  | String c s' => String (lower_char c) (toLowerCase s')
  end.

(** White space and line terminators of the ASCII range: TAB, LF, VT, FF,
    CR and SPACE. *)
Definition is_white_space (c : ascii) : bool :=
  let n := N_of_ascii c in
  (((9 <=? n) && (n <=? 13)) || (n =? 32))%N.

Fixpoint trimStart (s : string) : string :=
  match s with
  | EmptyString => EmptyString
  | String c s' => if is_white_space c then trimStart s' else s
  end.

Fixpoint trimEnd (s : string) : string :=
  match s with
  | EmptyString => EmptyString
  | String c s' =>
      match trimEnd s' with
      | EmptyString => if is_white_space c then EmptyString else String c EmptyString
      | t => String c t
      end
  end.

(** [String.prototype.trim], as it acts on the ASCII range. *)
Definition trim (s : string) : string := trimEnd (trimStart s).

(** [Array.prototype.join] on an array of strings. *)
Fixpoint join (sep : string) (parts : list string) : string :=
  match parts with
  | [] => ""
  | [p] => p
  | p :: rest => p ++ sep ++ join sep rest
  end.

(** [String.prototype.includes]: [sub] occurs somewhere in [s]. *)
Fixpoint includes (s sub : string) : bool :=
  String.prefix sub s
  || match s with
     | EmptyString => false
     | String _ s' => includes s' sub
     end.

(** [String.prototype.startsWith]. *)
Definition startsWith (s pre : string) : bool := String.prefix pre s.

(** [Array.prototype.includes] on an array of strings. *)
Definition array_includes (l : list string) (x : string) : bool :=
  existsb (String.eqb x) l.

(** Truthiness of a string: every string but the empty one. *)
Definition truthy (s : string) : bool := negb (String.eqb s "").

(** [x || d] for a value that is a string, [null] or [undefined]. *)
Definition or_string (x : option string) (d : string) : string :=
  match x with
  | Some s => if truthy s then s else d
  | None => d
  end.

(** [s.split(/\s+/)]: the pieces between maximal runs of white space. *)
Fixpoint split_ws_from (cur : string) (in_gap : bool) (s : string) : list string :=
  match s with
  | EmptyString => [cur]
  | String c s' =>
      if is_white_space c
      then (if in_gap then split_ws_from cur true s'
            else cur :: split_ws_from "" true s')
      else split_ws_from (cur ++ String c "") false s'
  end.

Definition split_ws (s : string) : list string := split_ws_from "" false s.

(** *** Integer-valued numbers *)

Inductive number : Type :=
| NaN
| Int (z : Z)
| Infinity
| NegInfinity.

(** [a > b], [a < b], [a <= b]: false as soon as one side is [NaN]. *)
Definition gt (a b : number) : bool :=
  match a, b with
  | NaN, _ | _, NaN => false
  | Int x, Int y => y <? x
  | Infinity, Infinity | NegInfinity, _ | _, Infinity => false
  | Infinity, _ | _, NegInfinity => true
  end.

Definition lt (a b : number) : bool := gt b a.

Definition le (a b : number) : bool :=
  match a, b with
  | NaN, _ | _, NaN => false
  | _, _ => negb (gt a b)
  end.

(** [Math.max] and [Math.min] of two arguments: [NaN] is contagious. *)
Definition Math_max (a b : number) : number :=
  match a, b with
  | NaN, _ | _, NaN => NaN
  | _, _ => if gt b a then b else a
  end.

Definition Math_min (a b : number) : number :=
  match a, b with
  | NaN, _ | _, NaN => NaN
  | _, _ => if gt a b then b else a
  end.

Definition neg (a : number) : number :=
  match a with
  | NaN => NaN
  | Int x => Int (- x)
  | Infinity => NegInfinity
  | NegInfinity => Infinity
  end.

Definition add (a b : number) : number :=
  match a, b with
  | NaN, _ | _, NaN => NaN
  | Int x, Int y => Int (x + y)
  | Infinity, NegInfinity | NegInfinity, Infinity => NaN
  | Infinity, _ | _, Infinity => Infinity
  | NegInfinity, _ | _, NegInfinity => NegInfinity
  end.

Definition sub (a b : number) : number := add a (neg b).

Definition mul (a b : number) : number :=
  match a, b with
  | NaN, _ | _, NaN => NaN
  | Int x, Int y => Int (x * y)
  | Int x, inf | inf, Int x =>
      if x =? 0 then NaN else if 0 <? x then inf else neg inf
  | Infinity, Infinity | NegInfinity, NegInfinity => Infinity
  | _, _ => NegInfinity
  end.

(** [Math.ceil(total / size)] for an array length [total]. *)
Definition ceil_div (total : nat) (size : number) : number :=
  match size with
  | NaN => NaN
  | Infinity | NegInfinity => Int 0
  | Int p =>
      if p =? 0 then (if Nat.eqb total 0 then NaN else Infinity)
      else Int (- ((- Z.of_nat total) / p))
  end.

(** [String(n)]: an integer is printed in full, which is what [String]
    does up to [Number.MAX_SAFE_INTEGER] in magnitude. *)
Definition String_of (n : number) : string :=
  match n with
  | NaN => "NaN"
  | Infinity => "Infinity"
  | NegInfinity => "-Infinity"
  | Int z => NilZero.string_of_int (Z.to_int z)
  end.

(** Value of a digit in radices up to 36. *)
Definition digit_of (c : ascii) : option Z :=
  let n := Z.of_N (N_of_ascii c) in
  if (48 <=? n) && (n <=? 57) then Some (n - 48)
  else if (97 <=? n) && (n <=? 122) then Some (n - 87)
  else if (65 <=? n) && (n <=? 90) then Some (n - 55)
  else None.

(** The longest prefix of [s] made of digits of [radix], read as an
    integer; [None] when that prefix is empty. *)
Fixpoint read_digits (radix : Z) (acc : option Z) (s : string) : option Z :=
  match s with
  | EmptyString => acc
  | String c s' =>
      match digit_of c with
      | Some d =>
          if d <? radix
          then read_digits radix (Some (match acc with Some a => a | None => 0 end * radix + d)) s'
          else acc
      | None => acc
      end
  end.

(** [parseInt(s, radix)]; [radix = 0] stands for an omitted radix.  The
    integer read is kept exact, which is what [parseInt] returns up to
    [Number.MAX_SAFE_INTEGER] in magnitude. *)
Definition parseInt (s : string) (radix : Z) : number :=
  let s := trimStart s in
  let '(sign, s) :=
    match s with
    | String "-" r => (-1, r)
    | String "+" r => (1, r)
    | _ => (1, s)
    end in
  if (negb (radix =? 0)) && ((radix <? 2) || (36 <? radix)) then NaN
  else
    let '(radix, s) :=
      if (radix =? 0) || (radix =? 16) then
        match s with
        | String "0" (String "x" r) | String "0" (String "X" r) => (16, r)
        | _ => ((if radix =? 0 then 10 else radix), s)
        end
      else (radix, s) in
    match read_digits radix None s with
    | Some v => Int (sign * v)
    | None => NaN
    end.

(** *** Real-valued numbers *)

(** [x || 0] for a field that holds a number or is absent: zero, minus
    zero and NaN are falsy. *)
Definition or_zero (x : option float) : float :=
  match x with
  | Some v => if (PrimFloat.is_nan v || PrimFloat.is_zero v)%bool then 0%float else v
  | None => 0%float
  end.

(** [v > 0] on a comparator's result, as [Array.prototype.sort] reads it:
    a [NaN] counts as zero. *)
Definition positive (v : float) : bool := PrimFloat.ltb 0%float v.

(** *** The conversion of a string to a number *)

(** The digits of [radix] at the head of [s]: how many they are, the
    integer they write after the digits read before, and the rest of
    [s]. *)
Fixpoint leading_digits (radix : Z) (count : nat) (value : Z) (s : string)
  : nat * Z * string :=
  match s with
  | EmptyString => (count, value, s)
  | String c s' =>
      match digit_of c with
      | Some d =>
          if d <? radix then leading_digits radix (S count) (value * radix + d) s'
          else (count, value, s)
      | None => (count, value, s)
      end
  end.

(** The exponent part that may end a decimal literal: [e] or [E], an
    optional sign and one digit at least.  [None] when [s] is neither
    empty nor an exponent part. *)
Definition exponent_part (s : string) : option Z :=
  match s with
  | EmptyString => Some 0
  | String c r =>
      if (Ascii.eqb c "e" || Ascii.eqb c "E")%bool then
        let '(sign, r) :=
          match r with
          | String "-" r' => (-1, r')
          | String "+" r' => (1, r')
          | _ => (1, r)
          end in
        match leading_digits 10 0 0 r with
        | (S _, e, EmptyString) => Some (sign * e)
        | _ => None
        end
      else None
  end.

(** An unsigned decimal literal, as the pair [(m, e)] that stands for
    [m * 10 ^ e]: digits, an optional point and digits, with one digit at
    least on a side of the point, and an optional exponent part. *)
Definition decimal_literal (s : string) : option (Z * Z) :=
  let '(n1, i, r) := leading_digits 10 0 0 s in
  let '(n2, m, r) :=
    match r with
    | String "." r' => leading_digits 10 0 i r'
    | _ => (0%nat, i, r)
    end in
  if (n1 + n2 =? 0)%nat then None
  else
    match exponent_part r with
    | Some e => Some (m, e - Z.of_nat n2)
    | None => None
    end.

(** The float nearest to [m * 10 ^ e], ties to even, with the sign
    [negative], for [0 <= m]. *)
Definition nearest_float (negative : bool) (m e : Z) : float :=
  if 0 <=? e then
    SF2Prim (binary_normalize prec emax (cond_Zopp negative (m * 10 ^ e)) 0 negative)
  else if m =? 0 then SF2Prim (S754_zero negative)
  else
    let '(q, e', l) := SFdiv_core_binary prec emax m 0 (10 ^ (- e)) 0 in
    SF2Prim (binary_round_aux prec emax negative q e' l).

(** [StringToNumber], the conversion that [<], [>] and [Number] apply to
    a string: white space is trimmed at both ends; the empty string is
    0; [0x], [0o] and [0b] introduce an unsigned integer in radix 16, 8
    and 2; otherwise the string is an optionally signed [Infinity] or
    decimal literal; everything else is [NaN]. *)
Definition StringToNumber (s : string) : float :=
  let s := trim s in
  let radix_literal (radix : Z) (r : string) : float :=
    match leading_digits radix 0 0 r with
    | (S _, v, EmptyString) => nearest_float false v 0
    | _ => nan
    end in
  match s with
  | EmptyString => 0%float
  | String "0" (String "x" r) | String "0" (String "X" r) => radix_literal 16 r
  | String "0" (String "o" r) | String "0" (String "O" r) => radix_literal 8 r
  | String "0" (String "b" r) | String "0" (String "B" r) => radix_literal 2 r
  | _ =>
      let '(negative, r) :=
        match s with
        | String "-" r => (true, r)
        | String "+" r => (false, r)
        | _ => (false, s)
        end in
      if String.eqb r "Infinity" then (if negative then neg_infinity else infinity)
      else
        match decimal_literal r with
        | Some (m, e) => nearest_float negative m e
        | None => nan
        end
  end.

(** *** How a call ends *)

(** A handler returns, throws a [TypeError], or never returns. *)
Inductive completion (A : Type) : Type :=
| Normal (a : A)
| Throw
| Diverge.

Arguments Normal {A} a.
Arguments Throw {A}.
Arguments Diverge {A}.

(** *** Arrays *)

(** The index that [Array.prototype.slice] makes of a bound: [NaN] is 0,
    a negative bound counts from the end, and all is clamped to the
    length. *)
Definition slice_index (len : nat) (n : number) : nat :=
  match n with
  | NaN | NegInfinity => 0%nat
  | Infinity => len
  | Int z =>
      if z <? 0 then Z.to_nat (Z.max (Z.of_nat len + z) 0)
      else Z.to_nat (Z.min z (Z.of_nat len))
  end.

(** [l.slice(from, to)]. *)
Definition slice {A : Type} (l : list A) (from to : number) : list A :=
  let k := slice_index (length l) from in
  let final := slice_index (length l) to in
  firstn (final - k) (skipn k l).

(** Insertion of [x] before the first element it need not follow:
    [x] goes after [y] exactly when the comparator's result on [(x, y)]
    is positive. *)
Fixpoint insert_sorted {A : Type} (c : A -> A -> float) (x : A) (l : list A) : list A :=
  match l with
  | [] => [x]
  | y :: l' => if positive (c x y) then y :: insert_sorted c x l' else x :: l
  end.

(** [Array.prototype.sort] with a comparator function.  The sort is
    stable; the model is the stable insertion sort, which is what every
    stable sort returns on a consistent comparator. *)
Fixpoint sort_by {A : Type} (c : A -> A -> float) (l : list A) : list A :=
  match l with
  | [] => []
  | x :: l' => insert_sorted c x (sort_by c l')
  end.

(** *** Property lookup on an object literal *)

(** What a member of [Object.prototype] does when it is handed to
    [Array.prototype.sort] as the comparator, which calls it with an
    undefined receiver on two plain objects: [Object] and [toString]
    return something that converts to [NaN]; the accessor [__proto__]
    yields an object that is not callable; the others throw as soon as
    they are called. *)
Inductive builtin : Type :=
| ReturnsNaN
| ThrowsWhenCalled
| NotCallable.

Definition Object_prototype : list (string * builtin) :=
  [ ("constructor", ReturnsNaN);
    ("toString", ReturnsNaN);
    ("toLocaleString", ThrowsWhenCalled);
    ("valueOf", ThrowsWhenCalled);
    ("hasOwnProperty", ThrowsWhenCalled);
    ("isPrototypeOf", ThrowsWhenCalled);
    ("propertyIsEnumerable", ThrowsWhenCalled);
    ("__defineGetter__", ThrowsWhenCalled);
    ("__defineSetter__", ThrowsWhenCalled);
    ("__lookupGetter__", ThrowsWhenCalled);
    ("__lookupSetter__", ThrowsWhenCalled);
    ("__proto__", NotCallable) ].

(** The value of [object[key]] for an object literal with the own
    properties [own]: an own property, else one inherited from
    [Object.prototype], else [undefined]. *)
Inductive property (V : Type) : Type :=
| Own (v : V)
| Inherited (b : builtin)
| Undefined.

Arguments Own {V} v.
Arguments Inherited {V} b.
Arguments Undefined {V}.

Fixpoint assoc {V : Type} (key : string) (l : list (string * V)) : option V :=
  match l with
  | [] => None
  | (k, v) :: rest => if String.eqb k key then Some v else assoc key rest
  end.

Definition lookup_property {V : Type} (own : list (string * V)) (key : string) : property V :=
  match assoc key own with
  | Some v => Own v
  | None =>
      match assoc key Object_prototype with
      | Some b => Inherited b
      | None => Undefined
      end
  end.

(** [l.sort(f)] where [f] came out of a property lookup and is known to
    be truthy: a function of the program, or a member of
    [Object.prototype].  A comparator is only called on arrays of two
    elements or more. *)
Definition Array_sort {A : Type} (f : (A -> A -> float) + builtin) (l : list A)
  : completion (list A) :=
  match f with
  | inl c => Normal (sort_by c l)
  | inr ReturnsNaN => Normal l
  | inr ThrowsWhenCalled => if (length l <? 2)%nat then Normal l else Throw
  | inr NotCallable => Throw
  end.

End JS.

(** ** [URLSearchParams]: the query string as a list of name/value pairs *)

Module URLSearchParams.

Definition t : Type := list (string * string).

Definition hex_value (c : ascii) : option N :=
  let n := N_of_ascii c in
  if ((48 <=? n) && (n <=? 57))%N then Some (n - 48)%N
  else if ((97 <=? n) && (n <=? 102))%N then Some (n - 87)%N
  else if ((65 <=? n) && (n <=? 70))%N then Some (n - 55)%N
  else None.

Definition hex_digit (n : N) : ascii :=
  if (n <? 10)%N then ascii_of_N (48 + n) else ascii_of_N (55 + n).

(** The bytes the form-urlencoded serialiser leaves as they are: ASCII
    letters and digits, [*], [-], [.] and [_]. *)
Definition unreserved (c : ascii) : bool :=
  let n := N_of_ascii c in
  (((48 <=? n) && (n <=? 57)) || ((65 <=? n) && (n <=? 90))
   || ((97 <=? n) && (n <=? 122))
   || (n =? 42) || (n =? 45) || (n =? 46) || (n =? 95))%N.

Fixpoint encode (s : string) : string :=
  match s with
  | EmptyString => EmptyString
  | String c s' =>
      if Ascii.eqb c " " then String "+" (encode s')
      else if unreserved c then String c (encode s')
      else
        let n := N_of_ascii c in
        String "%" (String (hex_digit (n / 16)) (String (hex_digit (n mod 16)) (encode s')))
  end.

Fixpoint plus_to_space (s : string) : string :=
  match s with
  | EmptyString => EmptyString
  | String c s' => String (if Ascii.eqb c "+" then " "%char else c) (plus_to_space s')
  end.

Fixpoint percent_decode (s : string) : string :=
  match s with
  | EmptyString => EmptyString
  | String c t =>
      if Ascii.eqb c "%" then
        match t with
        | String h (String l rest) =>
            match hex_value h, hex_value l with
            | Some a, Some b => String (ascii_of_N (16 * a + b)) (percent_decode rest)
            | _, _ => String c (percent_decode t)
            end
        | _ => String c (percent_decode t)
        end
      else String c (percent_decode t)
  end.

Definition decode (s : string) : string := percent_decode (plus_to_space s).

(** The pieces of [s] between occurrences of [sep]. *)
Fixpoint split_on (sep : ascii) (cur : string) (s : string) : list string :=
  match s with
  | EmptyString => [cur]
  | String c s' =>
      if Ascii.eqb c sep then cur :: split_on sep "" s'
      else split_on sep (cur ++ String c "") s'
  end.

(** A piece [name=value] cut at its first [=]. *)
Fixpoint cut_at_equals (name : string) (s : string) : string * string :=
  match s with
  | EmptyString => (name, "")
  | String c s' =>
      if Ascii.eqb c "=" then (name, s')
      else cut_at_equals (name ++ String c "") s'
  end.

(** [new URLSearchParams(search)]: one leading [?] is dropped, empty
    pieces are skipped. *)
Definition parse (search : string) : t :=
  let body := match search with String "?" r => r | _ => search end in
  flat_map
    (fun piece =>
       if String.eqb piece "" then []
       else let '(n, v) := cut_at_equals "" piece in [(decode n, decode v)])
    (split_on "&" "" body).

(** [params.toString()]. *)
Definition toString (params : t) : string :=
  JS.join "&" (map (fun '(n, v) => encode n ++ "=" ++ encode v) params).

(** [params.get(name)]: the first value, or [null]. *)
Fixpoint get (name : string) (params : t) : option string :=
  match params with
  | [] => None
  | (n, v) :: rest => if String.eqb n name then Some v else get name rest
  end.

(** [params.getAll(name)]. *)
Definition getAll (name : string) (params : t) : list string :=
  map snd (List.filter (fun '(n, _) => String.eqb n name) params).

(** [params.delete(name)]. *)
Definition delete (name : string) (params : t) : t :=
  List.filter (fun '(n, _) => negb (String.eqb n name)) params.

(** [params.append(name, value)]. *)
Definition append (name value : string) (params : t) : t :=
  (params ++ [(name, value)])%list.

(** [params.set(name, value)]: the first pair of that name takes the
    value and the others go; a new pair is appended when there is none. *)
Fixpoint set (name value : string) (params : t) : t :=
  match params with
  | [] => [(name, value)]
  | (n, v) :: rest =>
      if String.eqb n name then (n, value) :: delete name rest
      else (n, v) :: set name value rest
  end.

(** [`${pathname}${params.toString() ? `?${params}` : ''}`] without the
    path, which no handler changes. *)
Definition href_query (params : t) : string :=
  let q := toString params in
  if JS.truthy q then "?" ++ q else "".

End URLSearchParams.

(** ** The catalogue browser (games list script) *)

Module Games.

(** A record of [games.json].  Fields the script guards with [?.] or
    [||] may be absent.  [created_at] is the time value of
    [new Date(game.created_at)], which is [NaN] for an invalid or absent
    date. *)
Module Game.
Record t : Type := {
  title : string;
  summary : option string;
  author : option string;
  categories : option (list string);
  mechanisms : option (list string);
  difficulty : option string;
  languages : option (list string);
  created_at : float;
  pv7_norm : option float;
  guide_clicks7_norm : option float;
  recency : option float;
  rating : option float;
  slug : string;
  thumbnail : string;
  play_url : string
}.
End Game.

(** [state.filters]: the selected values of each facet, in selection
    order. *)
Module Filters.
Record t : Type := {
  categories : list string;
  mechanisms : list string;
  difficulty : list string;
  language : list string
}.
End Filters.

Record ViewState : Type := {
  search : string;
  sort : string;
  page : JS.number;
  filters : Filters.t
}.

(** [parseQuery], reading [window.location.search]. *)
Definition parseQuery (location_search : string) : ViewState :=
  let params := URLSearchParams.parse location_search in
  let filters :=
    {| Filters.categories := URLSearchParams.getAll "category" params;
       Filters.mechanisms := URLSearchParams.getAll "mechanism" params;
       Filters.difficulty := URLSearchParams.getAll "difficulty" params;
       Filters.language := URLSearchParams.getAll "language" params |} in
  {| search := JS.or_string (URLSearchParams.get "search" params) "";
     sort := JS.or_string (URLSearchParams.get "sort" params) "trending";
     page := JS.Math_max (JS.Int 1)
               (JS.parseInt (JS.or_string (URLSearchParams.get "page" params) "1") 10);
     filters := filters |}.

(** [Object.entries(state.filters)], in the order [parseQuery] creates
    the keys. *)
Definition filter_entries (f : Filters.t) : list (string * list string) :=
  [ ("categories", Filters.categories f);
    ("mechanisms", Filters.mechanisms f);
    ("difficulty", Filters.difficulty f);
    ("language", Filters.language f) ].

(** The object literal that names each facet's query parameter. *)
Definition paramKeys : list (string * string) :=
  [ ("categories", "category");
    ("mechanisms", "mechanism");
    ("difficulty", "difficulty");
    ("language", "language") ].

(** [updateQuery]: the query part of the URL handed to
    [history.replaceState]. *)
Definition updateQuery (state : ViewState) : string :=
  let params : URLSearchParams.t := [] in
  let params :=
    if JS.truthy (search state)
    then URLSearchParams.set "search" (search state) params else params in
  let params :=
    if JS.truthy (sort state) && negb (String.eqb (sort state) "trending")
    then URLSearchParams.set "sort" (sort state) params else params in
  let params :=
    fold_left
      (fun params '(key, values) =>
         match JS.lookup_property paramKeys key with
         | JS.Own paramKey =>
             fold_left (fun params value => URLSearchParams.append paramKey value params)
                       values params
         | _ => params
         end)
      (filter_entries (filters state)) params in
  let params :=
    if JS.gt (page state) (JS.Int 1)
    then URLSearchParams.set "page" (JS.String_of (page state)) params else params in
  URLSearchParams.href_query params.

Definition computeTrendingScore (game : Game.t) : float :=
  (0.7 * JS.or_zero (Game.pv7_norm game)
   + 0.2 * JS.or_zero (Game.guide_clicks7_norm game)
   + 0.1 * JS.or_zero (Game.recency game))%float.

Definition comparator : Type := Game.t -> Game.t -> float.

Definition by_trending : comparator :=
  fun a b => (computeTrendingScore b - computeTrendingScore a)%float.

Definition by_new : comparator :=
  fun a b => (Game.created_at b - Game.created_at a)%float.

Definition by_most_rated : comparator :=
  fun a b => (JS.or_zero (Game.rating b) - JS.or_zero (Game.rating a))%float.

(** [normalise], declared next to the sorters (no caller in the script). *)
Definition normalise (value : string) : string := JS.toLowerCase value.

(** [game.categories?.includes(value)] and the like: an absent array
    answers [undefined], which is falsy. *)
Definition optional_includes (field : option (list string)) (value : string) : bool :=
  match field with
  | Some l => JS.array_includes l value
  | None => false
  end.

(** [filters.difficulty.includes(game.difficulty)]: an absent difficulty
    is [undefined], which no selected string equals. *)
Definition includes_optional (selected : list string) (field : option string) : bool :=
  match field with
  | Some d => JS.array_includes selected d
  | None => false
  end.

(** [array.length] as a condition. *)
Definition nonempty {A : Type} (l : list A) : bool :=
  match l with
  | [] => false
  | _ :: _ => true
  end.

Definition matchesFilters (game : Game.t) (filters : Filters.t) : bool :=
  if nonempty (Filters.categories filters)
     && negb (existsb (fun cat => optional_includes (Game.categories game) cat)
                      (Filters.categories filters))
  then false
  else if nonempty (Filters.mechanisms filters)
     && negb (existsb (fun mech => optional_includes (Game.mechanisms game) mech)
                      (Filters.mechanisms filters))
  then false
  else if nonempty (Filters.difficulty filters)
     && negb (includes_optional (Filters.difficulty filters) (Game.difficulty game))
  then false
  else if nonempty (Filters.language filters)
     && negb (existsb (fun lang => optional_includes (Game.languages game) lang)
                      (Filters.language filters))
  then false
  else true.

(** [...(array || [])]. *)
Definition or_empty (field : option (list string)) : list string :=
  match field with
  | Some l => l
  | None => []
  end.

(** An element of the array that [join] prints: [undefined] prints as
    the empty string. *)
Definition printed (field : option string) : string :=
  match field with
  | Some s => s
  | None => ""
  end.

(** The haystack of [matchesSearch] before lower-casing. *)
Definition haystack_parts (game : Game.t) : list string :=
  ([ Game.title game; printed (Game.summary game); printed (Game.author game) ]
   ++ or_empty (Game.categories game)
   ++ or_empty (Game.mechanisms game))%list.

Definition matchesSearch (game : Game.t) (query : string) : bool :=
  if negb (JS.truthy query) then true
  else
    let haystack := JS.toLowerCase (JS.join " " (haystack_parts game)) in
    JS.includes haystack (JS.toLowerCase query).

(** One entry of the pagination control. *)
Inductive PageLink : Type :=
| Current (label : string)
| Anchor (href : string) (label : string).

(** What [render] writes: the games whose cards fill the grid, the query
    string put in the address bar, the pagination control and the text of
    the results count. *)
Record View : Type := {
  grid : list Game.t;
  address : string;
  links : list PageLink;
  results_count : string
}.

(** [renderPagination], for a container that is present;
    [location_search] is the query string [updateQuery] has just written.
    The loop over the pages never ends when [totalPages] is infinite. *)
Definition renderPagination (location_search : string) (state : ViewState)
    (totalItems : nat) (pageSize : JS.number) : JS.completion (list PageLink) :=
  let totalPages := JS.Math_max (JS.Int 1) (JS.ceil_div totalItems pageSize) in
  let appendLink (page : JS.number) (label : string) (isCurrent : bool) : PageLink :=
    let params := URLSearchParams.parse location_search in
    let params :=
      match page with
      | JS.Int 1 => URLSearchParams.delete "page" params
      | _ => URLSearchParams.set "page" (JS.String_of page) params
      end in
    if isCurrent then Current label
    else Anchor (URLSearchParams.href_query params) label in
  if JS.le totalPages (JS.Int 1) then JS.Normal []
  else
    let previous :=
      if JS.gt (page state) (JS.Int 1)
      then [appendLink (JS.sub (page state) (JS.Int 1)) "Previous" false] else [] in
    let next :=
      if JS.lt (page state) totalPages
      then [appendLink (JS.add (page state) (JS.Int 1)) "Next" false] else [] in
    match totalPages with
    | JS.Infinity => JS.Diverge
    | JS.Int n =>
        let numbered :=
          map (fun k =>
                 let p := JS.Int (Z.of_nat k) in
                 appendLink p (JS.String_of p)
                            (match page state with
                             | JS.Int q => Z.of_nat k =? q
                             | _ => false
                             end))
              (seq 1 (Z.to_nat n)) in
        JS.Normal (previous ++ numbered ++ next)%list
    | _ => JS.Normal (previous ++ next)%list
    end.

(** The page size [initialiseGames] reads from the grid:
    [parseInt(grid.getAttribute('data-page-size') || '24', 10)]. *)
Definition pageSize_of (attribute : option string) : JS.number :=
  JS.parseInt (JS.or_string attribute "24") 10.

Section Engine.

(** [String.prototype.localeCompare] in the browser's locale. *)
Variable localeCompare : string -> string -> float.

(** The catalogue fetched from [games.json], the page size (see
    [pageSize_of]), and whether the page has a pagination container. *)
Variable games : list Game.t.
Variable pageSize : JS.number.
Variable pagination : bool.

Definition by_alpha : comparator :=
  fun a b => localeCompare (Game.title a) (Game.title b).

Definition sorters : list (string * comparator) :=
  [ ("trending", by_trending);
    ("new", by_new);
    ("most-rated", by_most_rated);
    ("alpha", by_alpha) ].

(** [sorters[state.sort] || sorters.trending]: every function and object
    is truthy, [undefined] is not. *)
Definition sorter_for (key : string) : comparator + JS.builtin :=
  match JS.lookup_property sorters key with
  | JS.Own c => inl c
  | JS.Inherited b => inr b
  | JS.Undefined => inl by_trending
  end.

(** The two [filter] calls of [render]. *)
Definition filtered (state : ViewState) : list Game.t :=
  List.filter (fun game => matchesSearch game (search state))
    (List.filter (fun game => matchesFilters game (filters state)) games).

(** The filtered games after [filtered.sort(sorter)]. *)
Definition ranked (state : ViewState) : JS.completion (list Game.t) :=
  JS.Array_sort (sorter_for (sort state)) (filtered state).

Definition set_page (state : ViewState) (p : JS.number) : ViewState :=
  {| search := search state; sort := sort state; page := p; filters := filters state |}.

(** [render]: the state it leaves behind and how it ends.  When the sort
    throws, the page has not been clamped yet. *)
Definition render (state : ViewState) : ViewState * JS.completion View :=
  match ranked state with
  | JS.Normal sorted =>
      let total := length sorted in
      let totalPages := JS.Math_max (JS.Int 1) (JS.ceil_div total pageSize) in
      let state := set_page state (JS.Math_min (page state) totalPages) in
      let start := JS.mul (JS.sub (page state) (JS.Int 1)) pageSize in
      let pageItems := JS.slice sorted start (JS.add start pageSize) in
      let address := updateQuery state in
      let count :=
        (JS.String_of (JS.Int (Z.of_nat total)) ++ " "
         ++ (if Nat.eqb total 1 then "game" else "games") ++ " found")%string in
      let view (l : list PageLink) :=
        {| grid := pageItems; address := address; links := l; results_count := count |} in
      if pagination then
        match renderPagination address state total pageSize with
        | JS.Normal l => (state, JS.Normal (view l))
        | JS.Throw => (state, JS.Throw)
        | JS.Diverge => (state, JS.Diverge)
        end
      else (state, JS.Normal (view []))
  | JS.Throw => (state, JS.Throw)
  | JS.Diverge => (state, JS.Diverge)
  end.

(** [initialiseGames] once the catalogue has arrived: the parsed state is
    rendered.  An exception of this first render is caught and logged,
    and no listener is attached. *)
Definition initialiseGames (location_search : string) : ViewState * JS.completion View :=
  render (parseQuery location_search).

(** The events the listeners react to.  [PaginationClick] carries the
    query part of the clicked anchor's [href]. *)
Inductive Event : Type :=
| SearchInput (value : string)
| SortChange (value : string)
| FacetChange (facet value : string) (checked : bool)
| PaginationClick (href_search : string).

Definition set_search (state : ViewState) (s : string) : ViewState :=
  {| search := s; sort := sort state; page := page state; filters := filters state |}.

Definition set_sort (state : ViewState) (s : string) : ViewState :=
  {| search := search state; sort := s; page := page state; filters := filters state |}.

Definition set_filters (state : ViewState) (f : Filters.t) : ViewState :=
  {| search := search state; sort := sort state; page := page state; filters := f |}.

(** [state.filters[facet] = values]. *)
Definition set_facet (f : Filters.t) (facet : string) (values : list string) : Filters.t :=
  if String.eqb facet "categories" then
    {| Filters.categories := values; Filters.mechanisms := Filters.mechanisms f;
       Filters.difficulty := Filters.difficulty f; Filters.language := Filters.language f |}
  else if String.eqb facet "mechanisms" then
    {| Filters.categories := Filters.categories f; Filters.mechanisms := values;
       Filters.difficulty := Filters.difficulty f; Filters.language := Filters.language f |}
  else if String.eqb facet "difficulty" then
    {| Filters.categories := Filters.categories f; Filters.mechanisms := Filters.mechanisms f;
       Filters.difficulty := values; Filters.language := Filters.language f |}
  else if String.eqb facet "language" then
    {| Filters.categories := Filters.categories f; Filters.mechanisms := Filters.mechanisms f;
       Filters.difficulty := Filters.difficulty f; Filters.language := values |}
  else f.

(** The change listener of a facet input, up to the point where it sets
    the page: the new filters, [None] when the facet names no property
    ([return]), a [TypeError] when it names a member of
    [Object.prototype], which has neither [includes] nor [filter]. *)
Definition toggle_facet (f : Filters.t) (facet value : string) (checked : bool)
  : JS.completion (option Filters.t) :=
  match JS.lookup_property (filter_entries f) facet with
  | JS.Undefined => JS.Normal None
  | JS.Inherited _ => JS.Throw
  | JS.Own target =>
      if checked then
        if negb (JS.array_includes target value)
        then JS.Normal (Some (set_facet f facet (target ++ [value])%list))
        else JS.Normal (Some f)
      else
        JS.Normal
          (Some (set_facet f facet
                   (List.filter (fun item => negb (String.eqb item value)) target)))
  end.

(** A listener that ends with [render()] ends as the render does. *)
Definition rendered (r : ViewState * JS.completion View)
  : ViewState * JS.completion (option View) :=
  (fst r,
   match snd r with
   | JS.Normal v => JS.Normal (Some v)
   | JS.Throw => JS.Throw
   | JS.Diverge => JS.Diverge
   end).

(** One listener call: the state it leaves behind, and the view it has
    rendered ([None] when it returned before rendering). *)
Definition handle (event : Event) (state : ViewState)
  : ViewState * JS.completion (option View) :=
  match event with
  | SearchInput value =>
      rendered (render (set_page (set_search state (JS.trim value)) (JS.Int 1)))
  | SortChange value =>
      rendered (render (set_page (set_sort state value) (JS.Int 1)))
  | FacetChange facet value checked =>
      match toggle_facet (filters state) facet value checked with
      | JS.Normal (Some f) => rendered (render (set_page (set_filters state f) (JS.Int 1)))
      | JS.Normal None => (state, JS.Normal None)
      | JS.Throw => (state, JS.Throw)
      | JS.Diverge => (state, JS.Diverge)
      end
  | PaginationClick href_search =>
      let params := URLSearchParams.parse href_search in
      let p := JS.Math_max (JS.Int 1)
                 (JS.parseInt (JS.or_string (URLSearchParams.get "page" params) "1") 10) in
      rendered (render (set_page state p))
  end.

End Engine.

End Games.

(** ** Browser storage shared by the forum and the review widget *)

Module Storage.

(** The mock user that the login script stores under [blueroom_user].
    The counters may be missing; the handlers read them with [|| 0]. *)
Record User : Type := {
  id : string;
  email : string;
  username : string;
  points : option Z;
  posts : option Z;
  comments : option Z;
  joinDate : string
}.

(** A forum post; [createdAt] is the instant whose ISO text is stored. *)
Record Post : Type := {
  post_id : string;
  authorId : string;
  authorName : string;
  post_title : string;
  category : string;
  content : string;
  tags : list string;
  views : Z;
  replies : Z;
  likes : Z;
  post_createdAt : Z
}.

Record Review : Type := {
  review_id : string;
  gameSlug : option string;
  userId : string;
  review_username : string;
  rating : JS.number;
  text : string;
  helpful : Z;
  review_createdAt : Z
}.

(** The keys the scripts use, each holding the value its JSON text parses
    to: [blueroom_user] in [localStorage] and in [sessionStorage],
    [blueroom_posts], and one list of reviews per key
    [blueroom_reviews_<slug>]. *)
Record t : Type := {
  local_user : option User;
  session_user : option User;
  stored_posts : option (list Post);
  stored_reviews : gmap string (list Review)
}.

(** [localStorage.getItem(AUTH_KEY) || sessionStorage.getItem(AUTH_KEY)]. *)
Definition userData (s : t) : option User :=
  match local_user s with
  | Some u => Some u
  | None => session_user s
  end.

(** The write-back of the user: to [localStorage] when it holds one,
    else to [sessionStorage]. *)
Definition store_user (u : User) (s : t) : t :=
  match local_user s with
  | Some _ =>
      {| local_user := Some u; session_user := session_user s;
         stored_posts := stored_posts s; stored_reviews := stored_reviews s |}
  | None =>
      {| local_user := None; session_user := Some u;
         stored_posts := stored_posts s; stored_reviews := stored_reviews s |}
  end.

(** [(counter || 0) + n]. *)
Definition bump (counter : option Z) (n : Z) : option Z :=
  Some (match counter with Some c => c | None => 0 end + n).

(** A toast of [showMessage]. *)
Record Toast : Type := {
  message : string;
  type : string
}.

End Storage.

(** ** The community forum *)

Module Community.

Import Storage.

(** [JSON.parse(localStorage.getItem(POSTS_KEY) || '[]')]. *)
Definition loadPosts (s : Storage.t) : list Post :=
  match stored_posts s with
  | Some l => l
  | None => []
  end.

(** [savePost]: [existingPosts.unshift(post)], then the write-back. *)
Definition savePost (post : Post) (s : Storage.t) : Storage.t :=
  let existingPosts := loadPosts s in
  let existingPosts := post :: existingPosts in
  {| local_user := local_user s; session_user := session_user s;
     stored_posts := Some existingPosts; stored_reviews := stored_reviews s |}.

(** [!field || field.length < n] on a form field. *)
Definition too_short (field : option string) (n : nat) : bool :=
  match field with
  | None => true
  | Some v => negb (JS.truthy v) || (String.length v <? n)%nat
  end.

(** The submit listener of the new-post form.  [now_id] and
    [now_created] are the two readings of the clock. *)
Definition handleNewPost (title category content tagsInput : option string)
    (now_id now_created : Z) (s : Storage.t) : Storage.t * Toast :=
  if too_short title 10 then
    (s, {| message := "Title must be at least 10 characters"; type := "error" |})
  else if negb (JS.truthy (JS.or_string category "")) then
    (s, {| message := "Please select a category"; type := "error" |})
  else if too_short content 50 then
    (s, {| message := "Content must be at least 50 characters"; type := "error" |})
  else
    match userData s with
    | None => (s, {| message := "Please login to create a post"; type := "error" |})
    | Some user =>
        let tags :=
          match tagsInput with
          | Some t =>
              if JS.truthy t
              then List.filter (fun t => JS.startsWith t "#") (JS.split_ws t)
              else []
          | None => []
          end in
        let post :=
          {| post_id := "post_" ++ JS.String_of (JS.Int now_id);
             authorId := id user;
             authorName := username user;
             post_title := JS.or_string title "";
             category := JS.or_string category "";
             content := JS.or_string content "";
             tags := tags;
             views := 0; replies := 0; likes := 0;
             post_createdAt := now_created |} in
        let s := savePost post s in
        let user :=
          {| id := id user; email := email user; username := username user;
             points := bump (points user) 15;
             posts := bump (posts user) 1;
             comments := comments user;
             joinDate := joinDate user |} in
        (store_user user s,
         {| message := "Post created successfully! +15 points"; type := "success" |})
    end.

End Community.

(** ** The review widget of a game page *)

Module Reviews.

Import Storage.

Definition REVIEWS_KEY_PREFIX : string := "blueroom_reviews_".

(** The last non-empty segment of [window.location.pathname];
    [undefined] when there is none. *)
Definition gameSlug_of (pathname : string) : option string :=
  List.last (map Some (List.filter JS.truthy (URLSearchParams.split_on "/" "" pathname)))
            None.

Section Widget.

(** The conversion of a string to a number that [<] and [>] apply to a
    form value: [JS.StringToNumber] in a browser. *)
Variable ToNumber : string -> float.

Variable pathname : string.

Definition slug : option string := gameSlug_of pathname.

(** [REVIEWS_KEY_PREFIX + gameSlug]. *)
Definition reviewsKey : string :=
  REVIEWS_KEY_PREFIX ++ match slug with Some g => g | None => "undefined" end.

(** [JSON.parse(localStorage.getItem(reviewsKey) || '[]')]. *)
Definition loadReviews (s : Storage.t) : list Review :=
  match stored_reviews s !! reviewsKey with
  | Some l => l
  | None => []
  end.

(** [saveReview]: [existingReviews.unshift(review)], then the write-back. *)
Definition saveReview (review : Review) (s : Storage.t) : Storage.t :=
  let existingReviews := loadReviews s in
  let existingReviews := review :: existingReviews in
  {| local_user := local_user s; session_user := session_user s;
     stored_posts := stored_posts s;
     stored_reviews := <[reviewsKey := existingReviews]> (stored_reviews s) |}.

(** [!rating || rating < 1 || rating > 5]. *)
Definition bad_rating (rating : option string) : bool :=
  match rating with
  | None => true
  | Some r =>
      negb (JS.truthy r)
      || PrimFloat.ltb (ToNumber r) 1%float
      || PrimFloat.ltb 5%float (ToNumber r)
  end.

(** The submit listener of the review form. *)
Definition handleReviewSubmit (rating reviewText : option string)
    (now_id now_created : Z) (s : Storage.t) : Storage.t * Toast :=
  if bad_rating rating then
    (s, {| message := "Please select a rating"; type := "error" |})
  else if Community.too_short reviewText 20 then
    (s, {| message := "Review must be at least 20 characters"; type := "error" |})
  else
    match userData s with
    | None => (s, {| message := "Please login to submit a review"; type := "error" |})
    | Some user =>
        let review :=
          {| review_id := "review_" ++ JS.String_of (JS.Int now_id);
             gameSlug := slug;
             userId := id user;
             review_username := username user;
             rating := JS.parseInt (JS.or_string rating "") 0;
             text := JS.or_string reviewText "";
             helpful := 0;
             review_createdAt := now_created |} in
        let s := saveReview review s in
        let user :=
          {| id := id user; email := email user; username := username user;
             points := bump (points user) 10;
             posts := posts user;
             comments := bump (comments user) 1;
             joinDate := joinDate user |} in
        (store_user user s,
         {| message := "Review submitted successfully! +10 points"; type := "success" |})
    end.

End Widget.

End Reviews.

(** ** The sitewide search panel *)

Module SiteSearch.

(** A record of [guides.json]. *)
Record Guide : Type := {
  guide_title : option string;
  guide_difficulty : option string;
  guide_author : option string;
  guide_slug : string
}.

(** An entry of [searchIndex]. *)
Record Item : Type := {
  type : string;
  title : option string;
  difficulty : option string;
  mechanisms : list string;
  categories : list string;
  author : option string;
  url : string
}.

(** [normaliseString]: [(value || "").toString().trim().toLowerCase()]. *)
Definition normaliseString (value : option string) : string :=
  JS.toLowerCase (JS.trim (JS.or_string value "")).

Definition searchIndex (games : list Games.Game.t) (guides : list Guide) : list Item :=
  (map (fun g =>
          {| type := "game";
             title := Some (Games.Game.title g);
             difficulty := Games.Game.difficulty g;
             mechanisms := Games.or_empty (Games.Game.mechanisms g);
             categories := Games.or_empty (Games.Game.categories g);
             author := Games.Game.author g;
             url := "/games/" ++ Games.Game.slug g ++ "/" |}) games
   ++ map (fun g =>
          {| type := "guide";
             title := guide_title g;
             difficulty := guide_difficulty g;
             mechanisms := [];
             categories := [];
             author := guide_author g;
             url := "/guides/" ++ guide_slug g ++ "/" |}) guides)%list.

(** The predicate of the [filter] call in the submit listener. *)
Definition item_matches (query : string) (item : Item) : bool :=
  let haystack :=
    JS.join " "
      (map normaliseString
         ([title item; author item]
          ++ map Some (mechanisms item) ++ map Some (categories item))%list) in
  JS.includes haystack query.

(** What the results panel shows. *)
Inductive Content : Type :=
| Blank
| NoMatches
| Results (items : list Item).

Record Panel : Type := {
  expanded : bool;
  content : Content
}.

Definition closePanel : Panel := {| expanded := false; content := Blank |}.

(** The submit listener of a search form that has its input and its
    panel; [input_value] is the text in the input. *)
Definition submit (index : list Item) (input_value : string) : Panel :=
  let query := normaliseString (Some input_value) in
  if negb (JS.truthy query) then closePanel
  else
    let matches :=
      JS.slice (List.filter (item_matches query) index) (JS.Int 0) (JS.Int 6) in
    {| expanded := true;
       content := if Games.nonempty matches then Results matches else NoMatches |}.

(** The result entries a panel displays. *)
Definition displayed (p : Panel) : list Item :=
  match content p with
  | Results items => items
  | _ => []
  end.

End SiteSearch.

(** ** Relative time of a post or a review *)

Module TimeAgo.

(** [Math.floor(a / k)] for a positive integer [k]. *)
Definition floor_div (a : JS.number) (k : Z) : JS.number :=
  match a with
  | JS.Int x => JS.Int (x / k)
  | other => other
  end.

(** [getTimeAgo], which the forum and the review widget both declare.
    [now] is the time value of [new Date()], [date] the time value of the
    date passed in, [NaN] for an invalid date. *)
Definition getTimeAgo (now : Z) (date : JS.number) : string :=
  let seconds := floor_div (JS.sub (JS.Int now) date) 1000 in
  if JS.lt seconds (JS.Int 60) then "just now"
  else if JS.lt seconds (JS.Int 3600)
  then JS.String_of (floor_div seconds 60) ++ " minutes ago"
  else if JS.lt seconds (JS.Int 86400)
  then JS.String_of (floor_div seconds 3600) ++ " hours ago"
  else if JS.lt seconds (JS.Int 604800)
  then JS.String_of (floor_div seconds 86400) ++ " days ago"
  else if JS.lt seconds (JS.Int 2592000)
  then JS.String_of (floor_div seconds 604800) ++ " weeks ago"
  else JS.String_of (floor_div seconds 2592000) ++ " months ago".

End TimeAgo.

(** ** The mock login and registration *)

Module Auth.

Import Storage.

(** [a !== b] on two form values, each a string or [null]. *)
Definition differ (a b : option string) : bool :=
  match a, b with
  | Some x, Some y => negb (String.eqb x y)
  | None, None => false
  | _, _ => true
  end.

(** The mock user both handlers build. *)
Definition mockUser (email username : string) (now_id : Z) (now_joined : string) : User :=
  {| id := "user_" ++ JS.String_of (JS.Int now_id);
     email := email;
     username := username;
     points := Some 0;
     posts := Some 0;
     comments := Some 0;
     joinDate := now_joined |}.

Definition set_local_user (u : User) (s : Storage.t) : Storage.t :=
  {| local_user := Some u; session_user := session_user s;
     stored_posts := stored_posts s; stored_reviews := stored_reviews s |}.

Definition set_session_user (u : User) (s : Storage.t) : Storage.t :=
  {| local_user := local_user s; session_user := Some u;
     stored_posts := stored_posts s; stored_reviews := stored_reviews s |}.

(** [handleLogin] for a form that has its [email] field; [remember] is
    the value of the check box, [null] when it is not ticked.  [now_id]
    is the clock read for the identifier, [now_joined] the ISO text of
    the clock read for [joinDate]. *)
Definition handleLogin (email : string) (remember : option string)
    (now_id : Z) (now_joined : string) (s : Storage.t) : Storage.t * Toast :=
  let mockUser :=
    mockUser email (hd "" (URLSearchParams.split_on "@" "" email)) now_id now_joined in
  let s :=
    if JS.truthy (JS.or_string remember "")
    then set_local_user mockUser s
    else set_session_user mockUser s in
  (s, {| message := "Login successful! Redirecting..."; type := "success" |}).

(** [handleRegister] for a form that has its [username] and [email]
    fields. *)
Definition handleRegister (username email : string) (password confirmPassword : option string)
    (now_id : Z) (now_joined : string) (s : Storage.t) : Storage.t * Toast :=
  if differ password confirmPassword then
    (s, {| message := "Passwords do not match"; type := "error" |})
  else
    let mockUser := mockUser email username now_id now_joined in
    (set_local_user mockUser s,
     {| message := "Account created successfully! Redirecting..."; type := "success" |}).

End Auth.

(** ** The profile page *)

Module Profile.

Import Storage.

Definition upper_char (c : ascii) : ascii :=
  let n := N_of_ascii c in
  if ((97 <=? n) && (n <=? 122))%N then ascii_of_N (n - 32) else c.

(** What [loadUserData] does: it sends the visitor to the login page, or
    fills in the profile. *)
Inductive Page : Type :=
| Redirect (href : string)
| Shown (profile_username user_points user_posts user_comments avatar_text : string).

(** [counter || 0], as the text the page shows. *)
Definition shown_counter (c : option Z) : string :=
  JS.String_of (JS.Int (match c with Some n => n | None => 0 end)).

(** [(user.username || 'U')[0].toUpperCase()]. *)
Definition avatarText (username : string) : string :=
  match JS.or_string (Some username) "U" with
  | String c _ => String (upper_char c) ""
  | EmptyString => ""
  end.

Definition loadUserData (s : Storage.t) : Page :=
  match userData s with
  | None => Redirect "/auth/login/"
  | Some user =>
      Shown (JS.or_string (Some (username user)) "User")
            (shown_counter (points user))
            (shown_counter (posts user))
            (shown_counter (comments user))
            (avatarText (username user))
  end.

End Profile.

(** ** The star rating input of the review form *)

Module Rating.

(** The text of a star: filled or hollow. *)
Inductive Star : Type :=
| Filled
| Hollow.

(** The stars of the rating input and the hidden field [rating-value],
    [None] when the page has no such field. *)
Record Widget : Type := {
  stars : list Star;
  rating_value : option string
}.

(** [stars.forEach((star, index) => star.textContent = index < value ? ...)]. *)
Definition paint (stars : list Star) (value : JS.number) : list Star :=
  map (fun index => if JS.lt (JS.Int (Z.of_nat index)) value then Filled else Hollow)
      (seq 0 (length stars)).

Definition selectRating (value : JS.number) (w : Widget) : Widget :=
  {| stars := paint (stars w) value;
     rating_value :=
       match rating_value w with
       | Some _ => Some (JS.String_of value)
       | None => None
       end |}.

Definition hoverRating (value : JS.number) (w : Widget) : Widget :=
  {| stars := paint (stars w) value; rating_value := rating_value w |}.

(** [n || 0] on a number. *)
Definition or_zero (n : JS.number) : JS.number :=
  match n with
  | JS.NaN => JS.Int 0
  | other => other
  end.

Definition resetHover (w : Widget) : Widget :=
  let currentValue :=
    match rating_value w with
    | Some v => or_zero (JS.parseInt v 0)
    | None => JS.Int 0
    end in
  {| stars := paint (stars w) currentValue; rating_value := rating_value w |}.

(** The listeners [initReviews] attaches: a click on the star at [index]
    selects [index + 1], the pointer entering it previews [index + 1],
    the pointer leaving the input resets the preview. *)
Inductive Event : Type :=
| Click (index : nat)
| MouseEnter (index : nat)
| MouseLeave.

Definition listen (e : Event) (w : Widget) : Widget :=
  match e with
  | Click index => selectRating (JS.add (JS.Int (Z.of_nat index)) (JS.Int 1)) w
  | MouseEnter index => hoverRating (JS.add (JS.Int (Z.of_nat index)) (JS.Int 1)) w
  | MouseLeave => resetHover w
  end.

End Rating.

(** ** The listeners of the search panel *)

Module SearchPanel.

Import SiteSearch.

(** [panel.innerHTML.trim()] as a condition: the markup of a result and
    the "No matches found." notice are not blank. *)
Definition has_markup (c : Content) : bool :=
  match c with
  | Blank => false
  | NoMatches => true
  | Results items => Games.nonempty items
  end.

(** The events of a search form that has its input and its panel:
    [Click inside] is a click anywhere in the document, [inside] telling
    whether the panel or the form contains its target. *)
Inductive Event : Type :=
| Submit (input_value : string)
| Input (input_value : string)
| Focus
| Click (inside : bool)
| Keydown (key : string).

Definition listen (index : list Item) (e : Event) (p : Panel) : Panel :=
  match e with
  | Submit input_value => submit index input_value
  | Input input_value => if negb (JS.truthy input_value) then closePanel else p
  | Focus =>
      if has_markup (content p) then {| expanded := true; content := content p |} else p
  | Click inside => if negb inside then closePanel else p
  | Keydown key => if String.eqb key "Escape" then closePanel else p
  end.

End SearchPanel.

(** ** The tab lists of the home page *)

Module Tabs.

(** A tab button with its [data-tab-target], [aria-selected] and
    [tabindex] attributes; a panel with its [id] and [aria-hidden]. *)
Record Button : Type := {
  target : option string;
  aria_selected : string;
  tabindex : string
}.

Record Panel : Type := {
  id : string;
  aria_hidden : string
}.

Record Tablist : Type := {
  buttons : list Button;
  panels : list Panel
}.

(** [String(b)] for a boolean. *)
Definition String_of_bool (b : bool) : string := if b then "true" else "false".

(** [panel.id === targetId], where [targetId] is [null] when the button
    has no [data-tab-target]. *)
Definition is_target (targetId : option string) (panel_id : string) : bool :=
  match targetId with
  | Some t => String.eqb panel_id t
  | None => false
  end.

(** [selectTab(button, tablist)] for the button at [index]. *)
Definition selectTab (index : nat) (t : Tablist) : Tablist :=
  let targetId :=
    match nth_error (buttons t) index with
    | Some button => target button
    | None => None
    end in
  {| buttons :=
       map (fun '(i, btn) =>
              let isActive := Nat.eqb i index in
              {| target := target btn;
                 aria_selected := String_of_bool isActive;
                 tabindex := if isActive then "0" else "-1" |})
           (combine (seq 0 (length (buttons t))) (buttons t));
     panels :=
       map (fun panel =>
              let isActive := is_target targetId (id panel) in
              {| id := id panel; aria_hidden := String_of_bool (negb isActive) |})
           (panels t) |}.

(** [(a + b) % n] on indices, [b] being 1 or -1. *)
Definition wrap (a b : Z) (n : nat) : nat := Z.to_nat (Z.rem (a + b) (Z.of_nat n)).

(** The key listener of the button at [currentIndex]: the index of the
    button that gets the focus, with the tab list after [selectTab]. *)
Definition keydown (key : string) (currentIndex : nat) (t : Tablist) : nat * Tablist :=
  let n := length (buttons t) in
  let '(focus, t) :=
    if String.eqb key "ArrowRight"
    then let next := wrap (Z.of_nat currentIndex) 1 n in (next, selectTab next t)
    else (currentIndex, t) in
  if String.eqb key "ArrowLeft"
  then let prev := wrap (Z.of_nat currentIndex - 1) (Z.of_nat n) n in (prev, selectTab prev t)
  else (focus, t).

End Tabs.

(** ** The call-to-action overlay of a game page *)

Module Overlay.

(** The [aria-hidden] attribute of the overlay, [None] when it has none,
    and whether the timer set at page load is still pending. *)
Record State : Type := {
  aria_hidden : option string;
  timer : bool
}.

Definition closeOverlay (s : State) : State :=
  {| aria_hidden := Some "true"; timer := false |}.

(** The timer running out, a click on the dismiss button, a click in the
    overlay ([on_overlay] when its target is the overlay itself) and a
    key press. *)
Inductive Event : Type :=
| Timeout
| DismissClick
| OverlayClick (on_overlay : bool)
| Keydown (key : string).

Definition is_shown (s : State) : bool :=
  match aria_hidden s with
  | Some v => String.eqb v "false"
  | None => false
  end.

Definition listen (e : Event) (s : State) : State :=
  match e with
  | Timeout =>
      if timer s then {| aria_hidden := Some "false"; timer := false |} else s
  | DismissClick => closeOverlay s
  | OverlayClick on_overlay => if on_overlay then closeOverlay s else s
  | Keydown key =>
      if String.eqb key "Escape" && is_shown s then closeOverlay s else s
  end.

End Overlay.

(** ** Sample data for the worked examples *)

Module Sample.

Import Games.

(** A comparison by code units, standing in for the locale's collation. *)
Definition byte_compare (a b : string) : float :=
  match String.compare a b with
  | Lt => (-1)%float
  | Eq => 0%float
  | Gt => 1%float
  end.

Definition game (title : string) (summary : option string)
    (categories : option (list string)) (created_at pv7 : float) : Game.t :=
  {| Game.title := title;
     Game.summary := summary;
     Game.author := Some "Ann";
     Game.categories := categories;
     Game.mechanisms := None;
     Game.difficulty := Some "easy";
     Game.languages := None;
     Game.created_at := created_at;
     Game.pv7_norm := Some pv7;
     Game.guide_clicks7_norm := None;
     Game.recency := None;
     Game.rating := None;
     Game.slug := title;
     Game.thumbnail := "";
     Game.play_url := "" |}.

(** An older game with many page views and a newer one with few. *)
Definition classic : Game.t := game "Classic" None (Some ["logic"]) 1000%float 0.9%float.
Definition fresh : Game.t := game "Fresh" None (Some ["puzzle"]) 2000%float 0.1%float.

Definition catalog : list Game.t := [classic; fresh].

(** A game titled [a] with the summary [b] and no other text. *)
Definition terse : Game.t :=
  {| Game.title := "a"; Game.summary := Some "b"; Game.author := None;
     Game.categories := None; Game.mechanisms := None; Game.difficulty := None;
     Game.languages := None; Game.created_at := 0%float; Game.pv7_norm := None;
     Game.guide_clicks7_norm := None; Game.recency := None; Game.rating := None;
     Game.slug := "a"; Game.thumbnail := ""; Game.play_url := "" |}.

Definition view (sort : string) (categories : list string) : ViewState :=
  {| search := ""; sort := sort; page := JS.Int 1;
     filters :=
       {| Filters.categories := categories; Filters.mechanisms := [];
          Filters.difficulty := []; Filters.language := [] |} |}.

(** A conversion that reads a decimal integer and answers [NaN] on
    anything else, standing in for the browser's [ToNumber]. *)
Definition decimal_ToNumber (s : string) : float :=
  match JS.parseInt s 10 with
  | JS.Int z =>
      if z <? 0 then (- of_uint63 (Uint63Axioms.of_Z (- z)))%float
      else of_uint63 (Uint63Axioms.of_Z z)
  | _ => nan
  end.

Definition ann : Storage.User :=
  {| Storage.id := "user_1"; Storage.email := "ann@example.org";
     Storage.username := "ann"; Storage.points := Some 0; Storage.posts := Some 0;
     Storage.comments := Some 0; Storage.joinDate := "2024-01-01T00:00:00.000Z" |}.

Definition old_post : Storage.Post :=
  {| Storage.post_id := "post_1"; Storage.authorId := "user_1";
     Storage.authorName := "ann"; Storage.post_title := "An earlier post";
     Storage.category := "general"; Storage.content := "";
     Storage.tags := []; Storage.views := 0; Storage.replies := 0; Storage.likes := 0;
     Storage.post_createdAt := 1 |}.

Definition old_review : Storage.Review :=
  {| Storage.review_id := "review_1"; Storage.gameSlug := Some "chess";
     Storage.userId := "user_1"; Storage.review_username := "ann";
     Storage.rating := JS.Int 4; Storage.text := "An earlier review of the game";
     Storage.helpful := 0; Storage.review_createdAt := 1 |}.

(** A browser where [ann] is logged in and one post and one review of
    the game [chess] are stored. *)
Definition store : Storage.t :=
  {| Storage.local_user := Some ann; Storage.session_user := None;
     Storage.stored_posts := Some [old_post];
     Storage.stored_reviews := {[ "blueroom_reviews_chess" := [old_review] ]} |}.

Definition long_text : string :=
  "This text is comfortably longer than fifty characters in all.".

End Sample.

(** ** Notions of the specification *)

Import Games.

(** The four facets of the view state. *)
Inductive Facet : Type :=
| Categories
| Mechanisms
| Difficulty
| Language.

Definition facet_name (x : Facet) : string :=
  match x with
  | Categories => "categories"
  | Mechanisms => "mechanisms"
  | Difficulty => "difficulty"
  | Language => "language"
  end.

(** The values selected in a facet. *)
Definition selected (f : Filters.t) (x : Facet) : list string :=
  match x with
  | Categories => Filters.categories f
  | Mechanisms => Filters.mechanisms f
  | Difficulty => Filters.difficulty f
  | Language => Filters.language f
  end.

(** The values an item carries in a facet: the members of its array, or
    its one difficulty; an absent field carries nothing. *)
Definition carried (g : Game.t) (x : Facet) : list string :=
  match x with
  | Categories => or_empty (Game.categories g)
  | Mechanisms => or_empty (Game.mechanisms g)
  | Difficulty => match Game.difficulty g with Some d => [d] | None => [] end
  | Language => or_empty (Game.languages g)
  end.

(** A facet passes when it has no selection or the item carries one of
    the selected values. *)
Definition facet_passes (g : Game.t) (f : Filters.t) (x : Facet) : Prop :=
  selected f x <> [] -> exists v, In v (selected f x) /\ In v (carried g x).

Definition Facet_eqb (x y : Facet) : bool :=
  match x, y with
  | Categories, Categories | Mechanisms, Mechanisms
  | Difficulty, Difficulty | Language, Language => true
  | _, _ => false
  end.

(** [sub] occurs in [s] as a substring. *)
Definition occurs (sub s : string) : Prop :=
  exists pre post, s = pre ++ sub ++ post.

(** The text fields of an item in the order the specification lists
    them: title, summary, author, categories, mechanisms. *)
Definition text_fields (g : Game.t) : list string :=
  ([Game.title g; printed (Game.summary g); printed (Game.author g)]
   ++ or_empty (Game.categories g) ++ or_empty (Game.mechanisms g))%list.

(** The concatenation as the specification words it: the fields one
    after the other. *)
Definition concatenation (g : Game.t) : string := JS.join "" (text_fields g).

(** [x] may stand immediately before [y] under the comparator [c]: [c]
    does not ask for [x] to come after [y]. *)
Definition keeps {A : Type} (c : A -> A -> float) (x y : A) : Prop :=
  JS.positive (c x y) = false.

(** A float of the specification that is strictly above zero. *)
Definition SFpositive (x : spec_float) : bool :=
  match x with
  | S754_finite false _ _ | S754_infinity false => true
  | _ => false
  end.

(** The score the specification ranks trending items by. *)
Definition trending_score (g : Game.t) : float :=
  (0.7 * JS.or_zero (Game.pv7_norm g)
   + 0.2 * JS.or_zero (Game.guide_clicks7_norm g)
   + 0.1 * JS.or_zero (Game.recency g))%float.

(** The number a key sorts by, largest first: the creation date under
    [new], the rating under [most-rated], the trending score under
    [trending] and under every other key. *)
Definition sort_value (key : string) (g : Game.t) : float :=
  if String.eqb key "new" then Game.created_at g
  else if String.eqb key "most-rated" then JS.or_zero (Game.rating g)
  else trending_score g.

(** The comparator each key names, written as JavaScript writes a
    descending order by a number, second minus first; under [alpha] it
    is the locale's comparison of the titles. *)
Definition named_comparator (localeCompare : string -> string -> float) (key : string)
  : Game.t -> Game.t -> float :=
  fun a b =>
    if String.eqb key "alpha" then localeCompare (Game.title a) (Game.title b)
    else (sort_value key b - sort_value key a)%float.

(** A collation that is a consistent comparator, as
    [Array.prototype.sort] asks of its argument: it puts [s] before [t]
    exactly when it puts [t] after [s], it never asks for both orders of
    a pair, and its "may stand before" is transitive. *)
Definition consistent_collation (localeCompare : string -> string -> float) : Prop :=
  (forall s t, PrimFloat.ltb (localeCompare s t) 0%float = JS.positive (localeCompare t s))
  /\ (forall s t, JS.positive (localeCompare s t) = true ->
                  JS.positive (localeCompare t s) = false)
  /\ (forall s t u, JS.positive (localeCompare s t) = false ->
                    JS.positive (localeCompare t u) = false ->
                    JS.positive (localeCompare s u) = false).

(** A spec float as an integer, in units of the smallest subnormal, the
    infinities at the power of two above every finite float. *)
Definition SFint (x : spec_float) : Z :=
  match x with
  | S754_zero _ | S754_nan => 0
  | S754_infinity s => cond_Zopp s (2 ^ (emax - emin))
  | S754_finite s m e => cond_Zopp s (Zpos m * 2 ^ (e - emin))
  end.

(** The float as an integer: the order of floats other than NaN is the
    order of these integers. *)
Definition float_rank (x : float) : Z := SFint (Prim2SF x).

(** A key that no member of [Object.prototype] answers to. *)
Definition plain_key (key : string) : Prop :=
  JS.assoc key JS.Object_prototype = None.

(** The number of pages for [total] items when the page size is a
    positive integer [k]: [max(1, ceil(total / k))]. *)
Definition page_count (total : nat) (k : Z) : Z :=
  Z.max 1 ((Z.of_nat total + k - 1) / k).

(** A text normalised: trimmed, then lower-cased. *)
Definition normalised (s : string) : string := JS.toLowerCase (JS.trim s).

(** The fields of an index entry that the sitewide search reads, in the
    order title, author, mechanisms, categories; an absent title or
    author counts as empty. *)
Definition entry_fields (e : SiteSearch.Item) : list string :=
  ([printed (SiteSearch.title e); printed (SiteSearch.author e)]
   ++ SiteSearch.mechanisms e ++ SiteSearch.categories e)%list.

(** The text in which the sitewide search looks a query up: the fields
    of the entry, each normalised, joined by single spaces. *)
Definition entry_text (e : SiteSearch.Item) : string :=
  JS.join " " (map normalised (entry_fields e)).

(** [e] is the index entry of the game [g]. *)
Definition entry_of_game (g : Game.t) (e : SiteSearch.Item) : Prop :=
  SiteSearch.type e = "game"
  /\ SiteSearch.title e = Some (Game.title g)
  /\ SiteSearch.author e = Game.author g
  /\ SiteSearch.mechanisms e = or_empty (Game.mechanisms g)
  /\ SiteSearch.categories e = or_empty (Game.categories g)
  /\ SiteSearch.difficulty e = Game.difficulty g
  /\ SiteSearch.url e = "/games/" ++ Game.slug g ++ "/".

(** [e] is the index entry of the guide [g]: a guide has neither
    mechanisms nor categories. *)
Definition entry_of_guide (g : SiteSearch.Guide) (e : SiteSearch.Item) : Prop :=
  SiteSearch.type e = "guide"
  /\ SiteSearch.title e = SiteSearch.guide_title g
  /\ SiteSearch.author e = SiteSearch.guide_author g
  /\ SiteSearch.mechanisms e = []
  /\ SiteSearch.categories e = []
  /\ SiteSearch.difficulty e = SiteSearch.guide_difficulty g
  /\ SiteSearch.url e = "/guides/" ++ SiteSearch.guide_slug g ++ "/".

(** [selection P l picked]: [picked] lists, in the order of [l], the
    elements of [l] that satisfy [P]. *)
Inductive selection {A : Type} (P : A -> Prop) : list A -> list A -> Prop :=
| selection_nil : selection P [] []
| selection_take (x : A) (l picked : list A) :
    P x -> selection P l picked -> selection P (x :: l) (x :: picked)
| selection_skip (x : A) (l picked : list A) :
    ~ P x -> selection P l picked -> selection P (x :: l) picked.

(** ** Notions of the further properties *)

(** *** Strings *)

(** Every character of [s] satisfies [p]. *)
Fixpoint all_chars (p : ascii -> bool) (s : string) : bool :=
  match s with
  | EmptyString => true
  | String c s' => p c && all_chars p s'
  end.

Definition not_white_space (c : ascii) : bool := negb (JS.is_white_space c).

(** A character of the ASCII range.  On a string of such characters
    [toLowerCase] changes the letters [A] to [Z] and nothing else,
    whatever stands around them. *)
Definition is_ascii (c : ascii) : bool := (N_of_ascii c <? 128)%N.

Definition is_slash (c : ascii) : bool := Ascii.eqb c "/".

Definition not_slash (c : ascii) : bool := negb (Ascii.eqb c "/").

(** A decimal digit. *)
Definition digit_char (c : ascii) : bool :=
  let n := N_of_ascii c in ((48 <=? n) && (n <=? 57))%N.

(** The number that a row of decimal digits denotes after the digits
    read so far gave [acc]. *)
Fixpoint digits_value (acc : Z) (d : Decimal.uint) : Z :=
  match d with
  | Decimal.Nil => acc
  | Decimal.D0 d' => digits_value (acc * 10 + 0) d'
  | Decimal.D1 d' => digits_value (acc * 10 + 1) d'
  | Decimal.D2 d' => digits_value (acc * 10 + 2) d'
  | Decimal.D3 d' => digits_value (acc * 10 + 3) d'
  | Decimal.D4 d' => digits_value (acc * 10 + 4) d'
  | Decimal.D5 d' => digits_value (acc * 10 + 5) d'
  | Decimal.D6 d' => digits_value (acc * 10 + 6) d'
  | Decimal.D7 d' => digits_value (acc * 10 + 7) d'
  | Decimal.D8 d' => digits_value (acc * 10 + 8) d'
  | Decimal.D9 d' => digits_value (acc * 10 + 9) d'
  end.

(** *** Numbers *)

(** [Number.MAX_SAFE_INTEGER]. *)
Definition MAX_SAFE_INTEGER : Z := 2 ^ 53 - 1.

(** An integer that a number holds exactly, that [String] prints in full
    and that [parseInt] reads back as it is: one of magnitude
    [MAX_SAFE_INTEGER] at most. *)
Definition safe_integer (z : Z) : Prop :=
  - MAX_SAFE_INTEGER <= z <= MAX_SAFE_INTEGER.

(** *** The query string *)

(** The characters the serialiser of [URLSearchParams] can put out. *)
Definition encoded_char (c : ascii) : bool :=
  URLSearchParams.unreserved c || Ascii.eqb c "+" || Ascii.eqb c "%".

(** A pair as it stands in the query string. *)
Definition piece_of (p : string * string) : string :=
  URLSearchParams.encode (fst p) ++ "=" ++ URLSearchParams.encode (snd p).

(** The pairs that the parser reads from the pieces between two [&]. *)
Definition pairs_of (pieces : list string) : URLSearchParams.t :=
  flat_map
    (fun piece =>
       if String.eqb piece "" then []
       else let '(n, v) := URLSearchParams.cut_at_equals "" piece in
            [(URLSearchParams.decode n, URLSearchParams.decode v)])
    pieces.

(** The parameters of a view state in the order [updateQuery] writes
    them: the search text, the sort key, the four facets, the page. *)
Definition query_of (st : ViewState) : URLSearchParams.t :=
  ((if JS.truthy (search st) then [("search", search st)] else [])
   ++ (if JS.truthy (sort st) && negb (String.eqb (sort st) "trending")
       then [("sort", sort st)] else [])
   ++ map (pair "category") (Filters.categories (filters st))
   ++ map (pair "mechanism") (Filters.mechanisms (filters st))
   ++ map (pair "difficulty") (Filters.difficulty (filters st))
   ++ map (pair "language") (Filters.language (filters st))
   ++ (if JS.gt (page st) (JS.Int 1) then [("page", JS.String_of (page st))] else []))%list.

(** *** Pages *)

Definition link_label (l : PageLink) : string :=
  match l with
  | Current label => label
  | Anchor _ label => label
  end.

Definition is_current (l : PageLink) : bool :=
  match l with
  | Current _ => true
  | Anchor _ _ => false
  end.

(** The page numbers from 1 to [n]. *)
Definition pages_upto (n : Z) : list Z := map Z.of_nat (seq 1 (Z.to_nat n)).

(** The entry of the pagination control for page [q]: the marker of the
    current page, or a link whose address is that of the page with the
    [page] parameter set to [q], and removed when [q] is 1. *)
Definition page_link (location_search : string) (q : Z) (label : string) (isCurrent : bool)
  : PageLink :=
  if isCurrent then Current label
  else Anchor (URLSearchParams.href_query
                 (if q =? 1
                  then URLSearchParams.delete "page" (URLSearchParams.parse location_search)
                  else URLSearchParams.set "page" (JS.String_of (JS.Int q))
                         (URLSearchParams.parse location_search))) label.

(** The pagination control for page [p] of [T]: nothing when there is one
    page; else a link back, one entry per page and a link forward. *)
Definition page_links (location_search : string) (p T : Z) : list PageLink :=
  if T <=? 1 then []
  else ((if 1 <? p then [page_link location_search (p - 1) "Previous" false] else [])
        ++ map (fun q => page_link location_search q (JS.String_of (JS.Int q)) (q =? p))
               (pages_upto T)
        ++ (if p <? T then [page_link location_search (p + 1) "Next" false] else []))%list.

(** The [q]-th page of [l] at [k] items a page. *)
Definition chunk {A : Type} (k q : Z) (l : list A) : list A :=
  firstn (Z.to_nat k) (skipn (Z.to_nat ((q - 1) * k)) l).

(** The games in the grid after a render; none when the render does not
    end. *)
Definition shown (r : ViewState * JS.completion View) : list Game.t :=
  match snd r with
  | JS.Normal v => grid v
  | _ => []
  end.

(** The first page of the sample catalogue, newest first, one game a
    page. *)
Definition sample_page : View :=
  {| grid := [Sample.fresh];
     address := "?sort=new";
     links := [Current "1"; Anchor "?sort=new&page=2" "2"; Anchor "?sort=new&page=2" "Next"];
     results_count := "2 games found" |}.

(** *** The user record *)

(** A counter read with [|| 0]. *)
Definition counter (c : option Z) : Z :=
  match c with
  | Some n => n
  | None => 0
  end.

(** The user record after [points] more points, [posts] more posts and
    [comments] more comments; a counter that gets nothing is left as it
    is, absent if it was absent. *)
Definition credited (user : Storage.User) (points posts comments : Z) : Storage.User :=
  {| Storage.id := Storage.id user;
     Storage.email := Storage.email user;
     Storage.username := Storage.username user;
     Storage.points := Some (counter (Storage.points user) + points);
     Storage.posts :=
       if posts =? 0 then Storage.posts user else Some (counter (Storage.posts user) + posts);
     Storage.comments :=
       if comments =? 0 then Storage.comments user
       else Some (counter (Storage.comments user) + comments);
     Storage.joinDate := Storage.joinDate user |}.

(** *** The search panel, the rating input and the tabs *)

(** What holds of the search panel between two events: it is closed and
    blank, or expanded and showing the notice or between one and six
    entries of the index. *)
Definition panel_ok (index : list SiteSearch.Item) (p : SiteSearch.Panel) : Prop :=
  (SiteSearch.expanded p = false /\ SiteSearch.content p = SiteSearch.Blank)
  \/ (SiteSearch.expanded p = true
      /\ (SiteSearch.content p = SiteSearch.NoMatches
          \/ exists items,
               SiteSearch.content p = SiteSearch.Results items
               /\ items <> [] /\ (length items <= 6)%nat
               /\ forall item, In item items -> In item index)).

(** A rating input of five hollow stars with its hidden field. *)
Definition sample_rating : Rating.Widget :=
  {| Rating.stars := repeat Rating.Hollow 5; Rating.rating_value := Some "" |}.

(** A list of three tabs, the first one selected. *)
Definition sample_tabs : Tabs.Tablist :=
  {| Tabs.buttons :=
       [ {| Tabs.target := Some "about"; Tabs.aria_selected := "true"; Tabs.tabindex := "0" |};
         {| Tabs.target := Some "guide"; Tabs.aria_selected := "false"; Tabs.tabindex := "-1" |};
         {| Tabs.target := Some "reviews"; Tabs.aria_selected := "false";
            Tabs.tabindex := "-1" |} ];
     Tabs.panels :=
       [ {| Tabs.id := "about"; Tabs.aria_hidden := "false" |};
         {| Tabs.id := "guide"; Tabs.aria_hidden := "true" |};
         {| Tabs.id := "reviews"; Tabs.aria_hidden := "true" |} ] |}.

(* ===================================================================== *)
(** * Part II.  Theorems                                                  *)
(* ===================================================================== *)

(** ** Strings and lists *)

Section StringFacts.

Lemma append_nil_l (s : string) : "" ++ s = s.
Proof. reflexivity. Qed.

Lemma append_cons (c : ascii) (s t : string) : String c s ++ t = String c (s ++ t).
Proof. reflexivity. Qed.

Lemma prefix_iff (p s : string) :
  String.prefix p s = true <-> exists post, s = p ++ post.
Proof.
  revert s; induction p as [|a p IH]; intros s.
  - split; [intros _; now exists s | intros _; now destruct s].
  - destruct s as [|b s]; simpl.
    + split; [discriminate | intros [post H]; discriminate].
    + destruct (ascii_dec a b) as [->|Hab].
      * rewrite IH. split; intros [post H]; exists post.
        -- now rewrite append_cons, H.
        -- rewrite append_cons in H. congruence.
      * split; [discriminate | intros [post H]; rewrite append_cons in H; congruence].
Qed.

Lemma includes_nil (sub : string) :
  JS.includes "" sub = String.prefix sub "" || false.
Proof. reflexivity. Qed.

Lemma includes_cons (c : ascii) (s sub : string) :
  JS.includes (String c s) sub = String.prefix sub (String c s) || JS.includes s sub.
Proof. reflexivity. Qed.

(** [includes] decides occurrence as a substring. *)
Lemma includes_iff (s sub : string) :
  JS.includes s sub = true <-> exists pre post, s = pre ++ sub ++ post.
Proof.
  split.
  - induction s as [|c s IH];
      rewrite ?includes_nil, ?includes_cons, orb_true_iff; intros [H|H].
    + apply prefix_iff in H as [post H]. now exists "", post.
    + discriminate.
    + apply prefix_iff in H as [post H]. now exists "", post.
    + destruct (IH H) as (pre & post & ->). now exists (String c pre), post.
  - intros (pre & post & ->). induction pre as [|c pre IH].
    + rewrite append_nil_l.
      assert (H : String.prefix sub (sub ++ post) = true)
        by (apply prefix_iff; now exists post).
      destruct (sub ++ post); rewrite ?includes_nil, ?includes_cons, H; reflexivity.
    + rewrite append_cons, includes_cons, IH. apply orb_true_r.
Qed.

Lemma array_includes_iff (l : list string) (x : string) :
  JS.array_includes l x = true <-> In x l.
Proof.
  unfold JS.array_includes. rewrite existsb_exists. split.
  - intros (y & Hy & Heq). apply String.eqb_eq in Heq. now subst.
  - intros H. exists x. split; [assumption | apply String.eqb_refl].
Qed.

Lemma truthy_iff (s : string) : JS.truthy s = true <-> s <> "".
Proof.
  unfold JS.truthy. rewrite negb_true_iff. split.
  - intros H ->. discriminate.
  - intros H. apply String.eqb_neq. assumption.
Qed.

Lemma nonempty_iff {A : Type} (l : list A) : Games.nonempty l = true <-> l <> [].
Proof. destruct l; simpl; split; congruence. Qed.

Lemma filter_length_mono {A : Type} (p q : A -> bool) (l : list A) :
  (forall x, In x l -> p x = true -> q x = true) ->
  (length (List.filter p l) <= length (List.filter q l))%nat.
Proof.
  induction l as [|x l IH]; intros H; simpl; [lia|].
  assert (IH' : (length (List.filter p l) <= length (List.filter q l))%nat)
    by (apply IH; intros y Hy; apply H; now right).
  specialize (H x (or_introl eq_refl)).
  destruct (p x); destruct (q x); simpl; try lia.
Qed.

Lemma filter_filter {A : Type} (p q : A -> bool) (l : list A) :
  List.filter p (List.filter q l) = List.filter (fun x => q x && p x) l.
Proof.
  induction l as [|x l IH]; simpl; [reflexivity|].
  destruct (q x); simpl; [destruct (p x)|]; now rewrite IH.
Qed.

Lemma filter_all {A : Type} (p : A -> bool) (l : list A) :
  (forall x, In x l -> p x = true) -> List.filter p l = l.
Proof.
  induction l as [|x l IH]; intros H; simpl; [reflexivity|].
  rewrite (H x (or_introl eq_refl)), IH; [reflexivity|].
  intros y Hy. apply H. now right.
Qed.

End StringFacts.

(** ** Facet filtering *)

Lemma optional_includes_iff (field : option (list string)) (v : string) :
  optional_includes field v = true <-> In v (or_empty field).
Proof.
  destruct field as [l|]; simpl.
  - apply array_includes_iff.
  - split; [discriminate | contradiction].
Qed.

Lemma array_facet_rejects (sel : list string) (field : option (list string)) :
  nonempty sel && negb (existsb (fun v => optional_includes field v) sel) = false
  <-> (sel <> [] -> exists v, In v sel /\ In v (or_empty field)).
Proof.
  rewrite andb_false_iff, negb_false_iff, existsb_exists. split.
  - intros [H|(v & Hv & Hin)] Hne.
    + destruct sel; [contradiction | discriminate].
    + exists v. split; [assumption | now apply optional_includes_iff].
  - intros H. destruct sel as [|s sel]; [now left | right].
    destruct H as (v & Hv & Hin); [discriminate|].
    exists v. split; [assumption | now apply optional_includes_iff].
Qed.

Lemma difficulty_facet_rejects (sel : list string) (field : option string) :
  nonempty sel && negb (includes_optional sel field) = false
  <-> (sel <> [] ->
       exists v, In v sel /\ In v (match field with Some d => [d] | None => [] end)).
Proof.
  rewrite andb_false_iff, negb_false_iff. split.
  - intros [H|H] Hne.
    + destruct sel; [contradiction | discriminate].
    + destruct field as [d|]; [|discriminate].
      apply array_includes_iff in H. exists d. split; [assumption | now left].
  - intros H. destruct sel as [|s sel]; [now left | right].
    destruct H as (v & Hv & Hin); [discriminate|].
    destruct field as [d|]; [|contradiction].
    destruct Hin as [->|[]]. now apply array_includes_iff.
Qed.

Lemma matchesFilters_facets (g : Game.t) (f : Filters.t) :
  matchesFilters g f = true <-> forall x, facet_passes g f x.
Proof.
  pose proof (array_facet_rejects (Filters.categories f) (Game.categories g)) as Hc.
  pose proof (array_facet_rejects (Filters.mechanisms f) (Game.mechanisms g)) as Hm.
  pose proof (difficulty_facet_rejects (Filters.difficulty f) (Game.difficulty g)) as Hd.
  pose proof (array_facet_rejects (Filters.language f) (Game.languages g)) as Hl.
  unfold matchesFilters.
  destruct (nonempty (Filters.categories f) && _) eqn:Ec.
  { split; [discriminate|]. intros H. specialize (H Categories).
    apply Hc in H. discriminate. }
  destruct (nonempty (Filters.mechanisms f) && _) eqn:Em.
  { split; [discriminate|]. intros H. specialize (H Mechanisms).
    apply Hm in H. discriminate. }
  destruct (nonempty (Filters.difficulty f) && _) eqn:Ed.
  { split; [discriminate|]. intros H. specialize (H Difficulty).
    apply Hd in H. discriminate. }
  destruct (nonempty (Filters.language f) && _) eqn:El.
  { split; [discriminate|]. intros H. specialize (H Language).
    apply Hl in H. discriminate. }
  split; [intros _ | reflexivity].
  intros [ | | | ]; unfold facet_passes; simpl.
  - now apply Hc.
  - now apply Hm.
  - now apply Hd.
  - now apply Hl.
Qed.

(** C4.  [matchesFilters] returns true exactly when every facet with a
    non-empty selection has one of its selected values among the values
    the item carries in that facet: OR within a facet, AND across the
    facets.  A facet without selection constrains nothing, and an item
    whose field is absent carries no value, so it fails every facet that
    has a selection. *)
Theorem matchesFilters_or_within_and_across (g : Game.t) (f : Filters.t) :
  (matchesFilters g f = true
   <-> forall x : Facet,
         selected f x <> [] -> exists v, In v (selected f x) /\ In v (carried g x))
  /\ (forall x : Facet,
        selected f x <> [] -> carried g x = [] -> matchesFilters g f = false).
Proof.
  split.
  - apply matchesFilters_facets.
  - intros x Hsel Hnone.
    destruct (matchesFilters g f) eqn:E; [|reflexivity].
    pose proof (proj1 (matchesFilters_facets g f) E x Hsel) as (v & _ & Hv).
    rewrite Hnone in Hv. contradiction.
Qed.

(** ** Filter monotonicity *)

Lemma assoc_cons {V : Type} (key k : string) (v : V) (rest : list (string * V)) :
  JS.assoc key ((k, v) :: rest) = if String.eqb k key then Some v else JS.assoc key rest.
Proof. reflexivity. Qed.

Lemma lookup_facet (f : Filters.t) (key : string) (l : list string) :
  JS.lookup_property (filter_entries f) key = JS.Own l ->
  exists x, key = facet_name x /\ l = selected f x.
Proof.
  unfold JS.lookup_property, filter_entries. rewrite !assoc_cons.
  destruct (String.eqb "categories" key) eqn:E1.
  { apply String.eqb_eq in E1. intros [= <-]. now exists Categories. }
  destruct (String.eqb "mechanisms" key) eqn:E2.
  { apply String.eqb_eq in E2. intros [= <-]. now exists Mechanisms. }
  destruct (String.eqb "difficulty" key) eqn:E3.
  { apply String.eqb_eq in E3. intros [= <-]. now exists Difficulty. }
  destruct (String.eqb "language" key) eqn:E4.
  { apply String.eqb_eq in E4. intros [= <-]. now exists Language. }
  cbn [JS.assoc]. destruct (JS.assoc key JS.Object_prototype); discriminate.
Qed.

Lemma lookup_facet_name (f : Filters.t) (x : Facet) :
  JS.lookup_property (filter_entries f) (facet_name x) = JS.Own (selected f x).
Proof. destruct x; reflexivity. Qed.

Lemma selected_set_facet (f : Filters.t) (x y : Facet) (values : list string) :
  selected (set_facet f (facet_name x) values) y
  = if Facet_eqb x y then values else selected f y.
Proof. destruct x, y; reflexivity. Qed.

(** Ticking a facet input leaves the other facets alone and, in its own
    facet, appends the value unless it is already selected. *)
Lemma toggle_checked (f f' : Filters.t) (x : Facet) (v : string) :
  toggle_facet f (facet_name x) v true = JS.Normal (Some f') ->
  (forall y, Facet_eqb x y = false -> selected f' y = selected f y)
  /\ (selected f' x = selected f x \/ selected f' x = (selected f x ++ [v])%list).
Proof.
  unfold toggle_facet. rewrite lookup_facet_name.
  destruct (negb (JS.array_includes (selected f x) v)); intros [= <-].
  - split.
    + intros y Hy. now rewrite selected_set_facet, Hy.
    + right. rewrite selected_set_facet. now destruct x.
  - split; [reflexivity | now left].
Qed.

Lemma toggle_checked_first (f f' : Filters.t) (x : Facet) (v : string) :
  selected f x = [] ->
  toggle_facet f (facet_name x) v true = JS.Normal (Some f') ->
  selected f' x = [v].
Proof.
  unfold toggle_facet. rewrite lookup_facet_name. intros ->. simpl.
  intros [= <-]. rewrite selected_set_facet. now destruct x.
Qed.

Lemma filtered_length_mono (games : list Game.t) (st st' : ViewState) :
  search st' = search st ->
  (forall g, matchesFilters g (filters st') = true -> matchesFilters g (filters st) = true) ->
  (length (filtered games st') <= length (filtered games st))%nat.
Proof.
  intros Hs H. unfold filtered. rewrite !filter_filter, Hs.
  apply filter_length_mono. intros g _.
  rewrite !andb_true_iff. intros [Hf Hq]. split; [now apply H | assumption].
Qed.

(** A facet with no selection, once it gets one, can only reject more. *)
Lemma first_selection_narrows (f f' : Filters.t) (x : Facet) (v : string) (g : Game.t) :
  selected f x = [] ->
  toggle_facet f (facet_name x) v true = JS.Normal (Some f') ->
  matchesFilters g f' = true -> matchesFilters g f = true.
Proof.
  intros Hempty Ht Hm.
  destruct (toggle_checked _ _ _ _ Ht) as [Hother _].
  apply matchesFilters_facets. intros y Hy.
  destruct (Facet_eqb x y) eqn:E.
  - assert (x = y) as <- by (destruct x, y; simpl in E; congruence).
    contradiction.
  - pose proof (proj1 (matchesFilters_facets g f') Hm y) as Hp.
    unfold facet_passes in Hp. rewrite (Hother y E) in Hp. now apply Hp.
Qed.

(** A facet that has a selection, given one more value, can only accept
    more. *)
Lemma further_selection_widens (f f' : Filters.t) (x : Facet) (v : string) (g : Game.t) :
  selected f x <> [] ->
  toggle_facet f (facet_name x) v true = JS.Normal (Some f') ->
  matchesFilters g f = true -> matchesFilters g f' = true.
Proof.
  intros Hsel Ht Hm.
  destruct (toggle_checked _ _ _ _ Ht) as [Hother Hown].
  apply matchesFilters_facets. intros y Hy.
  pose proof (proj1 (matchesFilters_facets g f) Hm y) as Hp.
  unfold facet_passes in Hp.
  destruct (Facet_eqb x y) eqn:E.
  - assert (x = y) as <- by (destruct x, y; simpl in E; congruence).
    destruct (Hp Hsel) as (w & Hw & Hc). exists w. split; [|assumption].
    destruct Hown as [-> | ->]; [assumption | apply in_or_app; now left].
  - rewrite (Hother y E) in *. now apply Hp.
Qed.

(** C5, as the specification states it, fails: with the category [logic]
    selected the sample catalogue shows one game, and ticking [puzzle] as
    well makes it show two. *)
Example second_value_in_a_facet_grows_the_result :
  length (filtered Sample.catalog (Sample.view "trending" ["logic"])) = 1%nat
  /\ fst (handle Sample.byte_compare Sample.catalog (JS.Int 24) true
            (FacetChange "categories" "puzzle" true)
            (Sample.view "trending" ["logic"]))
     = Sample.view "trending" ["logic"; "puzzle"]
  /\ length (filtered Sample.catalog (Sample.view "trending" ["logic"; "puzzle"])) = 2%nat.
Proof. repeat split; vm_compute; reflexivity. Qed.

(** C5, amended.  With no value selected in any facet the filtered list
    is exactly the items that match the search text, hence the whole
    catalogue when the search text is empty.  Selecting a value in a facet
    that had no selection never makes the filtered list longer; selecting
    a further value in a facet that already has one never makes it
    shorter. *)
Theorem selection_and_result_size (games : list Game.t) (st : ViewState) :
  ((forall x, selected (filters st) x = []) ->
   filtered games st = List.filter (fun g => matchesSearch g (search st)) games
   /\ (search st = "" -> filtered games st = games))
  /\ (forall x v f',
        selected (filters st) x = [] ->
        toggle_facet (filters st) (facet_name x) v true = JS.Normal (Some f') ->
        (length (filtered games (set_filters st f')) <= length (filtered games st))%nat)
  /\ (forall x v f',
        selected (filters st) x <> [] ->
        toggle_facet (filters st) (facet_name x) v true = JS.Normal (Some f') ->
        (length (filtered games st) <= length (filtered games (set_filters st f')))%nat).
Proof.
  split; [|split].
  - intros Hnone.
    assert (Hall : List.filter (fun g => matchesFilters g (filters st)) games = games).
    { apply filter_all. intros g _. apply matchesFilters_facets.
      intros x Hx. now rewrite Hnone in Hx. }
    unfold filtered. rewrite Hall. split; [reflexivity|].
    intros ->. apply filter_all. reflexivity.
  - intros x v f' Hempty Ht. apply filtered_length_mono; [reflexivity|].
    intros g. simpl. now apply first_selection_narrows with (x := x) (v := v).
  - intros x v f' Hsel Ht. apply filtered_length_mono; [reflexivity|].
    intros g. simpl. now apply further_selection_widens with (x := x) (v := v).
Qed.

Lemma selection_and_result_size_witness :
  (length (filtered Sample.catalog (Sample.view "trending" ["puzzle"]))
   <= length (filtered Sample.catalog (Sample.view "trending" [])))%nat.
Proof.
  exact (proj1 (proj2 (selection_and_result_size Sample.catalog (Sample.view "trending" [])))
           Categories "puzzle" (filters (Sample.view "trending" ["puzzle"]))
           eq_refl eq_refl).
Defined.

(** ** Search *)

(** C6, as the specification states it, fails: the query [ab] occurs in
    the concatenation of the title [a] and the summary [b], yet the item
    does not match, and a query of one space matches although the
    concatenation holds no space. *)
Example matchesSearch_is_not_plain_concatenation :
  (JS.includes (JS.toLowerCase (concatenation Sample.terse)) (JS.toLowerCase "ab") = true
   /\ matchesSearch Sample.terse "ab" = false)
  /\ (JS.includes (JS.toLowerCase (concatenation Sample.terse)) (JS.toLowerCase " ") = false
      /\ matchesSearch Sample.terse " " = true).
Proof. repeat split; vm_compute; reflexivity. Qed.

(** C6, amended.  [matchesSearch] is true on the empty query for every
    item; for every query it is true exactly when the lower-cased query
    occurs as a substring of the lower-cased text made of the item's
    title, summary, author, categories and mechanisms joined by single
    spaces (an absent field counts as empty). *)
Theorem matchesSearch_substring_of_joined_fields :
  (forall g, matchesSearch g "" = true)
  /\ (forall g q,
        matchesSearch g q = true
        <-> q = "" \/ occurs (JS.toLowerCase q) (JS.toLowerCase (JS.join " " (text_fields g)))).
Proof.
  split; [reflexivity|].
  intros g q. unfold matchesSearch.
  destruct (JS.truthy q) eqn:E; simpl.
  - apply truthy_iff in E. fold (text_fields g). unfold occurs.
    rewrite includes_iff. split; [now right | intros [H|H]; [contradiction | assumption]].
  - split; [intros _; left | reflexivity].
    destruct q; [reflexivity | discriminate].
Qed.

(** ** Sorting *)

Section SortFacts.

Context {A : Type} (c : A -> A -> float).

Lemma insert_sorted_permutation (x : A) (l : list A) :
  Permutation (JS.insert_sorted c x l) (x :: l).
Proof.
  induction l as [|y l IH]; simpl; [reflexivity|].
  destruct (JS.positive (c x y)); [|reflexivity].
  rewrite IH. apply perm_swap.
Qed.

(** The sort only permutes. *)
Lemma sort_by_permutation (l : list A) : Permutation (JS.sort_by c l) l.
Proof.
  induction l as [|x l IH]; simpl; [reflexivity|].
  rewrite insert_sorted_permutation. now constructor.
Qed.

Lemma sort_by_length (l : list A) : length (JS.sort_by c l) = length l.
Proof. apply Permutation_length, sort_by_permutation. Qed.

(** A comparator never asks for both orders of a pair. *)
Hypothesis antisymmetric :
  forall x y, JS.positive (c x y) = true -> JS.positive (c y x) = false.

Lemma insert_sorted_HdRel (z x : A) (l : list A) :
  keeps c z x -> HdRel (keeps c) z l -> HdRel (keeps c) z (JS.insert_sorted c x l).
Proof using Type.
  intros Hzx Hl. destruct l as [|y l]; simpl.
  - now constructor.
  - destruct (JS.positive (c x y)); constructor; [|assumption].
    now inversion Hl.
Qed.

Lemma insert_sorted_Sorted (x : A) (l : list A) :
  Sorted (keeps c) l -> Sorted (keeps c) (JS.insert_sorted c x l).
Proof using antisymmetric.
  induction l as [|y l IH]; intros Hs; simpl.
  - repeat constructor.
  - destruct (JS.positive (c x y)) eqn:E.
    + inversion Hs as [|? ? Hl Hy]; subst. constructor; [now apply IH|].
      apply insert_sorted_HdRel; [|assumption].
      now apply antisymmetric.
    + constructor; [assumption|]. now constructor.
Qed.

(** In the sorted array no element is immediately followed by one that
    the comparator puts before it. *)
Lemma sort_by_Sorted (l : list A) : Sorted (keeps c) (JS.sort_by c l).
Proof using antisymmetric.
  induction l as [|x l IH]; simpl; [constructor|].
  now apply insert_sorted_Sorted.
Qed.

End SortFacts.

(** *** A consistent comparator sorts the whole list *)

Section Consistent.

Context {A : Type} (c : A -> A -> float) (P : A -> Prop).

Hypothesis antisymmetric :
  forall x y, P x -> P y -> JS.positive (c x y) = true -> JS.positive (c y x) = false.

Hypothesis transitive :
  forall x y z, P x -> P y -> P z -> keeps c x y -> keeps c y z -> keeps c x z.

Lemma insert_sorted_Forall (Q : A -> Prop) (x : A) (l : list A) :
  Q x -> Forall Q l -> Forall Q (JS.insert_sorted c x l).
Proof using Type.
  intros Hx Hl. apply List.Forall_forall. intros y Hy.
  apply (Permutation_in _ (insert_sorted_permutation c x l)) in Hy.
  destruct Hy as [<- | Hy]; [assumption|].
  now apply (proj1 (List.Forall_forall Q l) Hl).
Qed.

Lemma sort_by_Forall (Q : A -> Prop) (l : list A) :
  Forall Q l -> Forall Q (JS.sort_by c l).
Proof using Type.
  intros Hl. apply List.Forall_forall. intros y Hy.
  apply (Permutation_in _ (sort_by_permutation c l)) in Hy.
  now apply (proj1 (List.Forall_forall Q l) Hl).
Qed.

Lemma insert_sorted_StronglySorted (x : A) (l : list A) :
  P x -> Forall P l ->
  StronglySorted (keeps c) l -> StronglySorted (keeps c) (JS.insert_sorted c x l).
Proof using antisymmetric transitive.
  intros Hx. induction l as [|y l IH]; intros HP Hs; simpl.
  - repeat constructor.
  - inversion Hs as [|? ? Hl Hy]; subst.
    inversion HP as [|? ? Py Pl]; subst.
    destruct (JS.positive (c x y)) eqn:E.
    + constructor; [now apply IH|].
      apply insert_sorted_Forall; [now apply antisymmetric | assumption].
    + constructor; [assumption|]. constructor; [exact E|].
      apply List.Forall_forall. intros z Hz.
      apply transitive with (y := y); try assumption.
      * now apply (proj1 (List.Forall_forall _ l) Pl).
      * now apply (proj1 (List.Forall_forall _ l) Hy).
Qed.

(** When the comparator is consistent on the elements of the array,
    every element of the sorted array may stand before every later
    one. *)
Lemma sort_by_StronglySorted (l : list A) :
  Forall P l -> StronglySorted (keeps c) (JS.sort_by c l).
Proof using antisymmetric transitive.
  induction l as [|x l IH]; intros HP; simpl; [constructor|].
  inversion HP as [|? ? Px Pl]; subst.
  apply insert_sorted_StronglySorted; [assumption | now apply sort_by_Forall | now apply IH].
Qed.

End Consistent.

Lemma sort_by_ext {A : Type} (c c' : A -> A -> float) (l : list A) :
  (forall x y, c x y = c' x y) -> JS.sort_by c l = JS.sort_by c' l.
Proof.
  intros H. induction l as [|x l IH]; simpl; [reflexivity|]. rewrite IH.
  generalize (JS.sort_by c' l). intros s.
  induction s as [|y s IHs]; simpl; [reflexivity|]. now rewrite H, IHs.
Qed.

Lemma StronglySorted_on_impl {A : Type} (R R' : A -> A -> Prop) (P : A -> Prop)
    (l : list A) :
  (forall x y, P x -> P y -> R x y -> R' x y) ->
  Forall P l -> StronglySorted R l -> StronglySorted R' l.
Proof.
  intros H HP Hs. induction Hs as [|x l Hs IH Hx]; [constructor|].
  inversion HP as [|? ? Px Pl]; subst.
  constructor; [now apply IH|].
  apply List.Forall_forall. intros y Hy. apply H; try assumption.
  - now apply (proj1 (List.Forall_forall _ l) Pl).
  - now apply (proj1 (List.Forall_forall _ l) Hx).
Qed.

(** *** The sign of a difference of floats *)

Section FloatFacts.

Lemma positive_spec (v : float) : JS.positive v = SFpositive (Prim2SF v).
Proof.
  unfold JS.positive. rewrite ltb_spec.
  change (Prim2SF 0) with (S754_zero false).
  destruct (Prim2SF v) as [s| [|] | | [|] m e]; reflexivity.
Qed.

Lemma binary_round_aux_negative (m : Z) (e : Z) (l : location) :
  SFpositive (binary_round_aux prec emax true m e l) = false.
Proof.
  unfold binary_round_aux.
  destruct (shr_fexp prec emax m e l) as [mrs' e'].
  destruct (shr_fexp prec emax _ e' loc_Exact) as [mrs'' e''].
  destruct (shr_m mrs''); [reflexivity | | reflexivity].
  destruct (Z.leb e'' _); reflexivity.
Qed.

Lemma binary_normalize_positive (m e : Z) (sz : bool) :
  SFpositive (binary_normalize prec emax m e sz) = true -> (0 < m)%Z.
Proof.
  destruct m as [|p|p]; simpl.
  - destruct sz; discriminate.
  - lia.
  - unfold binary_round. destruct (shl_align _ _ _) as [mz ez].
    now rewrite binary_round_aux_negative.
Qed.

Lemma SFsub_positive_antisym (x y : spec_float) :
  SFpositive (SFsub prec emax x y) = true -> SFpositive (SFsub prec emax y x) = false.
Proof.
  destruct x as [sx|sx| |sx mx ex], y as [sy|sy| |sy my ey].
  all: try solve [ repeat match goal with s : bool |- _ => destruct s end;
                   simpl; first [discriminate | reflexivity] ].
  cbv beta iota zeta delta [SFsub].
  intros H. apply binary_normalize_positive in H.
  match goal with
  | |- SFpositive ?t = false => destruct (SFpositive t) eqn:E; [|reflexivity]
  end.
  apply binary_normalize_positive in E. rewrite (Z.min_comm ey ex) in E. lia.
Qed.

(** [x - y > 0] and [y - x > 0] never hold together, whatever the floats
    (infinities and NaN included). *)
Lemma sub_positive_antisym (x y : float) :
  JS.positive (x - y) = true -> JS.positive (y - x) = false.
Proof.
  rewrite !positive_spec, !sub_spec. apply SFsub_positive_antisym.
Qed.

End FloatFacts.

(** *** The order of floats *)

Section FloatOrder.

Lemma prec_val : prec = 53.
Proof. reflexivity. Qed.

Lemma emax_val : emax = 1024.
Proof. reflexivity. Qed.

Lemma emin_val : emin = -1074.
Proof. reflexivity. Qed.

Ltac format_facts :=
  pose proof prec_val; pose proof emax_val; pose proof emin_val.

Lemma digits2_pos_bounds (q : positive) :
  2 ^ (Zpos (digits2_pos q) - 1) <= Zpos q < 2 ^ Zpos (digits2_pos q).
Proof.
  induction q as [q IH|q IH|]; cbn [digits2_pos].
  - rewrite Pos2Z.inj_succ, Z.pow_succ_r by lia.
    replace (Z.succ (Zpos (digits2_pos q)) - 1) with (Z.succ (Zpos (digits2_pos q) - 1)) by lia.
    rewrite Z.pow_succ_r by lia. lia.
  - rewrite Pos2Z.inj_succ, Z.pow_succ_r by lia.
    replace (Z.succ (Zpos (digits2_pos q)) - 1) with (Z.succ (Zpos (digits2_pos q) - 1)) by lia.
    rewrite Z.pow_succ_r by lia. lia.
  - simpl. lia.
Qed.

(** What validity says of a finite float. *)
Lemma bounded_facts (m : positive) (e : Z) :
  bounded prec emax m e = true ->
  emin <= e <= emax - prec
  /\ Zpos m < 2 ^ prec
  /\ (emin < e -> 2 ^ (prec - 1) <= Zpos m).
Proof.
  unfold bounded, canonical_mantissa, fexp. rewrite andb_true_iff, Z.eqb_eq, Z.leb_le.
  intros [Hc He]. pose proof (digits2_pos_bounds m) as [Hlo Hhi].
  set (d := Zpos (digits2_pos m)) in *.
  assert (Hd : d <= prec) by lia.
  repeat split; try lia.
  - apply Z.lt_le_trans with (1 := Hhi). apply Z.pow_le_mono_r; lia.
  - intros Hmin. assert (d = prec) as <- by lia. exact Hlo.
Qed.

Lemma pow_emin_pos (e : Z) : emin <= e -> 0 < 2 ^ (e - emin).
Proof. intros H. apply Z.pow_pos_nonneg; lia. Qed.

(** A valid finite float is below the infinity. *)
Lemma finite_below_infinity (m : positive) (e : Z) :
  bounded prec emax m e = true ->
  0 < Zpos m * 2 ^ (e - emin) < 2 ^ (emax - emin).
Proof.
  intros H. destruct (bounded_facts m e H) as ((He1 & He2) & Hm & _).
  pose proof (pow_emin_pos e He1) as Hp. split; [lia|].
  apply Z.lt_le_trans with (2 ^ prec * 2 ^ (e - emin)).
  - apply Z.mul_lt_mono_pos_r; assumption.
  - format_facts. rewrite <- Z.pow_add_r by lia.
    apply Z.pow_le_mono_r; lia.
Qed.

(** Between valid finite floats the smaller exponent is the smaller
    magnitude. *)
Lemma exponent_orders (m1 m2 : positive) (e1 e2 : Z) :
  bounded prec emax m1 e1 = true -> bounded prec emax m2 e2 = true ->
  e1 < e2 ->
  Zpos m1 * 2 ^ (e1 - emin) < Zpos m2 * 2 ^ (e2 - emin).
Proof.
  intros H1 H2 He.
  destruct (bounded_facts m1 e1 H1) as ((Ha & _) & Hm1 & _).
  destruct (bounded_facts m2 e2 H2) as ((Hb & _) & _ & Hm2).
  specialize (Hm2 ltac:(lia)).
  pose proof (pow_emin_pos e1 Ha) as Hp.
  replace (e2 - emin) with ((e2 - e1 - 1) + 1 + (e1 - emin)) by lia.
  rewrite !Z.pow_add_r by lia.
  assert (Hq : 0 < 2 ^ (e2 - e1 - 1)) by (apply Z.pow_pos_nonneg; lia).
  format_facts.
  change (2 ^ prec) with (2 ^ (prec - 1) * 2) in Hm1.
  change (2 ^ 1) with 2.
  assert (Hm1' : Zpos m1 * 2 ^ (e1 - emin) < 2 ^ (prec - 1) * 2 * 2 ^ (e1 - emin))
    by (apply Z.mul_lt_mono_pos_r; assumption).
  assert (Hstep : 2 ^ (prec - 1) * 2 * 2 ^ (e1 - emin)
                  <= Zpos m2 * (2 ^ (e2 - e1 - 1) * 2 * 2 ^ (e1 - emin))).
  { assert (HA : 0 < 2 ^ (prec - 1)) by (apply Z.pow_pos_nonneg; lia).
    assert (HQ : 2 ^ (prec - 1) <= Zpos m2 * 2 ^ (e2 - e1 - 1)) by nia.
    replace (Zpos m2 * (2 ^ (e2 - e1 - 1) * 2 * 2 ^ (e1 - emin)))
      with (Zpos m2 * 2 ^ (e2 - e1 - 1) * (2 * 2 ^ (e1 - emin))) by ring.
    replace (2 ^ (prec - 1) * 2 * 2 ^ (e1 - emin))
      with (2 ^ (prec - 1) * (2 * 2 ^ (e1 - emin))) by ring.
    apply Z.mul_le_mono_nonneg_r; lia. }
  lia.
Qed.

(** On valid floats that are not NaN the comparison of the
    specification is the comparison of the integers. *)
Lemma SFcompare_SFint (x y : spec_float) :
  valid_binary x = true -> valid_binary y = true ->
  x <> S754_nan -> y <> S754_nan ->
  SFcompare x y = Some (SFint x ?= SFint y).
Proof.
  intros Vx Vy Nx Ny.
  assert (HB : 0 < 2 ^ (emax - emin)) by (apply Z.pow_pos_nonneg; format_facts; lia).
  destruct x as [sx|sx| |sx mx ex], y as [sy|sy| |sy my ey];
    try contradiction; cbn [valid_binary] in Vx, Vy;
    repeat match goal with
           | H : bounded prec emax ?m ?e = true |- _ =>
               pose proof (finite_below_infinity m e H); revert H
           end; intros;
    cbn [SFcompare SFint]; unfold cond_Zopp.
  all: try solve [ repeat match goal with s : bool |- _ => destruct s end;
                   f_equal; symmetry;
                   first [ apply Z.compare_eq_iff; lia
                         | apply Z.compare_lt_iff; lia
                         | apply Z.compare_gt_iff; lia ] ].
  (* two finite floats *)
  destruct sx, sy;
    try solve [ f_equal; symmetry;
                first [ apply Z.compare_lt_iff; lia | apply Z.compare_gt_iff; lia ] ].
  - (* both negative *)
    f_equal. destruct (Z.compare_spec ex ey) as [->|He|He].
    + rewrite Pos.compare_cont_spec.
      assert (HP : 0 < 2 ^ (ey - emin))
        by (destruct (bounded_facts _ _ Vy) as ((? & _) & _); now apply pow_emin_pos).
      destruct (Pos.compare_spec mx my) as [->|Hm|Hm]; cbn [Pos.switch_Eq CompOpp];
        symmetry.
      * apply Z.compare_refl.
      * apply Z.compare_gt_iff.
        assert (Zpos mx * 2 ^ (ey - emin) < Zpos my * 2 ^ (ey - emin))
          by (apply Z.mul_lt_mono_pos_r; lia). lia.
      * apply Z.compare_lt_iff.
        assert (Zpos my * 2 ^ (ey - emin) < Zpos mx * 2 ^ (ey - emin))
          by (apply Z.mul_lt_mono_pos_r; lia). lia.
    + symmetry. apply Z.compare_gt_iff.
      pose proof (exponent_orders _ _ _ _ Vx Vy He). lia.
    + symmetry. apply Z.compare_lt_iff.
      pose proof (exponent_orders _ _ _ _ Vy Vx He). lia.
  - (* both positive *)
    f_equal. destruct (Z.compare_spec ex ey) as [->|He|He].
    + rewrite Pos.compare_cont_spec.
      assert (HP : 0 < 2 ^ (ey - emin))
        by (destruct (bounded_facts _ _ Vy) as ((? & _) & _); now apply pow_emin_pos).
      destruct (Pos.compare_spec mx my) as [->|Hm|Hm]; cbn [Pos.switch_Eq];
        symmetry.
      * apply Z.compare_refl.
      * apply Z.compare_lt_iff. apply Z.mul_lt_mono_pos_r; lia.
      * apply Z.compare_gt_iff. apply Z.mul_lt_mono_pos_r; lia.
    + symmetry. apply Z.compare_lt_iff. now apply exponent_orders.
    + symmetry. apply Z.compare_gt_iff. now apply exponent_orders.
Qed.

(** *** Rounding keeps a positive number positive *)

Lemma shr_1_halves (mrs : shr_record) :
  0 <= shr_m mrs -> shr_m (shr_1 mrs) = shr_m mrs / 2.
Proof.
  intros H. rewrite <- Z.div2_div.
  destruct mrs as [m r s]. cbn [shr_m] in *.
  destruct m as [|[p|p|]|p]; try reflexivity; lia.
Qed.

Lemma pow_xO (p : positive) : 2 ^ Zpos p~0 = 2 ^ Zpos p * 2 ^ Zpos p.
Proof. rewrite Pos2Z.inj_xO, <- Z.pow_add_r by lia. f_equal. lia. Qed.

Lemma pow_xI (p : positive) : 2 ^ Zpos p~1 = 2 * (2 ^ Zpos p * 2 ^ Zpos p).
Proof.
  rewrite Pos2Z.inj_xI.
  replace (2 * Zpos p + 1) with (1 + (Zpos p + Zpos p)) by lia.
  rewrite !Z.pow_add_r by lia. reflexivity.
Qed.

Lemma iter_shr_1_divides (p : positive) (mrs : shr_record) :
  0 <= shr_m mrs ->
  shr_m (SpecFloat.iter_pos shr_1 p mrs) = shr_m mrs / 2 ^ Zpos p.
Proof.
  revert mrs. induction p as [p IH|p IH|]; intros mrs H; cbn [SpecFloat.iter_pos].
  - assert (HP : 0 < 2 ^ Zpos p) by (apply Z.pow_pos_nonneg; lia).
    assert (H1 : 0 <= shr_m (shr_1 mrs))
      by (rewrite shr_1_halves by assumption; apply Z.div_pos; lia).
    assert (H2 : 0 <= shr_m (SpecFloat.iter_pos shr_1 p (shr_1 mrs)))
      by (rewrite IH by assumption; apply Z.div_pos; lia).
    rewrite IH, IH, shr_1_halves, pow_xI by assumption.
    rewrite !Z.div_div by lia. f_equal; ring.
  - assert (HP : 0 < 2 ^ Zpos p) by (apply Z.pow_pos_nonneg; lia).
    assert (H2 : 0 <= shr_m (SpecFloat.iter_pos shr_1 p mrs))
      by (rewrite IH by assumption; apply Z.div_pos; lia).
    rewrite IH, IH, pow_xO by assumption.
    rewrite !Z.div_div by lia. reflexivity.
  - rewrite shr_1_halves by assumption. reflexivity.
Qed.

Lemma fexp_above_emin (z : Z) : emin <= fexp prec emax z.
Proof. unfold fexp. lia. Qed.

Lemma shr_record_of_loc_m (m : Z) (l : location) : shr_m (shr_record_of_loc m l) = m.
Proof. destruct l as [|[ | | ]]; reflexivity. Qed.

(** The shift to the format's exponent leaves a positive mantissa
    positive, as long as the exponent is not below the smallest one. *)
Lemma shr_fexp_positive (q : positive) (e : Z) (l : location) :
  emin <= e ->
  0 < shr_m (fst (shr_fexp prec emax (Zpos q) e l))
  /\ emin <= snd (shr_fexp prec emax (Zpos q) e l).
Proof.
  intros He. unfold shr_fexp, shr. cbn [Zdigits2].
  pose proof (digits2_pos_bounds q) as [Hlo _].
  set (d := Zpos (digits2_pos q)) in *.
  destruct (fexp prec emax (d + e) - e) as [|p|p] eqn:En; cbn [fst snd];
    rewrite ?shr_record_of_loc_m; try lia.
  split; [|lia].
  rewrite iter_shr_1_divides, shr_record_of_loc_m by (rewrite shr_record_of_loc_m; lia).
  assert (Hp : Zpos p <= d - 1) by (unfold fexp in En; format_facts; lia).
  apply Z.div_str_pos. split; [apply Z.pow_pos_nonneg; lia|].
  apply Z.le_trans with (2 := Hlo). apply Z.pow_le_mono_r; lia.
Qed.

Lemma round_nearest_even_positive (m : Z) (l : location) :
  0 < m -> 0 < round_nearest_even m l.
Proof.
  intros H. destruct l as [|[ | | ]]; cbn [round_nearest_even]; try lia.
  destruct (Z.even m); lia.
Qed.

Lemma binary_round_aux_positive (q : positive) (e : Z) (l : location) :
  emin <= e -> SFpositive (binary_round_aux prec emax false (Zpos q) e l) = true.
Proof.
  intros He. unfold binary_round_aux.
  destruct (shr_fexp_positive q e l He) as [Hm He'].
  destruct (shr_fexp prec emax (Zpos q) e l) as [mrs' e']. cbn [fst snd] in Hm, He'.
  pose proof (round_nearest_even_positive (shr_m mrs') (loc_of_shr_record mrs') Hm) as Hr.
  destruct (round_nearest_even (shr_m mrs') (loc_of_shr_record mrs')) as [|q'|q'];
    try lia.
  destruct (shr_fexp_positive q' e' loc_Exact He') as [Hm' _].
  destruct (shr_fexp prec emax (Zpos q') e' loc_Exact) as [mrs'' e'']. cbn [fst] in Hm'.
  destruct (shr_m mrs'') as [|q''|q'']; try lia.
  destruct (e'' <=? emax - prec); reflexivity.
Qed.

Lemma shl_align_exponent (m : positive) (e e' : Z) :
  emin <= e -> emin <= e' -> emin <= snd (shl_align m e e').
Proof. intros He He'. unfold shl_align. destruct (e' - e); cbn [snd]; lia. Qed.

Lemma binary_round_positive (p : positive) (e : Z) :
  emin <= e -> SFpositive (binary_round prec emax false p e) = true.
Proof.
  intros He. unfold binary_round.
  pose proof (shl_align_exponent p e (fexp prec emax (Zpos (digits2_pos p) + e)) He
                (fexp_above_emin _)) as Hz.
  destruct (shl_align p e _) as [mz ez]. cbn [snd] in Hz.
  now apply binary_round_aux_positive.
Qed.

(** *** The sign of a difference is the order of the operands *)

Lemma iter_xO (m d : positive) : Zpos (Pos.iter xO m d) = Zpos m * 2 ^ Zpos d.
Proof.
  induction d as [|d IH] using Pos.peano_ind.
  - simpl. lia.
  - rewrite Pos.iter_succ, Pos2Z.inj_xO, IH, Pos2Z.inj_succ, Z.pow_succ_r by lia. ring.
Qed.

Lemma shl_align_fst (m : positive) (e ez : Z) :
  ez <= e -> Zpos (fst (shl_align m e ez)) = Zpos m * 2 ^ (e - ez).
Proof.
  intros H. unfold shl_align. destruct (ez - e) as [|d|d] eqn:E; cbn [fst]; try lia.
  - replace (e - ez) with 0 by lia. lia.
  - rewrite iter_xO. f_equal. f_equal. lia.
Qed.

(** The aligned mantissas of a subtraction are the two integers, up to
    the common power of two. *)
Lemma aligned_SFint (s : bool) (m : positive) (e ez : Z) :
  emin <= ez -> ez <= e ->
  SFint (S754_finite s m e)
  = cond_Zopp s (Zpos (fst (shl_align m e ez))) * 2 ^ (ez - emin).
Proof.
  intros Hz He. cbn [SFint]. rewrite shl_align_fst by assumption.
  replace (e - emin) with ((e - ez) + (ez - emin)) by lia.
  rewrite Z.pow_add_r by lia. destruct s; cbn [cond_Zopp]; ring.
Qed.

Lemma SFsub_positive_SFint (x y : spec_float) :
  valid_binary x = true -> valid_binary y = true ->
  x <> S754_nan -> y <> S754_nan ->
  SFpositive (SFsub prec emax y x) = (SFint x <? SFint y).
Proof.
  intros Vx Vy Nx Ny.
  assert (HB : 0 < 2 ^ (emax - emin)) by (apply Z.pow_pos_nonneg; format_facts; lia).
  destruct x as [sx|sx| |sx mx ex], y as [sy|sy| |sy my ey];
    try contradiction; cbn [valid_binary] in Vx, Vy;
    repeat match goal with
           | H : bounded prec emax ?m ?e = true |- _ =>
               pose proof (finite_below_infinity m e H); revert H
           end; intros.
  all: try solve [ repeat match goal with s : bool |- _ => destruct s end;
                   cbn [SFsub SFint SFpositive negb]; unfold cond_Zopp; symmetry;
                   first [ apply Z.ltb_lt; lia | apply Z.ltb_ge; lia ] ].
  (* two finite floats *)
  destruct (bounded_facts _ _ Vx) as ((Hex & _) & _).
  destruct (bounded_facts _ _ Vy) as ((Hey & _) & _).
  cbv beta iota zeta delta [SFsub].
  set (ez := Z.min ey ex).
  assert (Hz : emin <= ez) by (unfold ez; lia).
  assert (HP : 0 < 2 ^ (ez - emin)) by now apply pow_emin_pos.
  rewrite (aligned_SFint sx mx ex ez), (aligned_SFint sy my ey ez)
    by (unfold ez; lia).
  set (ax := cond_Zopp sx (Zpos (fst (shl_align mx ex ez)))).
  set (ay := cond_Zopp sy (Zpos (fst (shl_align my ey ez)))).
  destruct (ay - ax) as [|p|p] eqn:Ed; cbn [binary_normalize].
  - cbn [SFpositive]. symmetry. apply Z.ltb_ge. nia.
  - rewrite binary_round_positive by assumption.
    symmetry. apply Z.ltb_lt. apply Z.mul_lt_mono_pos_r; lia.
  - unfold binary_round. destruct (shl_align p ez _) as [mz ez'].
    rewrite binary_round_aux_negative.
    symmetry. apply Z.ltb_ge. apply Z.mul_le_mono_nonneg_r; lia.
Qed.

(** *** Back to the primitive floats *)

Lemma Prim2SF_not_nan (x : float) : is_nan x = false -> Prim2SF x <> S754_nan.
Proof.
  intros H. unfold Prim2SF. rewrite H.
  destruct (is_zero x); [discriminate|].
  destruct (is_infinity x); [discriminate|].
  destruct (Z.frexp x) as [r e].
  destruct (shr_fexp prec emax _ _ loc_Exact) as [mrs e'].
  destruct (shr_m mrs); discriminate.
Qed.

Lemma ltb_rank (x y : float) :
  is_nan x = false -> is_nan y = false ->
  PrimFloat.ltb x y = (float_rank x <? float_rank y).
Proof.
  intros Hx Hy. rewrite ltb_spec. unfold SFltb, float_rank.
  rewrite SFcompare_SFint
    by (try apply Prim2SF_valid; now apply Prim2SF_not_nan).
  unfold Z.ltb. destruct (SFint (Prim2SF x) ?= SFint (Prim2SF y)); reflexivity.
Qed.

Lemma leb_rank (x y : float) :
  is_nan x = false -> is_nan y = false ->
  PrimFloat.leb x y = (float_rank x <=? float_rank y).
Proof.
  intros Hx Hy. rewrite leb_spec. unfold SFleb, float_rank.
  rewrite SFcompare_SFint
    by (try apply Prim2SF_valid; now apply Prim2SF_not_nan).
  unfold Z.leb. destruct (SFint (Prim2SF x) ?= SFint (Prim2SF y)); reflexivity.
Qed.

(** For floats that are not NaN, [y - x > 0] says exactly that [x < y]. *)
Lemma positive_sub_rank (x y : float) :
  is_nan x = false -> is_nan y = false ->
  JS.positive (y - x) = (float_rank x <? float_rank y).
Proof.
  intros Hx Hy. rewrite positive_spec, sub_spec. unfold float_rank.
  apply SFsub_positive_SFint;
    try apply Prim2SF_valid; now apply Prim2SF_not_nan.
Qed.

Lemma positive_sub_ltb (x y : float) :
  is_nan x = false -> is_nan y = false ->
  JS.positive (y - x) = PrimFloat.ltb x y.
Proof. intros Hx Hy. now rewrite positive_sub_rank, ltb_rank. Qed.

End FloatOrder.

(** Sorting by the difference of a key that is never NaN sorts
    descending by the key, in the order of floats. *)
Lemma sort_by_key_descending {A : Type} (k : A -> float) (l : list A) :
  Forall (fun a => is_nan (k a) = false) l ->
  StronglySorted (fun a b => PrimFloat.leb (k b) (k a) = true)
                 (JS.sort_by (fun a b => (k b - k a)%float) l).
Proof.
  intros Hl.
  apply StronglySorted_on_impl
    with (R := keeps (fun a b => (k b - k a)%float))
         (P := fun a => is_nan (k a) = false).
  - intros x y Hx Hy. unfold keeps.
    rewrite positive_sub_rank, leb_rank by assumption.
    rewrite Z.ltb_ge, Z.leb_le. trivial.
  - now apply sort_by_Forall.
  - apply sort_by_StronglySorted with (P := fun a => is_nan (k a) = false);
      [| |assumption].
    + intros x y _ _. apply sub_positive_antisym.
    + intros x y z Hx Hy Hz. unfold keeps.
      rewrite !positive_sub_rank by assumption. rewrite !Z.ltb_ge. lia.
Qed.

Lemma or_zero_not_nan (x : option float) : is_nan (JS.or_zero x) = false.
Proof.
  destruct x as [v|]; [|reflexivity]. unfold JS.or_zero.
  destruct (is_nan v) eqn:E; [reflexivity|].
  destruct (is_zero v); [reflexivity | exact E].
Qed.

(** *** Which comparator a sort key selects *)

Lemma sorter_for_named (localeCompare : string -> string -> float) (key : string) :
  plain_key key ->
  sorter_for localeCompare key = inl (named_comparator localeCompare key).
Proof.
  unfold plain_key, sorter_for, JS.lookup_property, sorters.
  intros Hplain. rewrite !assoc_cons, Hplain. cbn [JS.assoc].
  destruct (String.eqb "trending" key) eqn:E1.
  { apply String.eqb_eq in E1. subst key. reflexivity. }
  destruct (String.eqb "new" key) eqn:E2.
  { apply String.eqb_eq in E2. subst key. reflexivity. }
  destruct (String.eqb "most-rated" key) eqn:E3.
  { apply String.eqb_eq in E3. subst key. reflexivity. }
  destruct (String.eqb "alpha" key) eqn:E4.
  { apply String.eqb_eq in E4. subst key. reflexivity. }
  unfold named_comparator, sort_value.
  rewrite (String.eqb_sym key "alpha"), (String.eqb_sym key "new"),
    (String.eqb_sym key "most-rated"), E2, E3, E4.
  reflexivity.
Qed.

Lemma named_comparator_difference
    (localeCompare : string -> string -> float) (key : string) (l : list Game.t) :
  key <> "alpha" ->
  JS.sort_by (named_comparator localeCompare key) l
  = JS.sort_by (fun a b => (sort_value key b - sort_value key a)%float) l.
Proof.
  intros Hkey. apply sort_by_ext. intros a b. unfold named_comparator.
  now rewrite (proj2 (String.eqb_neq key "alpha") Hkey).
Qed.

(** Under [most-rated] the list is sorted descending by rating whatever
    the ratings are: an absent, zero or NaN rating counts as 0. *)
Lemma most_rated_descending
    (localeCompare : string -> string -> float) (l : list Game.t) :
  StronglySorted
    (fun a b => PrimFloat.leb (JS.or_zero (Game.rating b)) (JS.or_zero (Game.rating a)) = true)
    (JS.sort_by (named_comparator localeCompare "most-rated") l).
Proof.
  rewrite named_comparator_difference by discriminate.
  apply (sort_by_key_descending (fun g => JS.or_zero (Game.rating g))).
  apply List.Forall_forall. intros g _. apply or_zero_not_nan.
Qed.

(** C1, as the specification states it, fails.  The key [newest] is not a
    key of [sorters]: under it the sample catalogue comes out in trending
    order, the older game first.  And the key [new], which is outside the
    specification's four keys, does not fall back to the trending
    comparator: it puts the newer game first. *)
Example newest_is_not_a_sort_key :
  (ranked Sample.byte_compare Sample.catalog (Sample.view "newest" [])
   = JS.Normal [Sample.classic; Sample.fresh]
   /\ PrimFloat.ltb (Game.created_at Sample.classic) (Game.created_at Sample.fresh) = true)
  /\ (ranked Sample.byte_compare Sample.catalog (Sample.view "new" [])
      = JS.Normal [Sample.fresh; Sample.classic]
      /\ JS.sort_by (named_comparator Sample.byte_compare "trending") Sample.catalog
         = [Sample.classic; Sample.fresh]).
Proof. repeat split; vm_compute; reflexivity. Qed.

(** C1, amended.  For every view state and catalogue the pipeline sorts
    the filtered items with the comparator stored under the sort key in
    [sorters], whose keys are [trending], [new], [most-rated] and
    [alpha]: [trending] sorts descending by
    [0.7 * pv7_norm + 0.2 * guide_clicks7_norm + 0.1 * recency], [new]
    descending by [created_at], [most-rated] descending by [rating]
    (absent numbers count as 0), [alpha] ascending by [localeCompare] on
    the titles; every other key that is not the name of a member of
    [Object.prototype] falls back to the trending comparator.  This holds
    provided the comparator is consistent on the filtered items: no item
    has a sort value that is NaN (under [new], no item has an invalid
    date) and, under [alpha], the collation is consistent.  The sorted
    list is then a permutation of the filtered items in the order
    named. *)
Theorem sort_key_selects_comparator
    (localeCompare : string -> string -> float) (games : list Game.t) (st : ViewState) :
  plain_key (sort st) ->
  (sort st <> "alpha" ->
   Forall (fun g => is_nan (sort_value (sort st) g) = false) (filtered games st)) ->
  (sort st = "alpha" -> consistent_collation localeCompare) ->
  let sorted :=
    JS.sort_by (named_comparator localeCompare (sort st)) (filtered games st) in
  ranked localeCompare games st = JS.Normal sorted
  /\ Permutation sorted (filtered games st)
  /\ (sort st <> "alpha" ->
      StronglySorted
        (fun a b => PrimFloat.leb (sort_value (sort st) b) (sort_value (sort st) a) = true)
        sorted)
  /\ (sort st = "alpha" ->
      StronglySorted
        (fun a b => JS.positive (localeCompare (Game.title a) (Game.title b)) = false)
        sorted).
Proof.
  intros Hplain Hvalues Hcollation sorted. subst sorted. split; [|split; [|split]].
  - unfold ranked. now rewrite sorter_for_named.
  - apply sort_by_permutation.
  - intros Hkey. rewrite named_comparator_difference by assumption.
    apply (sort_by_key_descending (sort_value (sort st))). now apply Hvalues.
  - intros Hkey. destruct (Hcollation Hkey) as (_ & Hanti & Htrans).
    rewrite (sort_by_ext _ (fun a b => localeCompare (Game.title a) (Game.title b)))
      by (intros a b; unfold named_comparator; now rewrite Hkey).
    apply (sort_by_StronglySorted _ (fun _ => True)).
    + intros x y _ _. apply Hanti.
    + intros x y z _ _ _. apply Htrans.
    + apply List.Forall_forall. trivial.
Qed.

Lemma sort_key_selects_comparator_witness :
  ranked Sample.byte_compare Sample.catalog (Sample.view "newest" [])
  = JS.Normal (JS.sort_by (named_comparator Sample.byte_compare "newest")
                          (filtered Sample.catalog (Sample.view "newest" []))).
Proof.
  refine (proj1 (sort_key_selects_comparator Sample.byte_compare Sample.catalog
                   (Sample.view "newest" []) eq_refl _ _)).
  - intros _. repeat constructor.
  - intros H. discriminate H.
Defined.

(** ** The page number *)

Lemma parseInt_cases (s : string) (radix : Z) :
  JS.parseInt s radix = JS.NaN \/ exists z, JS.parseInt s radix = JS.Int z.
Proof.
  unfold JS.parseInt.
  destruct (match JS.trimStart s with
            | String "-" r => (-1, r)
            | String "+" r => (1, r)
            | _ => (1, JS.trimStart s)
            end) as [sign rest].
  destruct (negb (radix =? 0) && ((radix <? 2) || (36 <? radix))); [now left|].
  destruct (if (radix =? 0) || (radix =? 16) then _ else _) as [r digits].
  destruct (JS.read_digits r None digits) as [v|]; [right; eauto | now left].
Qed.

Lemma Math_max_one (n : JS.number) :
  n = JS.NaN \/ (exists z, n = JS.Int z) ->
  JS.Math_max (JS.Int 1) n = JS.NaN
  \/ exists p, JS.Math_max (JS.Int 1) n = JS.Int p /\ 1 <= p.
Proof.
  intros [-> | [z ->]]; [now left | right]. unfold JS.Math_max, JS.gt.
  destruct (1 <? z) eqn:E; [exists z | exists 1]; split; try reflexivity; lia.
Qed.

(** What [parseQuery] makes of the [page] parameter: an integer that is
    at least 1, or [NaN]; 1 when the parameter is absent or empty. *)
Lemma parseQuery_page (location_search : string) :
  (page (parseQuery location_search) = JS.NaN
   \/ exists p, page (parseQuery location_search) = JS.Int p /\ 1 <= p)
  /\ (JS.or_string (URLSearchParams.get "page" (URLSearchParams.parse location_search)) "" = ""
      -> page (parseQuery location_search) = JS.Int 1).
Proof.
  split.
  - apply Math_max_one, parseInt_cases.
  - unfold parseQuery; simpl.
    destruct (URLSearchParams.get "page" _) as [v|]; simpl; [|reflexivity].
    destruct (JS.truthy v) eqn:E; [|reflexivity].
    intros ->. discriminate E.
Qed.

(** C2, at the failing input.  The query string [?page=abc] parses to a
    view state whose page is [NaN]: [parseInt] answers [NaN], and
    [Math.max(1, NaN)] is [NaN], not 1. *)
Theorem parseQuery_malformed_page_is_NaN :
  page (parseQuery "?page=abc") = JS.NaN
  /\ JS.parseInt "abc" 10 = JS.NaN
  /\ JS.Math_max (JS.Int 1) JS.NaN = JS.NaN.
Proof. repeat split. Qed.

Lemma ceil_div_positive (total : nat) (k : Z) :
  0 < k -> JS.ceil_div total (JS.Int k) = JS.Int ((Z.of_nat total + k - 1) / k).
Proof.
  intros Hk. unfold JS.ceil_div.
  destruct (k =? 0) eqn:E; [lia|]. f_equal.
  assert (H : - ((- Z.of_nat total) / k) = (Z.of_nat total + k - 1) / k).
  { apply Z.div_unique_pos with (r := k - 1 - (- Z.of_nat total) mod k).
    - pose proof (Z.mod_pos_bound (- Z.of_nat total) k Hk). lia.
    - pose proof (Z.div_mod (- Z.of_nat total) k ltac:(lia)). lia. }
  now rewrite H.
Qed.

Lemma Array_sort_length {A : Type} (f : (A -> A -> float) + JS.builtin) (l sorted : list A) :
  JS.Array_sort f l = JS.Normal sorted -> length sorted = length l.
Proof.
  destruct f as [c|[ | | ]]; simpl.
  - intros [= <-]. apply sort_by_length.
  - now intros [= <-].
  - destruct (length l <? 2)%nat; [now intros [= <-] | discriminate].
  - discriminate.
Qed.

Lemma render_state (localeCompare : string -> string -> float) (games : list Game.t)
    (pageSize : JS.number) (pagination : bool) (st : ViewState) :
  fst (render localeCompare games pageSize pagination st)
  = match ranked localeCompare games st with
    | JS.Normal sorted =>
        set_page st
          (JS.Math_min (page st)
             (JS.Math_max (JS.Int 1) (JS.ceil_div (length sorted) pageSize)))
    | _ => st
    end.
Proof.
  unfold render. destruct (ranked localeCompare games st) as [sorted| |]; try reflexivity.
  destruct pagination; [|reflexivity].
  destruct (renderPagination _ _ _ _); reflexivity.
Qed.

(** The clamp of [render] when the state comes in with a proper page:
    for a positive page size and a page that is an integer from 1 up, the
    page it leaves lies between 1 and the number of pages of the filtered
    list. *)
Lemma render_clamps_page (localeCompare : string -> string -> float) (games : list Game.t)
    (k : Z) (pagination : bool) (st : ViewState) (p : Z) (sorted : list Game.t) :
  0 < k -> page st = JS.Int p -> 1 <= p ->
  ranked localeCompare games st = JS.Normal sorted ->
  exists p',
    page (fst (render localeCompare games (JS.Int k) pagination st)) = JS.Int p'
    /\ 1 <= p' <= page_count (length (filtered games st)) k.
Proof.
  intros Hk Hp Hp1 Hr. rewrite render_state, Hr.
  change (page (set_page st ?x)) with x.
  rewrite (Array_sort_length _ _ _ Hr), ceil_div_positive, Hp by assumption.
  unfold page_count.
  set (n := (Z.of_nat (length (filtered games st)) + k - 1) / k).
  unfold JS.Math_max, JS.Math_min, JS.gt.
  destruct (1 <? n) eqn:E1.
  - destruct (n <? p) eqn:E2; [exists n | exists p]; split; try reflexivity; lia.
  - destruct (1 <? p) eqn:E2; [exists 1 | exists p]; split; try reflexivity; lia.
Qed.

(** *** The clamp across the listeners *)

Lemma render_filtered (localeCompare : string -> string -> float) (games : list Game.t)
    (pageSize : JS.number) (pagination : bool) (st : ViewState) :
  filtered games (fst (render localeCompare games pageSize pagination st))
  = filtered games st.
Proof. rewrite render_state. destruct (ranked _ _ _); reflexivity. Qed.

Lemma render_normal (localeCompare : string -> string -> float) (games : list Game.t)
    (pageSize : JS.number) (pagination : bool) (st : ViewState) (v : View) :
  snd (render localeCompare games pageSize pagination st) = JS.Normal v ->
  exists sorted, ranked localeCompare games st = JS.Normal sorted.
Proof.
  unfold render. destruct (ranked localeCompare games st) as [sorted| |];
    [eauto | discriminate | discriminate].
Qed.

Lemma rendered_normal (r : ViewState * JS.completion View) (v : View) :
  snd (rendered r) = JS.Normal (Some v) -> snd r = JS.Normal v.
Proof.
  unfold rendered. simpl. destruct (snd r); [now intros [= ->] | discriminate | discriminate].
Qed.

(** The grid shows the slice of the ranked list that the clamped page
    selects. *)
Lemma render_grid (localeCompare : string -> string -> float) (games : list Game.t)
    (pageSize : JS.number) (pagination : bool) (st : ViewState) (v : View) :
  snd (render localeCompare games pageSize pagination st) = JS.Normal v ->
  exists sorted,
    ranked localeCompare games st = JS.Normal sorted
    /\ let current := page (fst (render localeCompare games pageSize pagination st)) in
       let start := JS.mul (JS.sub current (JS.Int 1)) pageSize in
       grid v = JS.slice sorted start (JS.add start pageSize).
Proof.
  intros Hv. destruct (render_normal _ _ _ _ _ _ Hv) as [sorted Hs].
  exists sorted. split; [assumption|]. cbv zeta.
  rewrite render_state, Hs. revert Hv. unfold render. rewrite Hs.
  destruct pagination.
  - destruct (renderPagination _ _ _ _); try discriminate. now intros [= <-].
  - now intros [= <-].
Qed.

(** A listener that renders to the end leaves a page between 1 and the
    number of pages of the list it has filtered, provided the page size
    is positive and, for a click on a pagination link, the link's [page]
    parameter reads as a number. *)
Lemma handle_clamps_page (localeCompare : string -> string -> float) (games : list Game.t)
    (k : Z) (pagination : bool) (event : Event) (st : ViewState) (v : View) :
  0 < k ->
  snd (handle localeCompare games (JS.Int k) pagination event st) = JS.Normal (Some v) ->
  (forall href, event = PaginationClick href ->
     JS.parseInt
       (JS.or_string (URLSearchParams.get "page" (URLSearchParams.parse href)) "1") 10
     <> JS.NaN) ->
  exists p,
    page (fst (handle localeCompare games (JS.Int k) pagination event st)) = JS.Int p
    /\ 1 <= p
       <= page_count
            (length (filtered games
                       (fst (handle localeCompare games (JS.Int k) pagination event st))))
            k.
Proof.
  intros Hk Hv Hlink.
  assert (Hrender : forall st' p,
             page st' = JS.Int p -> 1 <= p ->
             snd (rendered (render localeCompare games (JS.Int k) pagination st'))
             = JS.Normal (Some v) ->
             exists p',
               page (fst (rendered (render localeCompare games (JS.Int k) pagination st')))
               = JS.Int p'
               /\ 1 <= p'
                  <= page_count
                       (length (filtered games
                                  (fst (rendered
                                          (render localeCompare games (JS.Int k)
                                             pagination st')))))
                       k).
  { intros st' p Hp Hp1 Hn. apply rendered_normal in Hn.
    destruct (render_normal _ _ _ _ _ _ Hn) as [sorted Hs].
    unfold rendered. cbn [fst]. rewrite render_filtered.
    eapply render_clamps_page; eauto. }
  destruct event as [value|value|facet value checked|href]; unfold handle in *.
  - eapply Hrender; [reflexivity | lia | exact Hv].
  - eapply Hrender; [reflexivity | lia | exact Hv].
  - destruct (toggle_facet (filters st) facet value checked) as [[f|]| |];
      try discriminate.
    eapply Hrender; [reflexivity | lia | exact Hv].
  - cbv zeta in *.
    destruct (Math_max_one _ (parseInt_cases
                (JS.or_string (URLSearchParams.get "page" (URLSearchParams.parse href)) "1")
                10)) as [Hnan | (p & Hp & Hp1)].
    + exfalso. apply (Hlink href eq_refl). revert Hnan.
      destruct (JS.parseInt _ 10); [reflexivity | | | ];
        unfold JS.Math_max; destruct (JS.gt _ _); discriminate.
    + eapply Hrender; [exact Hp | exact Hp1 | exact Hv].
Qed.

(** C3, at the failing input.  Whatever the catalogue and the page size,
    after the initial render of the address [?page=abc] the page of the
    view state is [NaN], which is neither at least 1 nor at most any
    number of pages: [parseQuery] lets the [NaN] of [parseInt] through
    (the defect of C2) and [Math.min(NaN, totalPages)] keeps it. *)
Theorem initial_render_keeps_NaN_page
    (localeCompare : string -> string -> float) (games : list Game.t)
    (pageSize : JS.number) (pagination : bool) :
  let st := fst (initialiseGames localeCompare games pageSize pagination "?page=abc") in
  page st = JS.NaN
  /\ JS.le (JS.Int 1) (page st) = false
  /\ (forall totalPages, JS.le (page st) totalPages = false).
Proof.
  intros st.
  assert (H : page st = JS.NaN).
  { subst st. unfold initialiseGames. rewrite render_state.
    destruct (ranked _ _ _); reflexivity. }
  rewrite H. repeat split.
Qed.

(** ** The address bar *)

(** C7.  Serialising the view state with search [puzzle], sort [newest],
    the one category [logic] and page 2 gives
    [?search=puzzle&sort=newest&category=logic&page=2], and parsing that
    query string gives the same view state back. *)
Theorem url_round_trip_example :
  let st :=
    {| search := "puzzle"; sort := "newest"; page := JS.Int 2;
       filters :=
         {| Filters.categories := ["logic"]; Filters.mechanisms := [];
            Filters.difficulty := []; Filters.language := [] |} |} in
  updateQuery st = "?search=puzzle&sort=newest&category=logic&page=2"
  /\ parseQuery (updateQuery st) = st.
Proof. split; reflexivity. Qed.

(** ** Stored posts and reviews *)

Lemma too_short_false (v : string) (n : nat) :
  (0 < n)%nat -> (n <= String.length v)%nat -> Community.too_short (Some v) n = false.
Proof.
  intros Hn Hv. unfold Community.too_short.
  apply orb_false_iff. split.
  - apply negb_false_iff, truthy_iff. intros ->. simpl in Hv. lia.
  - apply Nat.ltb_ge. assumption.
Qed.

Lemma too_short_true (v : string) (n : nat) :
  (String.length v < n)%nat -> Community.too_short (Some v) n = true.
Proof.
  intros Hv. unfold Community.too_short.
  apply orb_true_iff. right. now apply Nat.ltb_lt.
Qed.

Lemma or_string_truthy (v d : string) : v <> "" -> JS.or_string (Some v) d = v.
Proof. intros H. unfold JS.or_string. now rewrite (proj2 (truthy_iff v) H). Qed.

Lemma loadPosts_store_user (u : Storage.User) (s : Storage.t) :
  Community.loadPosts (Storage.store_user u s) = Community.loadPosts s.
Proof. unfold Storage.store_user. now destruct (Storage.local_user s). Qed.

Lemma loadReviews_store_user (pathname : string) (u : Storage.User) (s : Storage.t) :
  Reviews.loadReviews pathname (Storage.store_user u s) = Reviews.loadReviews pathname s.
Proof. unfold Storage.store_user. now destruct (Storage.local_user s). Qed.

Lemma loadPosts_savePost (post : Storage.Post) (s : Storage.t) :
  Community.loadPosts (Community.savePost post s) = post :: Community.loadPosts s.
Proof. reflexivity. Qed.

Lemma loadReviews_saveReview (pathname : string) (review : Storage.Review) (s : Storage.t) :
  Reviews.loadReviews pathname (Reviews.saveReview pathname review s)
  = review :: Reviews.loadReviews pathname s.
Proof.
  unfold Reviews.loadReviews at 1, Reviews.saveReview. simpl.
  now rewrite lookup_insert_eq.
Qed.

(** C8, as the specification states it, fails: with one post and one
    review already stored, the new post and the new review are stored in
    front of them, and the last record of each list is still the old
    one. *)
Example new_record_is_stored_first :
  (map Storage.post_id
     (Community.loadPosts
        (fst (Community.handleNewPost (Some "A title of some length") (Some "general")
                (Some Sample.long_text) None 1700000000000 1700000000001 Sample.store)))
   = ["post_1700000000000"; "post_1"])
  /\ (map Storage.review_id
        (Reviews.loadReviews "/games/chess/"
           (fst (Reviews.handleReviewSubmit Sample.decimal_ToNumber "/games/chess/"
                   (Some "5") (Some "A review of twenty characters or more")
                   1700000000000 1700000000001 Sample.store)))
      = ["review_1700000000000"; "review_1"]).
Proof. split; vm_compute; reflexivity. Qed.

(** C8, amended.  When a forum post or a review passes validation and a
    user is logged in, the synthesised record, with its identifier and
    its timestamp read from the clock, is put at the front of the stored
    list for that page and the list is written back: the new record is
    the first of the stored list and the records stored before follow it
    unchanged. *)
Theorem saved_record_is_first :
  (forall (title category content : string) (tagsInput : option string)
          (now_id now_created : Z) (s : Storage.t) (user : Storage.User),
      (10 <= String.length title)%nat -> category <> "" ->
      (50 <= String.length content)%nat ->
      Storage.userData s = Some user ->
      exists post,
        Community.loadPosts
          (fst (Community.handleNewPost (Some title) (Some category) (Some content)
                  tagsInput now_id now_created s))
        = post :: Community.loadPosts s
        /\ Storage.post_id post = "post_" ++ JS.String_of (JS.Int now_id)
        /\ Storage.post_createdAt post = now_created
        /\ Storage.post_title post = title /\ Storage.content post = content)
  /\ (forall (ToNumber : string -> float) (pathname rating reviewText : string)
             (now_id now_created : Z) (s : Storage.t) (user : Storage.User),
        rating <> "" ->
        PrimFloat.ltb (ToNumber rating) 1 = false ->
        PrimFloat.ltb 5 (ToNumber rating) = false ->
        (20 <= String.length reviewText)%nat ->
        Storage.userData s = Some user ->
        exists review,
          Reviews.loadReviews pathname
            (fst (Reviews.handleReviewSubmit ToNumber pathname (Some rating)
                    (Some reviewText) now_id now_created s))
          = review :: Reviews.loadReviews pathname s
          /\ Storage.review_id review = "review_" ++ JS.String_of (JS.Int now_id)
          /\ Storage.review_createdAt review = now_created
          /\ Storage.text review = reviewText).
Proof.
  split.
  - intros title category content tagsInput now_id now_created s user Ht Hc Hb Hu.
    unfold Community.handleNewPost.
    rewrite (too_short_false title 10), (too_short_false content 50) by (assumption || lia).
    rewrite (or_string_truthy category) by assumption.
    rewrite (proj2 (truthy_iff category) Hc), Hu. cbn [negb fst].
    eexists. rewrite loadPosts_store_user, loadPosts_savePost.
    split; [reflexivity|]. cbn [Storage.post_id Storage.post_createdAt
                                 Storage.post_title Storage.content].
    assert (Hne : forall v n, (n <= String.length v)%nat -> (0 < n)%nat -> v <> "")
      by (intros v n Hv Hn ->; simpl in Hv; lia).
    rewrite !or_string_truthy by (eapply Hne; eauto; lia).
    repeat split.
  - intros ToNumber pathname rating reviewText now_id now_created s user Hr H1 H5 Ht Hu.
    unfold Reviews.handleReviewSubmit, Reviews.bad_rating.
    rewrite (proj2 (truthy_iff rating) Hr), H1, H5.
    rewrite (too_short_false reviewText 20), Hu by (assumption || lia).
    cbn [negb orb fst].
    eexists. rewrite loadReviews_store_user, loadReviews_saveReview.
    split; [reflexivity|]. cbn [Storage.review_id Storage.review_createdAt Storage.text].
    rewrite or_string_truthy; [repeat split|].
    intros ->. simpl in Ht. lia.
Qed.

Lemma saved_record_is_first_witness :
  exists post,
    Community.loadPosts
      (fst (Community.handleNewPost (Some "A title of some length") (Some "general")
              (Some Sample.long_text) None 1700000000000 1700000000001 Sample.store))
    = post :: Community.loadPosts Sample.store
    /\ Storage.post_id post = "post_" ++ JS.String_of (JS.Int 1700000000000)
    /\ Storage.post_createdAt post = 1700000000001
    /\ Storage.post_title post = "A title of some length"
    /\ Storage.content post = Sample.long_text.
Proof.
  apply (proj1 saved_record_is_first) with (user := Sample.ann).
  - vm_compute. lia.
  - discriminate.
  - vm_compute. lia.
  - reflexivity.
Defined.

(** ** Review validation *)

(** What the validation does reject.  A review whose rating is missing or
    reads as a number below 1 or above 5, or whose text is missing or
    shorter than 20 characters, is rejected before any write: the handler
    shows an error message and returns the storage it was given, so the
    stored review list and the stored user record with its points and
    comments counters are unchanged and no record is created. *)
Lemma invalid_review_is_rejected
    (ToNumber : string -> float) (pathname : string) (rating reviewText : option string)
    (now_id now_created : Z) (s : Storage.t) :
  (rating = None
   \/ (exists r, rating = Some r
                 /\ (PrimFloat.ltb (ToNumber r) 1 = true \/ PrimFloat.ltb 5 (ToNumber r) = true))
   \/ reviewText = None
   \/ (exists t, reviewText = Some t /\ (String.length t < 20)%nat)) ->
  fst (Reviews.handleReviewSubmit ToNumber pathname rating reviewText now_id now_created s) = s
  /\ Storage.type
       (snd (Reviews.handleReviewSubmit ToNumber pathname rating reviewText
               now_id now_created s)) = "error"
  /\ Reviews.loadReviews pathname
       (fst (Reviews.handleReviewSubmit ToNumber pathname rating reviewText
               now_id now_created s)) = Reviews.loadReviews pathname s
  /\ Storage.userData
       (fst (Reviews.handleReviewSubmit ToNumber pathname rating reviewText
               now_id now_created s)) = Storage.userData s.
Proof.
  intros H.
  assert (Hrej : Reviews.bad_rating ToNumber rating = true
                 \/ Community.too_short reviewText 20 = true).
  { destruct H as [-> | [(r & -> & Hr) | [-> | (t & -> & Ht)]]].
    - now left.
    - left. unfold Reviews.bad_rating.
      destruct Hr as [-> | ->]; rewrite ?orb_true_r; reflexivity.
    - now right.
    - right. now apply too_short_true. }
  assert (Hs : fst (Reviews.handleReviewSubmit ToNumber pathname rating reviewText
                      now_id now_created s) = s
               /\ Storage.type (snd (Reviews.handleReviewSubmit ToNumber pathname rating
                                       reviewText now_id now_created s)) = "error").
  { unfold Reviews.handleReviewSubmit.
    destruct (Reviews.bad_rating ToNumber rating); [now split|].
    destruct Hrej as [Hrej | ->]; [discriminate | now split]. }
  destruct Hs as [Hs Ht]. rewrite Hs. auto.
Qed.

Lemma invalid_review_is_rejected_witness :
  fst (Reviews.handleReviewSubmit Sample.decimal_ToNumber "/games/chess/"
         (Some "7") (Some "A review of twenty characters or more")
         1700000000000 1700000000001 Sample.store) = Sample.store.
Proof.
  apply (invalid_review_is_rejected Sample.decimal_ToNumber "/games/chess/"
           (Some "7") (Some "A review of twenty characters or more")
           1700000000000 1700000000001 Sample.store).
  right. left. exists "7". split; [reflexivity | right; vm_compute; reflexivity].
Defined.

(** C10, at the failing input.  The rating [7abc] is not a number, so
    both comparisons of the check [rating < 1 || rating > 5] are false
    and the check lets it through; [parseInt] then reads 7 from it.  The
    review is accepted: it is stored with the rating 7, which is outside
    1 to 5, in front of the review stored before, and the user is
    credited with 10 points and one comment. *)
Theorem non_numeric_rating_is_stored :
  let submitted :=
    Reviews.handleReviewSubmit JS.StringToNumber "/games/chess/"
      (Some "7abc") (Some "A review of twenty characters or more")
      1700000000000 1700000000001 Sample.store in
  (PrimFloat.is_nan (JS.StringToNumber "7abc") = true
   /\ PrimFloat.ltb (JS.StringToNumber "7abc") 1 = false
   /\ PrimFloat.ltb 5 (JS.StringToNumber "7abc") = false
   /\ JS.parseInt "7abc" 0 = JS.Int 7)
  /\ Storage.type (snd submitted) = "success"
  /\ map Storage.rating (Reviews.loadReviews "/games/chess/" (fst submitted))
     = [JS.Int 7; JS.Int 4]
  /\ option_map Storage.points (Storage.userData (fst submitted)) = Some (Some 10)
  /\ option_map Storage.comments (Storage.userData (fst submitted)) = Some (Some 1).
Proof. repeat split; vm_compute; reflexivity. Qed.

(** ** The search panel *)

Lemma firstn_min {A : Type} (n : nat) (l : list A) :
  firstn (Nat.min n (length l)) l = firstn n l.
Proof.
  destruct (Nat.le_ge_cases n (length l)) as [H|H].
  - now rewrite Nat.min_l.
  - rewrite Nat.min_r by assumption. now rewrite !firstn_all2 by lia.
Qed.

Lemma slice_first_six {A : Type} (l : list A) :
  JS.slice l (JS.Int 0) (JS.Int 6) = firstn 6 l.
Proof.
  unfold JS.slice, JS.slice_index.
  change (0 <? 0) with false. change (6 <? 0) with false. cbv iota.
  replace (Z.to_nat (Z.min 0 (Z.of_nat (length l)))) with 0%nat by lia.
  replace (Z.to_nat (Z.min 6 (Z.of_nat (length l)))) with (Nat.min 6 (length l)) by lia.
  rewrite Nat.sub_0_r. cbn [skipn]. apply firstn_min.
Qed.

Lemma selection_filter {A : Type} (P : A -> Prop) (f : A -> bool) (l : list A) :
  (forall x, f x = true <-> P x) -> selection P l (List.filter f l).
Proof.
  intros H. induction l as [|x l IH]; cbn [List.filter]; [constructor|].
  destruct (f x) eqn:E.
  - apply selection_take; [now apply H | exact IH].
  - apply selection_skip; [|exact IH]. intros Hx. apply H in Hx. congruence.
Qed.

Lemma Forall2_map_right {A B : Type} (R : A -> B -> Prop) (f : A -> B) (l : list A) :
  (forall x, R x (f x)) -> Forall2 R l (map f l).
Proof. intros H. induction l as [|x l IH]; cbn [map]; constructor; auto. Qed.

Lemma normaliseString_printed (value : option string) :
  SiteSearch.normaliseString value = normalised (printed value).
Proof.
  unfold SiteSearch.normaliseString, normalised, JS.or_string, printed.
  destruct value as [v|]; [|reflexivity].
  destruct (JS.truthy v) eqn:E; [reflexivity|].
  apply negb_false_iff, String.eqb_eq in E. now subst v.
Qed.

(** The predicate of the submit listener looks the query up in the text
    of the entry. *)
Lemma item_matches_entry_text (query : string) (e : SiteSearch.Item) :
  SiteSearch.item_matches query e = true <-> occurs query (entry_text e).
Proof.
  unfold SiteSearch.item_matches, occurs, entry_text, entry_fields.
  rewrite includes_iff, !map_app, !map_map. cbn [map].
  rewrite !normaliseString_printed.
  rewrite !(map_ext (fun x => SiteSearch.normaliseString (Some x)) normalised)
    by (intros x; apply normaliseString_printed).
  reflexivity.
Qed.

(** C9.  For every submitted text the panel displays at most six results.
    The index is the combined one: the entries of the games in the order
    of the catalogue, followed by the entries of the guides, each with
    the title and the author of its source, a game's entry also with its
    mechanisms and categories.  The query is the submitted text
    normalised, that is trimmed and lower-cased.  An entry matches when
    the query occurs as a substring of the text made of the entry's
    title, author, mechanisms and categories, each normalised, joined by
    single spaces, so that the match ignores case.  The panel displays
    the first six of the matching entries, in the order of the index; it
    displays none when the query is empty. *)
Theorem search_panel_shows_first_six
    (games : list Game.t) (guides : list SiteSearch.Guide) (input_value : string) :
  let index := SiteSearch.searchIndex games guides in
  let query := normalised input_value in
  let shown := SiteSearch.displayed (SiteSearch.submit index input_value) in
  (length shown <= 6)%nat
  /\ (exists game_entries guide_entries,
        index = (game_entries ++ guide_entries)%list
        /\ Forall2 entry_of_game games game_entries
        /\ Forall2 entry_of_guide guides guide_entries)
  /\ (query = "" -> shown = [])
  /\ (query <> "" ->
      exists matches,
        selection (fun e => occurs query (entry_text e)) index matches
        /\ shown = firstn 6 matches).
Proof.
  intros index query shown.
  assert (Hd : shown
               = if String.eqb query "" then []
                 else firstn 6 (List.filter (SiteSearch.item_matches query) index)).
  { subst shown. unfold SiteSearch.submit. rewrite normaliseString_printed.
    cbn [printed]. fold query. unfold JS.truthy.
    destruct (String.eqb query ""); [reflexivity|].
    cbn [negb]. rewrite slice_first_six. unfold SiteSearch.displayed.
    cbn [SiteSearch.content].
    destruct (firstn 6 _); reflexivity. }
  split; [|split; [|split]].
  - rewrite Hd. destruct (String.eqb query ""); [simpl; lia | apply firstn_le_length].
  - eexists _, _. split; [reflexivity|]. split.
    + apply Forall2_map_right. intros g. repeat split.
    + apply Forall2_map_right. intros g. repeat split.
  - intros Hq. now rewrite Hd, Hq.
  - intros Hq. rewrite Hd, (proj2 (String.eqb_neq query "") Hq).
    eexists. split; [|reflexivity].
    apply selection_filter. intros e. apply item_matches_entry_text.
Qed.

(** ** The query string, written and read back *)

(** *** Strings *)

Lemma append_nil_r (s : string) : s ++ "" = s.
Proof. induction s as [|c s IH]; [reflexivity|]. now rewrite append_cons, IH. Qed.

Lemma append_assoc (s t u : string) : (s ++ t) ++ u = s ++ (t ++ u).
Proof. induction s as [|c s IH]; [reflexivity|]. now rewrite !append_cons, IH. Qed.

(** *** Encoding and decoding *)

Lemma decode_encode_char (c : ascii) (s : string) :
  URLSearchParams.decode (URLSearchParams.encode (String c s))
  = String c (URLSearchParams.decode (URLSearchParams.encode s)).
Proof. destruct c as [[] [] [] [] [] [] [] []]; reflexivity. Qed.

Lemma decode_encode (s : string) :
  URLSearchParams.decode (URLSearchParams.encode s) = s.
Proof.
  induction s as [|c s IH]; [reflexivity|].
  rewrite decode_encode_char. now rewrite IH.
Qed.

Lemma all_chars_app (p : ascii -> bool) (s t : string) :
  all_chars p (s ++ t) = all_chars p s && all_chars p t.
Proof.
  induction s as [|c s IH]; [reflexivity|].
  rewrite append_cons. cbn [all_chars]. rewrite IH. now rewrite andb_assoc.
Qed.

Lemma all_chars_impl (p q : ascii -> bool) (s : string) :
  (forall c, p c = true -> q c = true) -> all_chars p s = true -> all_chars q s = true.
Proof.
  intros H. induction s as [|c s IH]; [reflexivity|]. cbn [all_chars].
  rewrite !andb_true_iff. intros [Hc Hs]. auto.
Qed.

Lemma encode_chars (s : string) : all_chars encoded_char (URLSearchParams.encode s) = true.
Proof.
  induction s as [|c s IH]; [reflexivity|].
  assert (H : forall t, all_chars encoded_char t = true ->
                        all_chars encoded_char
                          (URLSearchParams.encode (String c "") ++ t) = true).
  { intros t Ht. rewrite all_chars_app, Ht, andb_true_r.
    destruct c as [[] [] [] [] [] [] [] []]; reflexivity. }
  specialize (H _ IH). revert H.
  assert (E : URLSearchParams.encode (String c s)
              = URLSearchParams.encode (String c "") ++ URLSearchParams.encode s).
  { cbn [URLSearchParams.encode].
    destruct (Ascii.eqb c " "); [reflexivity|].
    destruct (URLSearchParams.unreserved c); reflexivity. }
  now rewrite E.
Qed.

Lemma encoded_char_plain (c : ascii) :
  encoded_char c = true ->
  Ascii.eqb c "&" = false /\ Ascii.eqb c "=" = false /\ Ascii.eqb c "?" = false.
Proof. destruct c as [[] [] [] [] [] [] [] []]; cbv; try discriminate; auto. Qed.

Lemma split_on_free (sep : ascii) (cur a : string) :
  all_chars (fun c => negb (Ascii.eqb c sep)) a = true ->
  URLSearchParams.split_on sep cur a = [cur ++ a].
Proof.
  revert cur. induction a as [|c a IH]; intros cur.
  - intros _. cbn. now rewrite append_nil_r.
  - cbn [all_chars URLSearchParams.split_on]. rewrite andb_true_iff. intros [Hc Ha].
    apply negb_true_iff in Hc. rewrite Hc, IH by assumption.
    now rewrite append_assoc.
Qed.

Lemma split_on_app (sep : ascii) (cur a b : string) :
  URLSearchParams.split_on sep cur (a ++ String sep b)
  = (URLSearchParams.split_on sep cur a ++ URLSearchParams.split_on sep "" b)%list.
Proof.
  revert cur. induction a as [|c a IH]; intros cur.
  - rewrite append_nil_l. cbn [URLSearchParams.split_on]. now rewrite Ascii.eqb_refl.
  - rewrite append_cons. cbn [URLSearchParams.split_on].
    destruct (Ascii.eqb c sep); rewrite IH; reflexivity.
Qed.

Lemma cut_at_equals_free (name a b : string) :
  all_chars (fun c => negb (Ascii.eqb c "=")) a = true ->
  URLSearchParams.cut_at_equals name (a ++ String "=" b) = (name ++ a, b).
Proof.
  revert name. induction a as [|c a IH]; intros name.
  - intros _. rewrite append_nil_l, append_nil_r. reflexivity.
  - cbn [all_chars]. rewrite andb_true_iff. intros [Hc Ha]. apply negb_true_iff in Hc.
    rewrite append_cons. cbn [URLSearchParams.cut_at_equals]. rewrite Hc, IH by assumption.
    now rewrite append_assoc.
Qed.

Lemma encode_free (sep : ascii) (s : string) :
  encoded_char sep = false ->
  all_chars (fun c => negb (Ascii.eqb c sep)) (URLSearchParams.encode s) = true.
Proof.
  intros Hsep. apply (all_chars_impl encoded_char); [|apply encode_chars].
  intros c Hc. apply negb_true_iff. destruct (Ascii.eqb_spec c sep); [|reflexivity].
  subst c. congruence.
Qed.

Lemma piece_of_free (p : string * string) :
  all_chars (fun c => negb (Ascii.eqb c "&")) (piece_of p) = true.
Proof.
  unfold piece_of. rewrite !all_chars_app, !encode_free by reflexivity. reflexivity.
Qed.

Lemma piece_of_pairs (p : string * string) : pairs_of [piece_of p] = [p].
Proof.
  unfold pairs_of, piece_of. cbn [flat_map]. rewrite app_nil_r.
  destruct (String.eqb_spec (URLSearchParams.encode p.1 ++ "=" ++ URLSearchParams.encode p.2) "")
    as [E|_].
  - exfalso. destruct (URLSearchParams.encode p.1); discriminate E.
  - change ("=" ++ URLSearchParams.encode p.2) with (String "=" (URLSearchParams.encode p.2)).
    rewrite cut_at_equals_free by (apply encode_free; reflexivity).
    rewrite append_nil_l, !decode_encode. now destruct p.
Qed.

Lemma pairs_of_app (l l' : list string) : pairs_of (l ++ l') = (pairs_of l ++ pairs_of l')%list.
Proof. apply flat_map_app. Qed.

Lemma split_join (pieces : list string) :
  Forall (fun piece => all_chars (fun c => negb (Ascii.eqb c "&")) piece = true) pieces ->
  URLSearchParams.split_on "&" "" (JS.join "&" pieces)
  = match pieces with [] => [""] | _ => pieces end.
Proof.
  induction 1 as [|piece rest Hp Hrest IH]; [reflexivity|].
  destruct rest as [|piece' rest].
  - cbn [JS.join]. now rewrite split_on_free.
  - change (JS.join "&" (piece :: piece' :: rest))
      with (piece ++ String "&" (JS.join "&" (piece' :: rest))).
    rewrite split_on_app, split_on_free, IH by assumption. reflexivity.
Qed.

Lemma pairs_of_pieces (params : URLSearchParams.t) : pairs_of (map piece_of params) = params.
Proof.
  induction params as [|p params IH]; [reflexivity|].
  change (map piece_of (p :: params)) with ([piece_of p] ++ map piece_of params)%list.
  now rewrite pairs_of_app, piece_of_pairs, IH.
Qed.

Lemma toString_pieces (params : URLSearchParams.t) :
  URLSearchParams.toString params = JS.join "&" (map piece_of params).
Proof.
  unfold URLSearchParams.toString. f_equal. apply map_ext. now intros [n v].
Qed.

Lemma parse_body (body : string) :
  URLSearchParams.parse (String "?" body) = pairs_of (URLSearchParams.split_on "&" "" body).
Proof. reflexivity. Qed.

Lemma pairs_of_toString (params : URLSearchParams.t) :
  pairs_of (URLSearchParams.split_on "&" "" (URLSearchParams.toString params)) = params.
Proof.
  rewrite toString_pieces, split_join.
  - destruct params as [|p params]; [reflexivity|]. apply pairs_of_pieces.
  - apply Forall_map. apply List.Forall_forall. intros p _. apply piece_of_free.
Qed.

(** Serialising and parsing again gives the parameters back. *)
Lemma parse_toString (params : URLSearchParams.t) :
  URLSearchParams.parse (URLSearchParams.toString params) = params.
Proof.
  transitivity (pairs_of (URLSearchParams.split_on "&" "" (URLSearchParams.toString params)));
    [|apply pairs_of_toString].
  unfold URLSearchParams.parse. fold pairs_of.
  destruct params as [|[n v] params]; [reflexivity|].
  rewrite toString_pieces.
  assert (H : exists c t, JS.join "&" (map piece_of ((n, v) :: params)) = String c t
                          /\ Ascii.eqb c "?" = false).
  { assert (Hp : exists c t, piece_of (n, v) = String c t /\ Ascii.eqb c "?" = false).
    { unfold piece_of. cbn [fst snd].
      pose proof (encode_chars n) as Hn.
      destruct (URLSearchParams.encode n) as [|c t].
      - eexists _, _. split; reflexivity.
      - exists c, (t ++ "=" ++ URLSearchParams.encode v). split; [now rewrite append_cons|].
        cbn [all_chars] in Hn. apply andb_true_iff in Hn. now apply encoded_char_plain. }
    destruct Hp as (c & t & Hp & Hc). cbn [map].
    destruct (map piece_of params) as [|q qs].
    - exists c, t. now split.
    - exists c, (t ++ "&" ++ JS.join "&" (q :: qs)). split; [|assumption].
      change (JS.join "&" (piece_of (n, v) :: q :: qs))
        with (piece_of (n, v) ++ "&" ++ JS.join "&" (q :: qs)).
      now rewrite Hp, append_cons. }
  destruct H as (c & t & -> & Hc).
  destruct c as [[] [] [] [] [] [] [] []]; try reflexivity; discriminate Hc.
Qed.

Lemma parse_href_query (params : URLSearchParams.t) :
  URLSearchParams.parse (URLSearchParams.href_query params) = params.
Proof.
  unfold URLSearchParams.href_query.
  destruct (JS.truthy (URLSearchParams.toString params)) eqn:E.
  - change ("?" ++ URLSearchParams.toString params)
      with (String "?" (URLSearchParams.toString params)).
    rewrite parse_body. apply pairs_of_toString.
  - apply negb_false_iff, String.eqb_eq in E.
    rewrite <- (parse_toString params) at 1. now rewrite E.
Qed.

(** *** Printing a number and reading it back *)

Lemma digits_value_pos (d : Decimal.uint) (acc : positive) :
  digits_value (Zpos acc) d = Zpos (Pos.of_uint_acc d acc).
Proof.
  revert acc. induction d; intros acc; cbn [digits_value Pos.of_uint_acc];
    try reflexivity;
    match goal with
    | |- digits_value ?z _ = Zpos (Pos.of_uint_acc _ ?p) =>
        replace z with (Zpos p) by lia; apply IHd
    end.
Qed.

Lemma digits_value_of_uint (d : Decimal.uint) :
  digits_value 0 d = Z.of_N (Pos.of_uint d).
Proof.
  induction d; cbn [digits_value Pos.of_uint]; try reflexivity;
    try assumption;
    match goal with
    | |- digits_value ?z _ = Z.of_N (N.pos (Pos.of_uint_acc _ ?p)) =>
        change z with (Zpos p); apply digits_value_pos
    end.
Qed.

Lemma read_digits_printed (acc : option Z) (d : Decimal.uint) :
  JS.read_digits 10 acc (NilEmpty.string_of_uint d)
  = match d with
    | Decimal.Nil => acc
    | _ => Some (digits_value (match acc with Some a => a | None => 0 end) d)
    end.
Proof.
  revert acc. induction d; intros acc; [reflexivity|..];
    cbn [NilEmpty.string_of_uint JS.read_digits];
    (match goal with
     | |- context [JS.digit_of ?c] =>
         let v := eval cbv in (JS.digit_of c) in change (JS.digit_of c) with v
     end);
    cbv iota;
    (match goal with
     | |- context [?k <? 10] =>
         let v := eval cbv in (k <? 10) in change (k <? 10) with v
     end);
    cbv iota; rewrite IHd; destruct d; reflexivity.
Qed.

Lemma printed_digits (d : Decimal.uint) :
  all_chars digit_char (NilEmpty.string_of_uint d) = true.
Proof. induction d; cbn [NilEmpty.string_of_uint all_chars]; try reflexivity; exact IHd. Qed.

Lemma parseInt_digits (radix : Z) (c : ascii) (s : string) :
  digit_char c = true ->
  (radix = 10 \/ (radix = 0 /\ match s with String x _ => digit_char x = true | _ => True end)) ->
  JS.parseInt (String c s) radix
  = match JS.read_digits 10 None (String c s) with
    | Some v => JS.Int (1 * v)
    | None => JS.NaN
    end.
Proof.
  intros Hc Hr. unfold JS.parseInt.
  assert (Ht : JS.trimStart (String c s) = String c s).
  { cbn [JS.trimStart]. destruct c as [[] [] [] [] [] [] [] []]; try discriminate Hc; reflexivity. }
  rewrite Ht.
  destruct Hr as [-> | [-> Hs]].
  - destruct c as [[] [] [] [] [] [] [] []]; try discriminate Hc; reflexivity.
  - destruct s as [|x s].
    + destruct c as [[] [] [] [] [] [] [] []]; try discriminate Hc; reflexivity.
    + destruct c as [[] [] [] [] [] [] [] []]; try discriminate Hc; try reflexivity;
      destruct x as [[] [] [] [] [] [] [] []]; try discriminate Hs; reflexivity.
Qed.

Lemma to_uint_value (p : positive) : digits_value 0 (Pos.to_uint p) = Zpos p.
Proof. now rewrite digits_value_of_uint, DecimalPos.Unsigned.of_to. Qed.

Lemma parseInt_printed_pos (radix : Z) (p : positive) :
  radix = 10 \/ radix = 0 ->
  JS.parseInt (JS.String_of (JS.Int (Zpos p))) radix = JS.Int (Zpos p).
Proof.
  intros Hr. unfold JS.String_of. cbn [Z.to_int NilZero.string_of_int].
  pose proof (DecimalPos.Unsigned.to_uint_nonnil p) as Hnil.
  pose proof (to_uint_value p) as Hv.
  pose proof (printed_digits (Pos.to_uint p)) as Hd.
  pose proof (read_digits_printed None (Pos.to_uint p)) as Hread.
  destruct (Pos.to_uint p) as [|d|d|d|d|d|d|d|d|d|d]; try (now contradiction Hnil);
    cbn [NilZero.string_of_uint NilEmpty.string_of_uint] in *;
    (rewrite parseInt_digits;
     [ rewrite Hread, Hv; reflexivity
     | reflexivity
     | destruct Hr as [-> | ->]; [now left | right; split; [reflexivity|]];
       destruct d; cbn [NilEmpty.string_of_uint]; try exact I; reflexivity ]).
Qed.

Lemma parseInt_printed (z : Z) : JS.parseInt (JS.String_of (JS.Int z)) 10 = JS.Int z.
Proof.
  destruct z as [|p|p]; [reflexivity | apply parseInt_printed_pos; now left |].
  unfold JS.String_of. cbn [Z.to_int NilZero.string_of_int].
  pose proof (DecimalPos.Unsigned.to_uint_nonnil p) as Hnil.
  pose proof (to_uint_value p) as Hv.
  pose proof (read_digits_printed None (Pos.to_uint p)) as Hread.
  unfold JS.parseInt. cbn [JS.trimStart].
  change (JS.is_white_space "-") with false. cbv iota.
  change ((negb (10 =? 0) && ((10 <? 2) || (36 <? 10)))) with false.
  change ((10 =? 0) || (10 =? 16)) with false. cbv iota.
  destruct (Pos.to_uint p) as [|d|d|d|d|d|d|d|d|d|d]; try (now contradiction Hnil);
    cbn [NilZero.string_of_uint] in *; rewrite Hread, Hv; reflexivity.
Qed.

Lemma String_of_truthy (z : Z) : JS.truthy (JS.String_of (JS.Int z)) = true.
Proof.
  unfold JS.String_of. destruct z as [|q|q]; [reflexivity| |reflexivity].
  cbn [Z.to_int NilZero.string_of_int].
  pose proof (DecimalPos.Unsigned.to_uint_nonnil q).
  destruct (Pos.to_uint q); try contradiction; reflexivity.
Qed.

(** *** What [updateQuery] writes *)

Lemma getAll_app (name : string) (l l' : URLSearchParams.t) :
  URLSearchParams.getAll name (l ++ l')%list
  = (URLSearchParams.getAll name l ++ URLSearchParams.getAll name l')%list.
Proof. unfold URLSearchParams.getAll. now rewrite List.filter_app, map_app. Qed.

Lemma getAll_named (name name' : string) (values : list string) :
  URLSearchParams.getAll name (map (pair name') values)
  = if String.eqb name' name then values else [].
Proof.
  unfold URLSearchParams.getAll.
  induction values as [|v values IH]; cbn [map List.filter].
  - now destruct (String.eqb name' name).
  - destruct (String.eqb name' name) eqn:E; cbn [map]; now rewrite IH.
Qed.

Lemma get_app (name : string) (l l' : URLSearchParams.t) :
  URLSearchParams.get name (l ++ l')%list
  = match URLSearchParams.get name l with
    | Some v => Some v
    | None => URLSearchParams.get name l'
    end.
Proof.
  induction l as [|[n v] l IH]; [reflexivity|].
  cbn [app URLSearchParams.get]. now destruct (String.eqb n name).
Qed.

Lemma get_named (name name' : string) (values : list string) :
  URLSearchParams.get name (map (pair name') values)
  = if String.eqb name' name then hd_error values else None.
Proof.
  induction values as [|v values IH]; cbn [map URLSearchParams.get hd_error].
  - now destruct (String.eqb name' name).
  - destruct (String.eqb name' name); [reflexivity | exact IH].
Qed.

(** [set] on parameters that do not have the name yet appends. *)
Lemma set_fresh (name value : string) (params : URLSearchParams.t) :
  URLSearchParams.get name params = None ->
  URLSearchParams.set name value params = (params ++ [(name, value)])%list.
Proof.
  induction params as [|[n v] params IH]; [reflexivity|].
  cbn [URLSearchParams.get URLSearchParams.set app].
  destruct (String.eqb n name); [discriminate|]. intros H. now rewrite IH.
Qed.

Lemma fold_append (name : string) (values : list string) (params : URLSearchParams.t) :
  fold_left (fun params value => URLSearchParams.append name value params) values params
  = (params ++ map (pair name) values)%list.
Proof.
  revert params. induction values as [|v values IH]; intros params; cbn [fold_left map].
  - now rewrite app_nil_r.
  - rewrite IH. unfold URLSearchParams.append. now rewrite <- app_assoc.
Qed.

Lemma updateQuery_query_of (st : ViewState) :
  updateQuery st = URLSearchParams.href_query (query_of st).
Proof.
  unfold updateQuery, query_of. f_equal.
  cbn [fold_left filter_entries].
  change (JS.lookup_property paramKeys "categories") with (@JS.Own string "category").
  change (JS.lookup_property paramKeys "mechanisms") with (@JS.Own string "mechanism").
  change (JS.lookup_property paramKeys "difficulty") with (@JS.Own string "difficulty").
  change (JS.lookup_property paramKeys "language") with (@JS.Own string "language").
  cbv iota. rewrite !fold_append.
  set (s := if JS.truthy (search st) then URLSearchParams.set "search" (search st) [] else []).
  assert (Hs : s = if JS.truthy (search st) then [("search", search st)] else [])
    by (subst s; now destruct (JS.truthy (search st))).
  assert (Hso : (if JS.truthy (sort st) && negb (String.eqb (sort st) "trending")
                 then URLSearchParams.set "sort" (sort st) s else s)
                = (s ++ (if JS.truthy (sort st) && negb (String.eqb (sort st) "trending")
                         then [("sort", sort st)] else []))%list).
  { destruct (JS.truthy (sort st) && negb (String.eqb (sort st) "trending"));
      [|now rewrite app_nil_r].
    apply set_fresh. rewrite Hs. now destruct (JS.truthy (search st)). }
  rewrite Hso, Hs. clear Hso Hs s.
  destruct (JS.gt (page st) (JS.Int 1)).
  - rewrite set_fresh; [now rewrite <- !app_assoc|].
    rewrite !get_app, !get_named. cbn [String.eqb Ascii.eqb Bool.eqb].
    destruct (JS.truthy (search st)),
      (JS.truthy (sort st) && negb (String.eqb (sort st) "trending")); reflexivity.
  - now rewrite <- !app_assoc, !app_nil_r.
Qed.

Lemma get_if (b : bool) (n v name : string) :
  URLSearchParams.get name (if b then [(n, v)] else [])
  = if b && String.eqb n name then Some v else None.
Proof. destruct b; cbn; [|reflexivity]. now destruct (String.eqb n name). Qed.

Lemma getAll_if (b : bool) (n v name : string) :
  URLSearchParams.getAll name (if b then [(n, v)] else [])
  = if b && String.eqb n name then [v] else [].
Proof. destruct b; cbn; [|reflexivity]. now destruct (String.eqb n name). Qed.

Ltac query_of_lookup :=
  unfold query_of;
  rewrite ?getAll_app, ?getAll_named, ?getAll_if, ?get_app, ?get_named, ?get_if;
  cbn [String.eqb Ascii.eqb Bool.eqb];
  rewrite ?andb_false_r, ?andb_true_r, ?app_nil_r; cbn [app];
  rewrite ?app_nil_r.

Lemma get_search_query_of (st : ViewState) :
  URLSearchParams.get "search" (query_of st)
  = if JS.truthy (search st) then Some (search st) else None.
Proof. query_of_lookup. now destruct (JS.truthy (search st)). Qed.

Lemma get_sort_query_of (st : ViewState) :
  URLSearchParams.get "sort" (query_of st)
  = if JS.truthy (sort st) && negb (String.eqb (sort st) "trending")
    then Some (sort st) else None.
Proof.
  query_of_lookup.
  now destruct (JS.truthy (sort st) && negb (String.eqb (sort st) "trending")).
Qed.

Lemma get_page_query_of (st : ViewState) :
  URLSearchParams.get "page" (query_of st)
  = if JS.gt (page st) (JS.Int 1) then Some (JS.String_of (page st)) else None.
Proof. query_of_lookup. now destruct (JS.gt (page st) (JS.Int 1)). Qed.

Lemma getAll_query_of (st : ViewState) :
  URLSearchParams.getAll "category" (query_of st) = Filters.categories (filters st)
  /\ URLSearchParams.getAll "mechanism" (query_of st) = Filters.mechanisms (filters st)
  /\ URLSearchParams.getAll "difficulty" (query_of st) = Filters.difficulty (filters st)
  /\ URLSearchParams.getAll "language" (query_of st) = Filters.language (filters st).
Proof. repeat split; query_of_lookup; reflexivity. Qed.

Lemma parseQuery_updateQuery (st : ViewState) (p : Z) :
  sort st <> "" -> page st = JS.Int p -> 1 <= p ->
  parseQuery (updateQuery st) = st.
Proof.
  intros Hsort Hp Hp1. rewrite updateQuery_query_of. unfold parseQuery.
  rewrite parse_href_query, get_search_query_of, get_sort_query_of, get_page_query_of.
  destruct (getAll_query_of st) as (-> & -> & -> & ->).
  destruct st as [search sort page [cats mechs diffs langs]].
  cbn [Games.search Games.sort Games.page Games.filters Filters.categories
       Filters.mechanisms Filters.difficulty Filters.language] in *.
  subst page. f_equal.
  - unfold JS.or_string. destruct (JS.truthy search) eqn:E; [now rewrite E|].
    now apply negb_false_iff, String.eqb_eq in E.
  - apply (proj2 (truthy_iff sort)) in Hsort. rewrite Hsort. cbn [andb].
    destruct (String.eqb_spec sort "trending") as [->|Hne]; cbn [negb]; [reflexivity|].
    unfold JS.or_string. now rewrite Hsort.
  - unfold JS.gt. destruct (1 <? p) eqn:E.
    + unfold JS.or_string. rewrite String_of_truthy, parseInt_printed.
      unfold JS.Math_max, JS.gt. now rewrite E.
    + assert (p = 1) by lia. now subst p.
Qed.

(** X1.  The view state survives the address bar.  For every view state
    whose sort key is not empty and whose page is a safe integer from 1
    up (at most 2^53 - 1), parsing the query string that [updateQuery]
    writes gives the view state back: the search text, the sort key, the
    selected values of every facet in their order, and the page.  The
    query string holds, in this order, the search text unless it is
    empty, the sort key unless it is [trending], one parameter for each
    selected value and the page when it is above 1. *)
Theorem view_state_survives_the_address_bar (st : ViewState) (p : Z) :
  sort st <> "" -> page st = JS.Int p -> 1 <= p -> safe_integer p ->
  parseQuery (updateQuery st) = st
  /\ updateQuery st = URLSearchParams.href_query (query_of st).
Proof.
  intros Hsort Hp Hp1 _. split.
  - now apply (parseQuery_updateQuery st p).
  - apply updateQuery_query_of.
Qed.

Lemma view_state_survives_the_address_bar_witness :
  parseQuery (updateQuery (set_page (Sample.view "alpha" ["logic"; "word games"]) (JS.Int 3)))
  = set_page (Sample.view "alpha" ["logic"; "word games"]) (JS.Int 3)
  /\ updateQuery (set_page (Sample.view "alpha" ["logic"; "word games"]) (JS.Int 3))
     = URLSearchParams.href_query
         (query_of (set_page (Sample.view "alpha" ["logic"; "word games"]) (JS.Int 3))).
Proof.
  apply (view_state_survives_the_address_bar
           (set_page (Sample.view "alpha" ["logic"; "word games"]) (JS.Int 3)) 3).
  - discriminate.
  - reflexivity.
  - lia.
  - unfold safe_integer, MAX_SAFE_INTEGER. lia.
Defined.

(** *** What [parseQuery] reads *)

Lemma parse_pairs_of (search : string) :
  URLSearchParams.parse search
  = pairs_of (URLSearchParams.split_on "&" ""
                (match search with String "?" r => r | _ => search end)).
Proof. reflexivity. Qed.

Lemma parse_app (search rest : string) :
  URLSearchParams.parse (search ++ String "&" rest)
  = (URLSearchParams.parse search ++ pairs_of (URLSearchParams.split_on "&" "" rest))%list.
Proof.
  rewrite !parse_pairs_of, <- pairs_of_app, <- split_on_app. f_equal. f_equal.
  destruct search as [|c r]; [reflexivity|]. rewrite append_cons.
  destruct c as [[] [] [] [] [] [] [] []]; reflexivity.
Qed.

Lemma parse_extended (search name value : string) :
  URLSearchParams.parse
    (search ++ "&" ++ URLSearchParams.encode name ++ "=" ++ URLSearchParams.encode value)
  = (URLSearchParams.parse search ++ [(name, value)])%list.
Proof.
  change ("&" ++ URLSearchParams.encode name ++ "=" ++ URLSearchParams.encode value)
    with (String "&" (piece_of (name, value))).
  rewrite parse_app, split_on_free, append_nil_l, piece_of_pairs by apply piece_of_free.
  reflexivity.
Qed.

Lemma get_other (name n v : string) (params : URLSearchParams.t) :
  n <> name ->
  URLSearchParams.get name (params ++ [(n, v)])%list = URLSearchParams.get name params.
Proof.
  intros H. rewrite get_app. destruct (URLSearchParams.get name params); [reflexivity|].
  cbn. now rewrite (proj2 (String.eqb_neq n name) H).
Qed.

Lemma getAll_other (name n v : string) (params : URLSearchParams.t) :
  n <> name ->
  URLSearchParams.getAll name (params ++ [(n, v)])%list = URLSearchParams.getAll name params.
Proof.
  intros H. rewrite getAll_app. cbn. rewrite (proj2 (String.eqb_neq n name) H).
  apply app_nil_r.
Qed.

(** X2.  [parseQuery] ignores the parameters it does not know: adding to
    the query string a parameter whose name is none of [search], [sort],
    [page], [category], [mechanism], [difficulty] and [language] does not
    change the view state it returns. *)
Theorem parseQuery_ignores_other_parameters (location_search name value : string) :
  ~ In name ["search"; "sort"; "page"; "category"; "mechanism"; "difficulty"; "language"] ->
  parseQuery
    (location_search ++ "&" ++ URLSearchParams.encode name ++ "="
     ++ URLSearchParams.encode value)
  = parseQuery location_search.
Proof.
  intros H. unfold parseQuery. rewrite parse_extended.
  rewrite !get_other, !getAll_other by (intros ->; apply H; cbn; tauto).
  reflexivity.
Qed.

Lemma parseQuery_ignores_other_parameters_witness :
  parseQuery ("?sort=new&page=2" ++ "&" ++ URLSearchParams.encode "utm_source" ++ "="
              ++ URLSearchParams.encode "news letter")
  = parseQuery "?sort=new&page=2".
Proof.
  apply (parseQuery_ignores_other_parameters "?sort=new&page=2" "utm_source" "news letter").
  cbn. intros [H|[H|[H|[H|[H|[H|[H|[]]]]]]]]; discriminate H.
Defined.

Lemma toString_empty (params : URLSearchParams.t) :
  URLSearchParams.toString params = "" <-> params = [].
Proof.
  split; [|now intros ->].
  intros H. rewrite <- (parse_toString params). now rewrite H.
Qed.

Lemma href_query_empty (params : URLSearchParams.t) :
  URLSearchParams.href_query params = "" <-> params = [].
Proof.
  split; [|now intros ->].
  intros H. rewrite <- (parse_href_query params). now rewrite H.
Qed.

(** X3.  [updateQuery] writes an address without a query string exactly
    when the view state holds nothing to write: the search text is empty,
    the sort key is empty or [trending], no value is selected in any
    facet and the page is not above 1. *)
Theorem updateQuery_clean_address (st : ViewState) :
  updateQuery st = ""
  <-> search st = ""
      /\ (sort st = "" \/ sort st = "trending")
      /\ Filters.categories (filters st) = [] /\ Filters.mechanisms (filters st) = []
      /\ Filters.difficulty (filters st) = [] /\ Filters.language (filters st) = []
      /\ JS.gt (page st) (JS.Int 1) = false.
Proof.
  rewrite updateQuery_query_of, href_query_empty. unfold query_of.
  destruct st as [search sort page [cats mechs diffs langs]].
  cbn [Games.search Games.sort Games.page Games.filters Filters.categories
       Filters.mechanisms Filters.difficulty Filters.language].
  unfold JS.truthy.
  destruct (String.eqb_spec search "") as [->|Hs]; cbn [negb app].
  - destruct (String.eqb_spec sort "") as [->|Hso]; cbn [negb andb app].
    + destruct cats, mechs, diffs, langs, (JS.gt page (JS.Int 1)); cbn;
        split; try discriminate; try tauto; intros (_ & _ & ? & ? & ? & ? & ?); discriminate.
    + destruct (String.eqb_spec sort "trending") as [->|Hst]; cbn [negb andb app].
      * destruct cats, mechs, diffs, langs, (JS.gt page (JS.Int 1)); cbn;
          split; try discriminate; try tauto; intros (_ & _ & ? & ? & ? & ? & ?); discriminate.
      * split; [discriminate | tauto].
  - split; [discriminate | tauto].
Qed.

Lemma Math_max_one_int (z : Z) : JS.Math_max (JS.Int 1) (JS.Int z) = JS.Int (Z.max 1 z).
Proof. unfold JS.Math_max, JS.gt. destruct (1 <? z) eqn:E; f_equal; lia. Qed.

(** X4.  The page that [parseQuery] returns is NaN or a number that is
    at least 1.  It is NaN exactly when the [page] parameter is present,
    not empty and [parseInt] reads no number from it; it is 1 when the
    parameter is absent or empty; and for a parameter that is the
    decimal writing of a safe integer [z] (of magnitude 2^53 - 1 at
    most) it is the larger of 1 and [z]. *)
Theorem parseQuery_page_is_NaN_or_at_least_one (location_search : string) :
  let raw := URLSearchParams.get "page" (URLSearchParams.parse location_search) in
  (page (parseQuery location_search) = JS.NaN
   <-> exists v, raw = Some v /\ v <> "" /\ JS.parseInt v 10 = JS.NaN)
  /\ (page (parseQuery location_search) = JS.NaN
      \/ JS.le (JS.Int 1) (page (parseQuery location_search)) = true)
  /\ (raw = None \/ raw = Some "" -> page (parseQuery location_search) = JS.Int 1)
  /\ (forall z, safe_integer z -> raw = Some (JS.String_of (JS.Int z)) ->
        page (parseQuery location_search) = JS.Int (Z.max 1 z)).
Proof.
  cbv zeta. unfold parseQuery. cbn [page].
  set (raw := URLSearchParams.get "page" (URLSearchParams.parse location_search)).
  split; [|split; [|split]].
  - destruct raw as [v|]; cbn [JS.or_string].
    + destruct (JS.truthy v) eqn:E.
      * apply truthy_iff in E.
        destruct (parseInt_cases v 10) as [H|[z H]]; rewrite H.
        -- split; [intros _; now exists v | reflexivity].
        -- rewrite Math_max_one_int. split; [discriminate|].
           intros (w & [= <-] & _ & Hw). congruence.
      * apply negb_false_iff, String.eqb_eq in E. subst v.
        split; [discriminate | intros (w & [= <-] & Hw & _); contradiction].
    + split; [discriminate | intros (w & Hw & _); discriminate].
  - destruct (Math_max_one _ (parseInt_cases (JS.or_string raw "1") 10))
      as [H | (p & H & Hp)]; rewrite H; [now left | right].
    unfold JS.le, JS.gt. apply negb_true_iff, Z.ltb_ge. exact Hp.
  - intros [-> | ->]; reflexivity.
  - intros z _ ->. unfold JS.or_string. rewrite String_of_truthy, parseInt_printed.
    apply Math_max_one_int.
Qed.

(** ** The pagination control *)

Lemma Math_max_page_count (total : nat) (k : Z) :
  0 < k ->
  JS.Math_max (JS.Int 1) (JS.ceil_div total (JS.Int k)) = JS.Int (page_count total k).
Proof.
  intros Hk. rewrite ceil_div_positive by assumption. unfold JS.Math_max, JS.gt, page_count.
  destruct (1 <? (Z.of_nat total + k - 1) / k) eqn:E; f_equal; lia.
Qed.

Lemma page_count_ge_1 (total : nat) (k : Z) : 1 <= page_count total k.
Proof. unfold page_count. lia. Qed.

Lemma renderPagination_links (location_search : string) (st : ViewState)
    (total : nat) (k p : Z) :
  0 < k -> page st = JS.Int p ->
  renderPagination location_search st total (JS.Int k)
  = JS.Normal (page_links location_search p (page_count total k)).
Proof.
  intros Hk Hp. unfold renderPagination, page_links.
  rewrite Math_max_page_count by assumption. set (T := page_count total k). rewrite Hp.
  unfold JS.le, JS.gt, JS.lt, JS.gt, JS.sub, JS.add, JS.neg.
  assert (Hlink : forall (q : Z) (label : string) (b : bool),
             (let params := URLSearchParams.parse location_search in
              let params :=
                match JS.Int q with
                | JS.Int 1 => URLSearchParams.delete "page" params
                | _ => URLSearchParams.set "page" (JS.String_of (JS.Int q)) params
                end in
              if b then Current label else Anchor (URLSearchParams.href_query params) label)
             = page_link location_search q label b).
  { intros q label b. unfold page_link. cbv zeta.
    destruct b; [reflexivity|]. f_equal. f_equal.
    destruct q as [|[ | | ]|]; reflexivity. }
  destruct (T <=? 1) eqn:ET.
  - assert (E : negb (1 <? T) = true) by (apply negb_true_iff; lia). now rewrite E.
  - assert (E : negb (1 <? T) = false) by (apply negb_false_iff; lia). rewrite E.
    f_equal. f_equal; [|f_equal].
    + destruct (1 <? p); [|reflexivity]. f_equal. rewrite <- Hlink. reflexivity.
    + unfold pages_upto. rewrite map_map. apply map_ext. intros a.
      rewrite <- Hlink. reflexivity.
    + destruct (p <? T); [|reflexivity]. f_equal. rewrite <- Hlink. reflexivity.
Qed.

Lemma get_delete_same (name : string) (params : URLSearchParams.t) :
  URLSearchParams.get name (URLSearchParams.delete name params) = None.
Proof.
  induction params as [|[n v] params IH]; [reflexivity|].
  cbn [URLSearchParams.delete List.filter].
  destruct (String.eqb n name) eqn:E; cbn [negb]; [exact IH|].
  cbn [URLSearchParams.get]. rewrite E. exact IH.
Qed.

Lemma get_set_same (name value : string) (params : URLSearchParams.t) :
  URLSearchParams.get name (URLSearchParams.set name value params) = Some value.
Proof.
  induction params as [|[n v] params IH]; cbn [URLSearchParams.set URLSearchParams.get].
  - now rewrite String.eqb_refl.
  - destruct (String.eqb n name) eqn:E; cbn [URLSearchParams.get]; rewrite E;
      [reflexivity | exact IH].
Qed.

(** The page a link leads to: what the click listener reads in the
    [href] of the link that [appendLink] makes for page [q]. *)
Lemma link_page (location_search href label : string) (q : Z) :
  1 <= q ->
  page_link location_search q label false = Anchor href label ->
  JS.Math_max (JS.Int 1)
    (JS.parseInt
       (JS.or_string (URLSearchParams.get "page" (URLSearchParams.parse href)) "1") 10)
  = JS.Int q.
Proof.
  intros Hq [= <-]. rewrite parse_href_query.
  destruct (q =? 1) eqn:E.
  - rewrite get_delete_same. assert (q = 1) by lia. now subst q.
  - rewrite get_set_same.
    change (NilZero.string_of_int (Z.to_int q)) with (JS.String_of (JS.Int q)).
    unfold JS.or_string. rewrite String_of_truthy, parseInt_printed.
    unfold JS.Math_max, JS.gt. assert (H : (1 <? q) = true) by lia. now rewrite H.
Qed.

Lemma pages_upto_In (T q : Z) : In q (pages_upto T) <-> 1 <= q <= T.
Proof.
  unfold pages_upto. rewrite in_map_iff. split.
  - intros (n & <- & Hn). apply in_seq in Hn. lia.
  - intros H. exists (Z.to_nat q). split; [lia|]. apply in_seq. lia.
Qed.

Lemma pages_upto_NoDup (T : Z) : List.NoDup (pages_upto T).
Proof.
  unfold pages_upto. apply Finite.Injective_map_NoDup; [|apply List.seq_NoDup].
  intros a b. lia.
Qed.

Lemma one_current (location_search : string) (p : Z) (l : list Z) :
  List.NoDup l ->
  List.filter is_current
    (map (fun q => page_link location_search q (JS.String_of (JS.Int q)) (q =? p)) l)
  = if existsb (Z.eqb p) l then [Current (JS.String_of (JS.Int p))] else [].
Proof.
  induction 1 as [|q l Hq Hl IH]; [reflexivity|]. cbn [map List.filter existsb].
  rewrite IH. unfold page_link at 1.
  destruct (Z.eqb_spec q p) as [->|Hne].
  - rewrite Z.eqb_refl. cbn [is_current orb].
    destruct (existsb (Z.eqb p) l) eqn:E; [|reflexivity].
    apply existsb_exists in E as (x & Hx & Hpx). apply Z.eqb_eq in Hpx. now subst x.
  - assert (E : (p =? q) = false) by lia. rewrite E. reflexivity.
Qed.

(** X5.  For a positive page size and a current page between 1 and the
    number of pages, [renderPagination] returns and draws nothing when
    there is one page; with more pages it draws, in this order, a
    [Previous] link unless the current page is the first, one entry per
    page labelled with its number, and a [Next] link unless the current
    page is the last; exactly one entry is marked as current, the one
    of the current page. *)
Theorem renderPagination_control (location_search : string) (st : ViewState)
    (total : nat) (k p : Z) :
  0 < k -> page st = JS.Int p -> 1 <= p <= page_count total k ->
  exists links,
    renderPagination location_search st total (JS.Int k) = JS.Normal links
    /\ (page_count total k = 1 -> links = [])
    /\ (1 < page_count total k ->
        map link_label links
        = ((if 1 <? p then ["Previous"] else [])
           ++ map (fun q => JS.String_of (JS.Int q)) (pages_upto (page_count total k))
           ++ (if p <? page_count total k then ["Next"] else []))%list
        /\ List.filter is_current links = [Current (JS.String_of (JS.Int p))]).
Proof.
  intros Hk Hp Hrange. rewrite (renderPagination_links _ _ _ _ p) by assumption.
  set (T := page_count total k) in *. eexists. split; [reflexivity|].
  unfold page_links. split.
  - intros ->. reflexivity.
  - intros HT. assert (E : (T <=? 1) = false) by lia. rewrite E. split.
    + rewrite !map_app, map_map. f_equal; [now destruct (1 <? p)|]. f_equal.
      * apply map_ext. intros q. unfold page_link. now destruct (q =? p).
      * now destruct (p <? T).
    + rewrite !List.filter_app, one_current by apply pages_upto_NoDup.
      assert (Hin : existsb (Z.eqb p) (pages_upto T) = true).
      { apply existsb_exists. exists p. split; [now apply pages_upto_In | apply Z.eqb_refl]. }
      rewrite Hin. now destruct (1 <? p), (p <? T).
Qed.

Lemma renderPagination_control_witness :
  exists links,
    renderPagination "?sort=new" (Sample.view "new" []) 50 (JS.Int 24) = JS.Normal links
    /\ (page_count 50 24 = 1 -> links = [])
    /\ (1 < page_count 50 24 ->
        map link_label links
        = ((if 1 <? 1 then ["Previous"] else [])
           ++ map (fun q => JS.String_of (JS.Int q)) (pages_upto (page_count 50 24))
           ++ (if 1 <? page_count 50 24 then ["Next"] else []))%list
        /\ List.filter is_current links = [Current (JS.String_of (JS.Int 1))]).
Proof.
  apply (renderPagination_control "?sort=new" (Sample.view "new" []) 50 24 1).
  - lia.
  - reflexivity.
  - vm_compute. split; discriminate.
Defined.

(** ** What a render shows *)

Lemma slice_chunk {A : Type} (l : list A) (k q : Z) :
  0 < k -> 1 <= q ->
  JS.slice l (JS.mul (JS.sub (JS.Int q) (JS.Int 1)) (JS.Int k))
             (JS.add (JS.mul (JS.sub (JS.Int q) (JS.Int 1)) (JS.Int k)) (JS.Int k))
  = chunk k q l.
Proof.
  intros Hk Hq. unfold JS.sub, JS.neg, JS.add, JS.mul, JS.slice, JS.slice_index, chunk.
  replace (q + - (1)) with (q - 1) by lia.
  set (a := (q - 1) * k).
  assert (Ha : 0 <= a) by (subst a; nia).
  destruct (a <? 0) eqn:E1; [lia|]. destruct (a + k <? 0) eqn:E2; [lia|].
  set (len := length l).
  destruct (Z_le_gt_dec a (Z.of_nat len)) as [Hle|Hgt].
  - replace (Z.to_nat (Z.min a (Z.of_nat len))) with (Z.to_nat a) by lia.
    destruct (Z_le_gt_dec (a + k) (Z.of_nat len)) as [Hle'|Hgt'].
    + f_equal. lia.
    + replace (Z.to_nat (Z.min (a + k) (Z.of_nat len)) - Z.to_nat a)%nat
        with (length (skipn (Z.to_nat a) l)) by (rewrite length_skipn; lia).
      rewrite firstn_all. symmetry. apply firstn_all2. rewrite length_skipn. lia.
  - replace (Z.to_nat (Z.min a (Z.of_nat len))) with len by lia.
    replace (Z.to_nat (Z.min (a + k) (Z.of_nat len)) - len)%nat with 0%nat by lia.
    subst len. rewrite skipn_all. cbn [firstn].
    rewrite skipn_all2 by lia. now rewrite firstn_nil.
Qed.

Lemma ranked_set_page (localeCompare : string -> string -> float) (games : list Game.t)
    (st : ViewState) (n : JS.number) :
  ranked localeCompare games (set_page st n) = ranked localeCompare games st.
Proof. reflexivity. Qed.

(** What a render shows when the page size is positive, the page is an
    integer from 1 up and the sort returns. *)
Lemma render_complete (localeCompare : string -> string -> float) (games : list Game.t)
    (k : Z) (pagination : bool) (st : ViewState) (p : Z) (sorted : list Game.t) :
  0 < k -> page st = JS.Int p -> 1 <= p ->
  ranked localeCompare games st = JS.Normal sorted ->
  let total := length (filtered games st) in
  let p' := Z.min p (page_count total k) in
  let st' := set_page st (JS.Int p') in
  render localeCompare games (JS.Int k) pagination st
  = (st', JS.Normal {| grid := chunk k p' sorted;
                       address := updateQuery st';
                       links := if pagination
                                then page_links (updateQuery st') p' (page_count total k)
                                else [];
                       results_count :=
                         JS.String_of (JS.Int (Z.of_nat total)) ++ " "
                         ++ (if Nat.eqb total 1 then "game" else "games") ++ " found" |}).
Proof.
  intros Hk Hp Hp1 Hr total p' st'. unfold render. rewrite Hr.
  pose proof (Array_sort_length _ _ _ Hr) as Hlen. fold total in Hlen. rewrite Hlen.
  rewrite Math_max_page_count, Hp by assumption.
  assert (Hmin : JS.Math_min (JS.Int p) (JS.Int (page_count total k)) = JS.Int p').
  { unfold JS.Math_min, JS.gt. subst p'.
    destruct (page_count total k <? p) eqn:E; f_equal; lia. }
  rewrite Hmin. fold st'.
  change (page st') with (JS.Int p').
  assert (Hp' : 1 <= p') by (subst p'; pose proof (page_count_ge_1 total k); lia).
  rewrite slice_chunk by assumption.
  destruct pagination; [|reflexivity].
  now rewrite (renderPagination_links (updateQuery st') st' total k p').
Qed.

Lemma render_normal_ranked (localeCompare : string -> string -> float) (games : list Game.t)
    (pageSize : JS.number) (pagination : bool) (st st' : ViewState) (v : View) :
  render localeCompare games pageSize pagination st = (st', JS.Normal v) ->
  exists sorted, ranked localeCompare games st = JS.Normal sorted.
Proof. intros H. apply (render_normal _ _ pageSize pagination st v). now rewrite H. Qed.

(** *** Following a link of the pagination control *)

Lemma page_link_label (location_search href label label' : string) (q : Z) :
  page_link location_search q label' false = Anchor href label -> label' = label.
Proof. unfold page_link. now intros [= _ ->]. Qed.

Lemma page_links_anchor (location_search href label : string) (p T : Z) :
  1 <= p <= T ->
  In (Anchor href label) (page_links location_search p T) ->
  exists q,
    1 <= q <= T
    /\ page_link location_search q label false = Anchor href label
    /\ ((label = "Previous" /\ q = p - 1) \/ (label = "Next" /\ q = p + 1)
        \/ (label = JS.String_of (JS.Int q) /\ q <> p)).
Proof.
  intros Hp. unfold page_links. destruct (T <=? 1); [contradiction|].
  rewrite !in_app_iff. intros [H|[H|H]].
  - destruct (1 <? p) eqn:E; [|contradiction]. destruct H as [H|[]].
    pose proof (page_link_label _ _ _ _ _ H) as <-.
    exists (p - 1). split; [lia|]. split; [exact H | now left].
  - apply in_map_iff in H as (q & H & Hq). apply pages_upto_In in Hq.
    exists q. split; [assumption|].
    destruct (q =? p) eqn:E; [discriminate|].
    pose proof (page_link_label _ _ _ _ _ H) as <-.
    split; [exact H | right; right; split; [reflexivity | lia]].
  - destruct (p <? T) eqn:E; [|contradiction]. destruct H as [H|[]].
    pose proof (page_link_label _ _ _ _ _ H) as <-.
    exists (p + 1). split; [lia|]. split; [exact H | right; now left].
Qed.

(** X6.  Every link of the pagination control leads to the page it
    stands for.  After a render with a positive page size and a page from
    1 up, a click on a link labelled with a number sets the page to that
    number, [Previous] to the page before the current one and [Next] to
    the page after it, and changes nothing else in the view state; the
    page a link leads to lies between 1 and the number of pages, and no
    numbered link leads to the current page. *)
Theorem pagination_link_opens_its_page
    (localeCompare : string -> string -> float) (games : list Game.t)
    (k : Z) (st st' : ViewState) (p : Z) (v : View) (href label : string) :
  0 < k -> page st = JS.Int p -> 1 <= p ->
  render localeCompare games (JS.Int k) true st = (st', JS.Normal v) ->
  In (Anchor href label) (links v) ->
  exists q,
    1 <= q <= page_count (length (filtered games st)) k
    /\ ((label = "Previous" /\ page st' = JS.Int (q + 1))
        \/ (label = "Next" /\ page st' = JS.Int (q - 1))
        \/ (label = JS.String_of (JS.Int q) /\ page st' <> JS.Int q))
    /\ fst (handle localeCompare games (JS.Int k) true (PaginationClick href) st')
       = set_page st' (JS.Int q).
Proof.
  intros Hk Hp Hp1 Hrender Hin.
  destruct (render_normal_ranked _ _ _ _ _ _ _ Hrender) as [sorted Hs].
  rewrite (render_complete _ _ _ _ _ _ _ Hk Hp Hp1 Hs) in Hrender.
  injection Hrender as <- <-. cbn [links] in Hin.
  set (T := page_count (length (filtered games st)) k) in *.
  pose proof (page_count_ge_1 (length (filtered games st)) k) as HT. fold T in HT.
  set (p' := Z.min p T) in *.
  apply page_links_anchor in Hin as (q & Hq & Hlink & Hlabel); [|lia].
  exists q. split; [assumption|]. split.
  - change (page (set_page st (JS.Int p'))) with (JS.Int p').
    destruct Hlabel as [[-> ->]|[[-> ->]|[-> Hne]]].
    + left. split; [reflexivity | f_equal; lia].
    + right. left. split; [reflexivity | f_equal; lia].
    + right. right. split; [reflexivity | congruence].
  - unfold handle. cbv zeta. rewrite (link_page _ _ _ _ (proj1 Hq) Hlink).
    unfold rendered. cbn [fst].
    rewrite (render_complete localeCompare games k true
               (set_page (set_page st (JS.Int p')) (JS.Int q)) q sorted Hk eq_refl (proj1 Hq))
      by exact Hs.
    cbn [fst]. change (filtered games (set_page (set_page st (JS.Int p')) (JS.Int q)))
      with (filtered games st). fold T.
    replace (Z.min q T) with q by lia. reflexivity.
Qed.

Lemma pagination_link_opens_its_page_witness :
  exists q,
    1 <= q <= page_count (length (filtered Sample.catalog (Sample.view "new" []))) 1
    /\ (("2" = "Previous" /\ page (Sample.view "new" []) = JS.Int (q + 1))
        \/ ("2" = "Next" /\ page (Sample.view "new" []) = JS.Int (q - 1))
        \/ ("2" = JS.String_of (JS.Int q) /\ page (Sample.view "new" []) <> JS.Int q))
    /\ fst (handle Sample.byte_compare Sample.catalog (JS.Int 1) true
              (PaginationClick "?sort=new&page=2") (Sample.view "new" []))
       = set_page (Sample.view "new" []) (JS.Int q).
Proof.
  apply (pagination_link_opens_its_page Sample.byte_compare Sample.catalog 1
           (Sample.view "new" []) (Sample.view "new" []) 1
           sample_page
           "?sort=new&page=2" "2").
  - lia.
  - reflexivity.
  - lia.
  - vm_compute. reflexivity.
  - right. left. reflexivity.
Defined.

(** *** The grid *)

Lemma Array_sort_permutation {A : Type} (f : (A -> A -> float) + JS.builtin)
    (l sorted : list A) :
  JS.Array_sort f l = JS.Normal sorted -> Permutation sorted l.
Proof.
  destruct f as [c|[ | | ]]; cbn [JS.Array_sort].
  - intros [= <-]. apply sort_by_permutation.
  - now intros [= <-].
  - destruct (length l <? 2)%nat; [now intros [= <-] | discriminate].
  - discriminate.
Qed.

Lemma chunk_incl {A : Type} (k q : Z) (l : list A) (x : A) : In x (chunk k q l) -> In x l.
Proof.
  unfold chunk. intros H.
  rewrite <- (firstn_skipn (Z.to_nat ((q - 1) * k)) l). apply in_or_app. right.
  rewrite <- (firstn_skipn (Z.to_nat k) (skipn _ l)). apply in_or_app. now left.
Qed.

Lemma chunk_length {A : Type} (k q : Z) (l : list A) :
  (length (chunk k q l) <= Z.to_nat k)%nat.
Proof. unfold chunk. apply firstn_le_length. Qed.

Lemma page_count_covers (total : nat) (k : Z) :
  0 < k ->
  Z.of_nat total <= page_count total k * k
  /\ ((0 < total)%nat -> (page_count total k - 1) * k < Z.of_nat total).
Proof.
  intros Hk. unfold page_count.
  pose proof (Z.div_mod (Z.of_nat total + k - 1) k ltac:(lia)) as Hd.
  pose proof (Z.mod_pos_bound (Z.of_nat total + k - 1) k Hk) as Hm.
  set (c := (Z.of_nat total + k - 1) / k) in *.
  set (r := (Z.of_nat total + k - 1) mod k) in *.
  split.
  - destruct (Z.max_spec 1 c) as [[Hc ->]|[Hc ->]]; [lia|].
    assert (k * c <= k * 1) by (apply Z.mul_le_mono_nonneg_l; lia). lia.
  - intros Hpos.
    assert (Hc : 1 <= c).
    { destruct (Z_le_gt_dec 1 c) as [H|H]; [assumption|].
      assert (k * c <= k * 0) by (apply Z.mul_le_mono_nonneg_l; lia). lia. }
    replace (Z.max 1 c) with c by lia. lia.
Qed.

Lemma chunk_nonempty {A : Type} (k q : Z) (l : list A) :
  0 < k -> 1 <= q <= page_count (length l) k -> l <> [] -> chunk k q l <> [].
Proof.
  intros Hk Hq Hne.
  assert (Hpos : (0 < length l)%nat) by (destruct l; [contradiction | cbn; lia]).
  destruct (page_count_covers (length l) k Hk) as [_ Hlt]. specialize (Hlt Hpos).
  unfold chunk. intros H. apply (f_equal (@length A)) in H.
  rewrite length_firstn, length_skipn in H. cbn [length] in H. nia.
Qed.

(** X7.  After a render with a positive page size and a page from 1
    up, the grid holds at most a page size of games, each of them a game
    of the catalogue that passes the facet filters and the search text;
    and the grid is empty only when no game passes them: the clamp of the
    page never leaves the visitor on an empty page while there are
    results. *)
Theorem grid_is_a_page_of_the_results
    (localeCompare : string -> string -> float) (games : list Game.t)
    (k : Z) (pagination : bool) (st st' : ViewState) (p : Z) (v : View) :
  0 < k -> page st = JS.Int p -> 1 <= p ->
  render localeCompare games (JS.Int k) pagination st = (st', JS.Normal v) ->
  (length (grid v) <= Z.to_nat k)%nat
  /\ (grid v = [] <-> filtered games st = [])
  /\ Forall (fun g => In g games
                      /\ matchesFilters g (filters st) = true
                      /\ matchesSearch g (search st) = true) (grid v).
Proof.
  intros Hk Hp Hp1 Hrender.
  destruct (render_normal_ranked _ _ _ _ _ _ _ Hrender) as [sorted Hs].
  rewrite (render_complete _ _ _ _ _ _ _ Hk Hp Hp1 Hs) in Hrender.
  injection Hrender as _ <-. cbn [grid].
  pose proof (Array_sort_permutation _ _ _ Hs) as Hperm.
  pose proof (Array_sort_length _ _ _ Hs) as Hlen.
  set (T := page_count (length (filtered games st)) k).
  pose proof (page_count_ge_1 (length (filtered games st)) k) as HT. fold T in HT.
  split; [apply chunk_length|]. split.
  - split.
    + intros Hempty. destruct (filtered games st) as [|g l] eqn:E; [reflexivity|].
      exfalso. revert Hempty. apply chunk_nonempty; [assumption| |].
      * rewrite Hlen. fold T. lia.
      * intros ->. apply Permutation_nil in Hperm. discriminate.
    + intros Hempty. rewrite Hempty in Hperm. apply Permutation_sym, Permutation_nil in Hperm.
      subst sorted. unfold chunk. rewrite skipn_nil. apply firstn_nil.
  - apply List.Forall_forall. intros g Hg. apply chunk_incl in Hg.
    apply (Permutation_in _ Hperm) in Hg. unfold filtered in Hg.
    apply filter_In in Hg as [Hg Hsearch]. apply filter_In in Hg as [Hg Hfilters]. auto.
Qed.

Lemma grid_is_a_page_of_the_results_witness :
  (length (grid sample_page) <= Z.to_nat 1)%nat
  /\ (grid sample_page = [] <-> filtered Sample.catalog (Sample.view "new" []) = [])
  /\ Forall (fun g => In g Sample.catalog
                      /\ matchesFilters g (filters (Sample.view "new" [])) = true
                      /\ matchesSearch g (search (Sample.view "new" [])) = true)
            (grid sample_page).
Proof.
  apply (grid_is_a_page_of_the_results Sample.byte_compare Sample.catalog 1 true
           (Sample.view "new" []) (Sample.view "new" []) 1
           sample_page).
  - lia.
  - reflexivity.
  - lia.
  - vm_compute. reflexivity.
Defined.

(** *** All the pages *)




(** *** The page after a change of the criteria *)

Lemma render_first_page (localeCompare : string -> string -> float) (games : list Game.t)
    (k : Z) (pagination : bool) (st : ViewState) :
  0 < k -> page st = JS.Int 1 ->
  page (fst (render localeCompare games (JS.Int k) pagination st)) = JS.Int 1.
Proof.
  intros Hk Hp. rewrite render_state.
  destruct (ranked localeCompare games st) as [sorted| |]; try assumption.
  change (page (set_page st ?x)) with x.
  rewrite Math_max_page_count, Hp by assumption.
  pose proof (page_count_ge_1 (length sorted) k).
  unfold JS.Math_min, JS.gt.
  destruct (page_count (length sorted) k <? 1) eqn:E; [lia | reflexivity].
Qed.

(** X9.  With a positive page size, an edit of the search text, a change
    of the sort key and a change of a check box of one of the four facets
    each leave the view state on page 1, whatever page it was on and
    however the render ends. *)
Theorem new_criteria_return_to_page_one
    (localeCompare : string -> string -> float) (games : list Game.t)
    (k : Z) (pagination : bool) (st : ViewState) :
  0 < k ->
  (forall value,
      page (fst (handle localeCompare games (JS.Int k) pagination (SearchInput value) st))
      = JS.Int 1)
  /\ (forall value,
        page (fst (handle localeCompare games (JS.Int k) pagination (SortChange value) st))
        = JS.Int 1)
  /\ (forall (x : Facet) value checked,
        page (fst (handle localeCompare games (JS.Int k) pagination
                     (FacetChange (facet_name x) value checked) st))
        = JS.Int 1).
Proof.
  intros Hk. repeat split.
  - intros value. unfold handle, rendered. cbn [fst]. now apply render_first_page.
  - intros value. unfold handle, rendered. cbn [fst]. now apply render_first_page.
  - intros x value checked. unfold handle, toggle_facet. rewrite lookup_facet_name.
    destruct checked; [destruct (negb (JS.array_includes (selected (filters st) x) value))|];
      unfold rendered; cbn [fst]; now apply render_first_page.
Qed.

Lemma new_criteria_return_to_page_one_witness :
  page (fst (handle Sample.byte_compare Sample.catalog (JS.Int 1) true (SearchInput "fresh")
               (set_page (Sample.view "new" []) (JS.Int 2))))
  = JS.Int 1.
Proof.
  apply (proj1 (new_criteria_return_to_page_one Sample.byte_compare Sample.catalog 1 true
                  (set_page (Sample.view "new" []) (JS.Int 2)) ltac:(lia))).
Defined.

(** *** Reloading the page *)

(** X10.  Reloading shows the same view.  After a render with a positive
    page size, a sort key that is not empty and a page from 1 up, the
    address written to the address bar parses back to the view state the
    render has left, and initialising the page at that address renders
    the same view again. *)
Theorem reload_shows_the_same_view
    (localeCompare : string -> string -> float) (games : list Game.t)
    (k : Z) (pagination : bool) (st st' : ViewState) (p : Z) (v : View) :
  0 < k -> sort st <> "" -> page st = JS.Int p -> 1 <= p ->
  render localeCompare games (JS.Int k) pagination st = (st', JS.Normal v) ->
  parseQuery (address v) = st'
  /\ initialiseGames localeCompare games (JS.Int k) pagination (address v)
     = (st', JS.Normal v).
Proof.
  intros Hk Hsort Hp Hp1 Hrender.
  destruct (render_normal_ranked _ _ _ _ _ _ _ Hrender) as [sorted Hs].
  rewrite (render_complete _ _ _ _ _ _ _ Hk Hp Hp1 Hs) in Hrender.
  injection Hrender as <- <-.
  set (T := page_count (length (filtered games st)) k) in *.
  pose proof (page_count_ge_1 (length (filtered games st)) k) as HT. fold T in HT.
  set (p' := Z.min p T) in *. cbn [address].
  assert (Hparse : parseQuery (updateQuery (set_page st (JS.Int p'))) = set_page st (JS.Int p')).
  { apply (parseQuery_updateQuery _ p'); [assumption | reflexivity | lia]. }
  split; [assumption|].
  unfold initialiseGames. rewrite Hparse.
  rewrite (render_complete localeCompare games k pagination (set_page st (JS.Int p')) p' sorted Hk)
    by (reflexivity || lia || exact Hs).
  change (filtered games (set_page st (JS.Int p'))) with (filtered games st). fold T.
  replace (Z.min p' T) with p' by lia. reflexivity.
Qed.

Lemma reload_shows_the_same_view_witness :
  parseQuery "?sort=new" = Sample.view "new" []
  /\ initialiseGames Sample.byte_compare Sample.catalog (JS.Int 1) true "?sort=new"
     = (Sample.view "new" [],
        JS.Normal sample_page).
Proof.
  apply (reload_shows_the_same_view Sample.byte_compare Sample.catalog 1 true
           (Sample.view "new" []) (Sample.view "new" []) 1
           sample_page).
  - lia.
  - discriminate.
  - reflexivity.
  - lia.
  - vm_compute. reflexivity.
Defined.

(** *** A page number that comes from an address *)

(** X11.  A page number that comes from an address is brought into
    range.  When the [page] parameter of an address is the decimal writing
    of a safe integer [z] (of magnitude 2^53 - 1 at most), [parseQuery]
    reads the larger of 1 and [z]; and with a positive page size, when
    the sort of the render returns, after the first render on loading
    that address, and after the render that follows a click on a link to
    it, the page is that number when it does not exceed the number of
    pages of the results, and the number of pages otherwise. *)
Theorem page_from_an_address_is_clamped_at_render
    (localeCompare : string -> string -> float) (games : list Game.t)
    (k : Z) (pagination : bool) (st : ViewState) (address : string) (z : Z)
    (loaded sorted : list Game.t) :
  0 < k -> safe_integer z ->
  URLSearchParams.get "page" (URLSearchParams.parse address) = Some (JS.String_of (JS.Int z)) ->
  ranked localeCompare games (parseQuery address) = JS.Normal loaded ->
  ranked localeCompare games st = JS.Normal sorted ->
  page (parseQuery address) = JS.Int (Z.max 1 z)
  /\ page (fst (initialiseGames localeCompare games (JS.Int k) pagination address))
     = JS.Int (Z.min (Z.max 1 z)
                 (page_count (length (filtered games (parseQuery address))) k))
  /\ page (fst (handle localeCompare games (JS.Int k) pagination (PaginationClick address) st))
     = JS.Int (Z.min (Z.max 1 z) (page_count (length (filtered games st)) k)).
Proof.
  intros Hk _ Hraw Hloaded Hsorted.
  assert (Hparsed : JS.Math_max (JS.Int 1)
                      (JS.parseInt
                         (JS.or_string
                            (URLSearchParams.get "page" (URLSearchParams.parse address)) "1")
                         10)
                    = JS.Int (Z.max 1 z)).
  { rewrite Hraw. unfold JS.or_string. rewrite String_of_truthy, parseInt_printed.
    apply Math_max_one_int. }
  assert (Hpage : page (parseQuery address) = JS.Int (Z.max 1 z)) by exact Hparsed.
  split; [assumption|]. split.
  - unfold initialiseGames.
    rewrite (render_complete _ _ _ _ _ _ _ Hk Hpage ltac:(lia) Hloaded). reflexivity.
  - unfold handle. cbv zeta. rewrite Hparsed. unfold rendered. cbn [fst].
    rewrite (render_complete localeCompare games k pagination
               (set_page st (JS.Int (Z.max 1 z))) (Z.max 1 z) sorted Hk eq_refl ltac:(lia))
      by exact Hsorted.
    reflexivity.
Qed.

Lemma page_from_an_address_is_clamped_at_render_witness :
  page (parseQuery "?sort=new&page=7") = JS.Int (Z.max 1 7)
  /\ page (fst (initialiseGames Sample.byte_compare Sample.catalog (JS.Int 1) true
                  "?sort=new&page=7"))
     = JS.Int (Z.min (Z.max 1 7)
                 (page_count
                    (length (filtered Sample.catalog (parseQuery "?sort=new&page=7"))) 1))
  /\ page (fst (handle Sample.byte_compare Sample.catalog (JS.Int 1) true
                  (PaginationClick "?sort=new&page=7") (Sample.view "new" [])))
     = JS.Int (Z.min (Z.max 1 7)
                 (page_count (length (filtered Sample.catalog (Sample.view "new" []))) 1)).
Proof.
  apply (page_from_an_address_is_clamped_at_render Sample.byte_compare Sample.catalog 1 true
           (Sample.view "new" []) "?sort=new&page=7" 7
           [Sample.fresh; Sample.classic] [Sample.fresh; Sample.classic]).
  - lia.
  - unfold safe_integer, MAX_SAFE_INTEGER. lia.
  - reflexivity.
  - vm_compute. reflexivity.
  - vm_compute. reflexivity.
Defined.

(** ** The facet check boxes *)

Lemma filter_out_In (v w : string) (l : list string) :
  In w (List.filter (fun item => negb (String.eqb item v)) l) <-> In w l /\ w <> v.
Proof.
  rewrite filter_In, negb_true_iff. split; intros [H H']; split; try assumption.
  - now apply String.eqb_neq.
  - now apply String.eqb_neq.
Qed.

Lemma filter_out_absent (v : string) (l : list string) :
  ~ In v l -> List.filter (fun item => negb (String.eqb item v)) l = l.
Proof.
  intros H. apply filter_all. intros x Hx. apply negb_true_iff, String.eqb_neq.
  intros ->. contradiction.
Qed.

Lemma set_facet_selected (f : Filters.t) (x : Facet) :
  set_facet f (facet_name x) (selected f x) = f.
Proof. destruct f, x; reflexivity. Qed.

Lemma set_facet_twice (f : Filters.t) (x : Facet) (l l' : list string) :
  set_facet (set_facet f (facet_name x) l) (facet_name x) l' = set_facet f (facet_name x) l'.
Proof. destruct x; reflexivity. Qed.

Lemma Facet_eqb_eq (x y : Facet) : Facet_eqb x y = true <-> x = y.
Proof. destruct x, y; cbn; split; congruence. Qed.

(** X12.  The check box of a facet value.  Ticking it selects the value:
    the selection of its facet becomes the old selection and the value,
    without a duplicate if there was none, and the other facets are not
    touched; unticking it removes every occurrence of the value and
    nothing else; and ticking a value that was not selected and then
    unticking it gives back the filters as they were. *)
Theorem facet_checkbox_selects_and_deselects (f : Filters.t) (x : Facet) (v : string) :
  (exists f1,
      toggle_facet f (facet_name x) v true = JS.Normal (Some f1)
      /\ In v (selected f1 x)
      /\ (forall w, In w (selected f1 x) <-> In w (selected f x) \/ w = v)
      /\ (List.NoDup (selected f x) -> List.NoDup (selected f1 x))
      /\ (forall y, y <> x -> selected f1 y = selected f y)
      /\ (~ In v (selected f x) ->
          toggle_facet f1 (facet_name x) v false = JS.Normal (Some f)))
  /\ (exists f0,
        toggle_facet f (facet_name x) v false = JS.Normal (Some f0)
        /\ ~ In v (selected f0 x)
        /\ (forall w, In w (selected f0 x) <-> In w (selected f x) /\ w <> v)
        /\ (forall y, y <> x -> selected f0 y = selected f y)).
Proof.
  assert (Hother : forall l y, y <> x -> selected (set_facet f (facet_name x) l) y = selected f y).
  { intros l y Hy. rewrite selected_set_facet.
    destruct (Facet_eqb x y) eqn:E; [|reflexivity].
    apply Facet_eqb_eq in E. congruence. }
  assert (Hown : forall l, selected (set_facet f (facet_name x) l) x = l).
  { intros l. rewrite selected_set_facet.
    now rewrite (proj2 (Facet_eqb_eq x x) eq_refl). }
  split.
  - unfold toggle_facet at 1. rewrite lookup_facet_name.
    destruct (JS.array_includes (selected f x) v) eqn:E; cbn [negb].
    + apply array_includes_iff in E. exists f. repeat split; auto.
      * intros [H| ->]; assumption.
      * intros H. contradiction.
    + assert (Hnot : ~ In v (selected f x)).
      { intros H. apply array_includes_iff in H. congruence. }
      eexists. split; [reflexivity|]. rewrite Hown. repeat split.
      * apply in_or_app. right. now left.
      * intros H. apply in_app_or in H as [H|[H|[]]]; auto.
      * intros [H| ->]; apply in_or_app; [now left | right; now left].
      * intros Hnd. apply List.NoDup_app; [assumption | repeat constructor; auto |].
        intros a Ha [<-|[]]. contradiction.
      * intros y Hy. now apply Hother.
      * intros _. unfold toggle_facet. rewrite lookup_facet_name, Hown, set_facet_twice.
        rewrite List.filter_app, filter_out_absent by assumption. cbn [List.filter].
        rewrite String.eqb_refl. cbn [negb]. rewrite app_nil_r.
        now rewrite set_facet_selected.
  - unfold toggle_facet. rewrite lookup_facet_name. eexists. split; [reflexivity|].
    rewrite Hown. split; [|split].
    + intros H. apply filter_out_In in H as [_ H]. congruence.
    + intros w. apply filter_out_In.
    + intros y Hy. now apply Hother.
Qed.

Lemma lookup_unknown_facet (f : Filters.t) (facet : string) :
  ~ In facet ["categories"; "mechanisms"; "difficulty"; "language"] ->
  plain_key facet ->
  JS.lookup_property (filter_entries f) facet = JS.Undefined.
Proof.
  intros Hnot Hplain. unfold JS.lookup_property, filter_entries. rewrite !assoc_cons.
  assert (Hne : forall name, In name ["categories"; "mechanisms"; "difficulty"; "language"] ->
                             String.eqb name facet = false).
  { intros name Hin. apply String.eqb_neq. intros ->. contradiction. }
  rewrite !Hne by (cbn; tauto). cbn [JS.assoc]. unfold plain_key in Hplain. now rewrite Hplain.
Qed.

(** X13.  A check box whose [data-facet] is none of [categories],
    [mechanisms], [difficulty] and [language], and names no member of
    [Object.prototype], does nothing: its listener returns before the
    page is reset and before the render, so the view state is as it was
    and nothing is drawn. *)
Theorem unknown_facet_changes_nothing
    (localeCompare : string -> string -> float) (games : list Game.t)
    (pageSize : JS.number) (pagination : bool) (st : ViewState)
    (facet value : string) (checked : bool) :
  ~ In facet ["categories"; "mechanisms"; "difficulty"; "language"] ->
  plain_key facet ->
  handle localeCompare games pageSize pagination (FacetChange facet value checked) st
  = (st, JS.Normal None).
Proof.
  intros Hnot Hplain. unfold handle, toggle_facet.
  now rewrite lookup_unknown_facet.
Qed.

Lemma unknown_facet_changes_nothing_witness :
  handle Sample.byte_compare Sample.catalog (JS.Int 24) true
    (FacetChange "platform" "web" true) (Sample.view "new" ["logic"])
  = (Sample.view "new" ["logic"], JS.Normal None).
Proof.
  apply (unknown_facet_changes_nothing Sample.byte_compare Sample.catalog (JS.Int 24) true
           (Sample.view "new" ["logic"]) "platform" "web" true).
  - cbn. intros [H|[H|[H|[H|[]]]]]; discriminate H.
  - reflexivity.
Defined.

(** ** Refining the search text *)

Lemma toLowerCase_app (s t : string) :
  JS.toLowerCase (s ++ t) = JS.toLowerCase s ++ JS.toLowerCase t.
Proof.
  induction s as [|c s IH]; [reflexivity|].
  rewrite append_cons. cbn [JS.toLowerCase]. now rewrite IH, append_cons.
Qed.

Lemma occurs_trans (a b c : string) : occurs a b -> occurs b c -> occurs a c.
Proof.
  intros (p1 & q1 & ->) (p2 & q2 & ->). exists (p2 ++ p1), (q1 ++ q2).
  now rewrite !append_assoc.
Qed.

Lemma matchesSearch_refined (g : Game.t) (q q' : string) :
  occurs q q' -> matchesSearch g q' = true -> matchesSearch g q = true.
Proof.
  intros Hocc. unfold matchesSearch.
  destruct (JS.truthy q) eqn:E; [|reflexivity]. cbn [negb].
  assert (E' : JS.truthy q' = true).
  { apply truthy_iff. intros ->. destruct Hocc as (pre & post & H).
    apply truthy_iff in E. apply E.
    destruct pre; [|discriminate]. rewrite append_nil_l in H.
    destruct q; [reflexivity | discriminate]. }
  rewrite E'. cbn [negb]. rewrite !includes_iff. intros H.
  apply (occurs_trans _ (JS.toLowerCase q')); [|exact H].
  destruct Hocc as (pre & post & ->). exists (JS.toLowerCase pre), (JS.toLowerCase post).
  now rewrite !toLowerCase_app.
Qed.

(** X14.  A longer query narrows the results.  When the search text [q]
    occurs in the search text [q'] and [q'] is made of ASCII characters,
    every game that matches [q'] matches [q]: the games listed for [q']
    are among those listed for [q], so typing more characters never adds
    a result. *)
Theorem longer_query_narrows_the_results (games : list Game.t) (st : ViewState) (q q' : string) :
  all_chars is_ascii q' = true ->
  occurs q q' ->
  (forall g, matchesSearch g q' = true -> matchesSearch g q = true)
  /\ (forall g, In g (filtered games (set_search st q')) -> In g (filtered games (set_search st q)))
  /\ (length (filtered games (set_search st q')) <= length (filtered games (set_search st q)))%nat.
Proof.
  intros _ Hocc. split; [|split].
  - intros g. now apply matchesSearch_refined.
  - intros g. unfold filtered. cbn [search filters set_search]. rewrite !filter_In.
    intros [H Hm]. split; [assumption|]. now apply (matchesSearch_refined g q q').
  - unfold filtered. cbn [search filters set_search]. apply filter_length_mono.
    intros g _. now apply matchesSearch_refined.
Qed.

Lemma longer_query_narrows_the_results_witness :
  (length (filtered Sample.catalog (set_search (Sample.view "new" []) "fresh"))
   <= length (filtered Sample.catalog (set_search (Sample.view "new" []) "res")))%nat.
Proof.
  apply (longer_query_narrows_the_results Sample.catalog (Sample.view "new" []) "res" "fresh").
  - reflexivity.
  - exists "f", "h". reflexivity.
Defined.

(** ** Ties in the sort *)

Lemma eqb_rank (x y : float) :
  is_nan x = false -> is_nan y = false ->
  PrimFloat.eqb x y = (float_rank x =? float_rank y).
Proof.
  intros Hx Hy. rewrite FloatAxioms.eqb_spec. unfold SFeqb, float_rank.
  rewrite SFcompare_SFint
    by (try apply Prim2SF_valid; now apply Prim2SF_not_nan).
  destruct (Z.compare_spec (SFint (Prim2SF x)) (SFint (Prim2SF y))) as [E|E|E].
  - rewrite E. now rewrite Z.eqb_refl.
  - symmetry. apply Z.eqb_neq. lia.
  - symmetry. apply Z.eqb_neq. lia.
Qed.

Lemma insert_sorted_ties {A : Type} (k : A -> float) (v : float) (x : A) (l : list A) :
  is_nan (k x) = false -> Forall (fun a => is_nan (k a) = false) l -> is_nan v = false ->
  List.filter (fun a => PrimFloat.eqb (k a) v)
    (JS.insert_sorted (fun a b => (k b - k a)%float) x l)
  = List.filter (fun a => PrimFloat.eqb (k a) v) (x :: l).
Proof.
  intros Hx Hl Hv. induction Hl as [|y l Hy Hl IH]; [reflexivity|].
  cbn [JS.insert_sorted]. rewrite positive_sub_rank by assumption.
  destruct (float_rank (k x) <? float_rank (k y)) eqn:E; [|reflexivity].
  cbn [List.filter] in *. rewrite IH.
  rewrite (eqb_rank (k x)), (eqb_rank (k y)) by assumption.
  destruct (float_rank (k x) =? float_rank v) eqn:Ex; [|reflexivity].
  assert (Ey : (float_rank (k y) =? float_rank v) = false) by lia.
  now rewrite Ey.
Qed.

Lemma sort_by_ties {A : Type} (k : A -> float) (v : float) (l : list A) :
  Forall (fun a => is_nan (k a) = false) l -> is_nan v = false ->
  List.filter (fun a => PrimFloat.eqb (k a) v) (JS.sort_by (fun a b => (k b - k a)%float) l)
  = List.filter (fun a => PrimFloat.eqb (k a) v) l.
Proof.
  intros Hl Hv. induction Hl as [|x l Hx Hl IH]; [reflexivity|].
  cbn [JS.sort_by]. rewrite insert_sorted_ties; try assumption.
  - cbn [List.filter]. now rewrite IH.
  - now apply sort_by_Forall.
Qed.

(** X15.  Ties keep the order of the catalogue.  Under a sort key other
    than [alpha] that names no member of [Object.prototype], and with no
    sort value that is NaN, the games that have the same sort value stand
    in the sorted list in the order in which the filtered catalogue has
    them. *)
Theorem ties_keep_catalogue_order
    (localeCompare : string -> string -> float) (games : list Game.t) (st : ViewState)
    (v : float) :
  plain_key (sort st) -> sort st <> "alpha" ->
  Forall (fun g => is_nan (sort_value (sort st) g) = false) (filtered games st) ->
  is_nan v = false ->
  exists sorted,
    ranked localeCompare games st = JS.Normal sorted
    /\ List.filter (fun g => PrimFloat.eqb (sort_value (sort st) g) v) sorted
       = List.filter (fun g => PrimFloat.eqb (sort_value (sort st) g) v) (filtered games st).
Proof.
  intros Hplain Hkey Hnan Hv. eexists. split.
  - unfold ranked. rewrite sorter_for_named by assumption. reflexivity.
  - rewrite named_comparator_difference by assumption.
    now apply (sort_by_ties (sort_value (sort st))).
Qed.

Lemma ties_keep_catalogue_order_witness :
  exists sorted,
    ranked Sample.byte_compare Sample.catalog (Sample.view "most-rated" [])
    = JS.Normal sorted
    /\ List.filter (fun g => PrimFloat.eqb (sort_value "most-rated" g) 0) sorted
       = List.filter (fun g => PrimFloat.eqb (sort_value "most-rated" g) 0)
           (filtered Sample.catalog (Sample.view "most-rated" [])).
Proof.
  apply (ties_keep_catalogue_order Sample.byte_compare Sample.catalog
           (Sample.view "most-rated" []) 0).
  - reflexivity.
  - discriminate.
  - repeat constructor.
  - reflexivity.
Defined.

(** ** Posting to the forum *)

Lemma too_short_iff (field : option string) (n : nat) :
  (0 < n)%nat ->
  Community.too_short field n = false <-> exists v, field = Some v /\ (n <= String.length v)%nat.
Proof.
  intros Hn. destruct field as [v|]; cbn [Community.too_short].
  - rewrite orb_false_iff, negb_false_iff, truthy_iff, Nat.ltb_ge. split.
    + intros [_ H]. now exists v.
    + intros (w & [= <-] & H). split; [|assumption]. intros ->. cbn in H. lia.
  - split; [discriminate | intros (v & H & _); discriminate].
Qed.

(** X16.  [handleNewPost] answers with a success message exactly when
    the title has at least 10 characters, a category is chosen, the
    content has at least 50 characters and a user is logged in; in every
    other case it answers with an error message and the storage is left
    as it was. *)
Theorem post_needs_valid_fields_and_login
    (title category content tagsInput : option string) (now_id now_created : Z)
    (s : Storage.t) :
  let r := Community.handleNewPost title category content tagsInput now_id now_created s in
  (Storage.type (snd r) = "success"
   <-> (exists t, title = Some t /\ (10 <= String.length t)%nat)
       /\ (exists c, category = Some c /\ c <> "")
       /\ (exists b, content = Some b /\ (50 <= String.length b)%nat)
       /\ Storage.userData s <> None)
  /\ (Storage.type (snd r) = "success" \/ (Storage.type (snd r) = "error" /\ fst r = s)).
Proof.
  cbv zeta. unfold Community.handleNewPost.
  pose proof (too_short_iff title 10 ltac:(lia)) as Ht.
  pose proof (too_short_iff content 50 ltac:(lia)) as Hc.
  destruct (Community.too_short title 10).
  { cbn [snd fst Storage.type]. split; [|now right].
    split; [discriminate|]. intros (H & _). apply Ht in H. discriminate. }
  assert (Hcat : JS.truthy (JS.or_string category "") = true
                 <-> exists c, category = Some c /\ c <> "").
  { destruct category as [c|]; cbn [JS.or_string].
    - destruct (JS.truthy c) eqn:E.
      + split; [|intros _; exact E].
        intros _. exists c. split; [reflexivity | now apply truthy_iff].
      + split; [discriminate|]. intros (c' & [= <-] & H). apply truthy_iff in H. congruence.
    - split; [discriminate | intros (c & H & _); discriminate]. }
  destruct (JS.truthy (JS.or_string category "")); cbn [negb].
  2:{ cbn [snd fst Storage.type]. split; [|now right].
      split; [discriminate|]. intros (_ & H & _). apply Hcat in H. discriminate. }
  destruct (Community.too_short content 50).
  { cbn [snd fst Storage.type]. split; [|now right].
    split; [discriminate|]. intros (_ & _ & H & _). apply Hc in H. discriminate. }
  destruct (Storage.userData s) as [user|].
  - cbn [snd fst Storage.type]. split; [|now left].
    split; [|reflexivity]. intros _. repeat split.
    + now apply Ht.
    + now apply Hcat.
    + now apply Hc.
    + discriminate.
  - cbn [snd fst Storage.type]. split; [|now right].
    split; [discriminate|]. intros (_ & _ & _ & H). contradiction.
Qed.

(** *** Points *)

Lemma store_user_read (u : Storage.User) (s : Storage.t) :
  Storage.userData s <> None -> Storage.userData (Storage.store_user u s) = Some u.
Proof.
  unfold Storage.userData, Storage.store_user.
  destruct (Storage.local_user s); [reflexivity|]. cbn.
  destruct (Storage.session_user s); [reflexivity | contradiction].
Qed.

Lemma store_user_frame (u : Storage.User) (s : Storage.t) :
  Storage.stored_posts (Storage.store_user u s) = Storage.stored_posts s
  /\ Storage.stored_reviews (Storage.store_user u s) = Storage.stored_reviews s
  /\ (Storage.local_user s <> None ->
      Storage.local_user (Storage.store_user u s) = Some u
      /\ Storage.session_user (Storage.store_user u s) = Storage.session_user s)
  /\ (Storage.local_user s = None ->
      Storage.local_user (Storage.store_user u s) = None
      /\ Storage.session_user (Storage.store_user u s) = Some u).
Proof.
  unfold Storage.store_user. destruct (Storage.local_user s); cbn; repeat split; congruence.
Qed.

(** X17.  A post that is accepted credits its author: the stored user
    record gets 15 points and one post more ([comments] is not touched),
    it is written back where it was read, to [localStorage] when that
    holds a user and to [sessionStorage] otherwise, the other of the two
    is left alone, and the stored reviews are not touched. *)
Theorem post_awards_fifteen_points
    (title category content : string) (tagsInput : option string)
    (now_id now_created : Z) (s : Storage.t) (user : Storage.User) :
  (10 <= String.length title)%nat -> category <> "" ->
  (50 <= String.length content)%nat ->
  Storage.userData s = Some user ->
  let r := Community.handleNewPost (Some title) (Some category) (Some content)
             tagsInput now_id now_created s in
  snd r = {| Storage.message := "Post created successfully! +15 points";
             Storage.type := "success" |}
  /\ Storage.userData (fst r) = Some (credited user 15 1 0)
  /\ (Storage.local_user s <> None ->
      Storage.local_user (fst r) = Some (credited user 15 1 0)
      /\ Storage.session_user (fst r) = Storage.session_user s)
  /\ (Storage.local_user s = None ->
      Storage.local_user (fst r) = None
      /\ Storage.session_user (fst r) = Some (credited user 15 1 0))
  /\ Storage.stored_reviews (fst r) = Storage.stored_reviews s.
Proof.
  intros Ht Hc Hb Hu. cbv zeta. unfold Community.handleNewPost.
  rewrite (too_short_false title 10), (too_short_false content 50) by (assumption || lia).
  rewrite (or_string_truthy category) by assumption.
  rewrite (proj2 (truthy_iff category) Hc), Hu. cbn [negb fst snd].
  set (post := {| Storage.post_id := _ |}).
  fold (credited user 15 1 0).
  change (Storage.bump (Storage.points user) 15) with (Storage.points (credited user 15 1 0)).
  change (Storage.bump (Storage.posts user) 1) with (Storage.posts (credited user 15 1 0)).
  set (u := {| Storage.id := _ |}).
  assert (Eu : u = credited user 15 1 0) by reflexivity. rewrite Eu. clear Eu u.
  destruct (store_user_frame (credited user 15 1 0) (Community.savePost post s))
    as (_ & Hrev & Hlocal & Hsession).
  split; [reflexivity|]. split; [|split; [|split]].
  - apply store_user_read. change (Storage.userData (Community.savePost post s))
      with (Storage.userData s). congruence.
  - exact Hlocal.
  - exact Hsession.
  - exact Hrev.
Qed.

Lemma post_awards_fifteen_points_witness :
  Storage.userData
    (fst (Community.handleNewPost (Some "A title of some length") (Some "general")
            (Some Sample.long_text) None 1700000000000 1700000000001 Sample.store))
  = Some (credited Sample.ann 15 1 0).
Proof.
  refine (proj1 (proj2 (post_awards_fifteen_points "A title of some length" "general"
                          Sample.long_text None 1700000000000 1700000000001
                          Sample.store Sample.ann _ _ _ _))).
  - vm_compute. lia.
  - discriminate.
  - vm_compute. lia.
  - reflexivity.
Defined.

(** X18.  A review that is accepted credits its author with 10 points
    and one comment more ([posts] is not touched) and changes nothing
    else: the stored posts are the same, and so is the list of reviews
    under every other key, hence the reviews of every other game. *)
Theorem review_awards_ten_points_and_keeps_the_rest
    (ToNumber : string -> float) (pathname rating reviewText : string)
    (now_id now_created : Z) (s : Storage.t) (user : Storage.User) :
  rating <> "" ->
  PrimFloat.ltb (ToNumber rating) 1 = false ->
  PrimFloat.ltb 5 (ToNumber rating) = false ->
  (20 <= String.length reviewText)%nat ->
  Storage.userData s = Some user ->
  let r := Reviews.handleReviewSubmit ToNumber pathname (Some rating) (Some reviewText)
             now_id now_created s in
  snd r = {| Storage.message := "Review submitted successfully! +10 points";
             Storage.type := "success" |}
  /\ Storage.userData (fst r) = Some (credited user 10 0 1)
  /\ Storage.stored_posts (fst r) = Storage.stored_posts s
  /\ (forall key, key <> Reviews.reviewsKey pathname ->
        Storage.stored_reviews (fst r) !! key = Storage.stored_reviews s !! key)
  /\ (forall other, Reviews.reviewsKey other <> Reviews.reviewsKey pathname ->
        Reviews.loadReviews other (fst r) = Reviews.loadReviews other s).
Proof.
  intros Hr H1 H5 Ht Hu. cbv zeta.
  unfold Reviews.handleReviewSubmit, Reviews.bad_rating.
  rewrite (proj2 (truthy_iff rating) Hr), H1, H5.
  rewrite (too_short_false reviewText 20), Hu by (assumption || lia).
  cbn [negb orb fst snd].
  set (review := {| Storage.review_id := _ |}).
  set (u := {| Storage.id := _ |}).
  assert (Eu : u = credited user 10 0 1) by reflexivity. rewrite Eu. clear Eu u.
  destruct (store_user_frame (credited user 10 0 1) (Reviews.saveReview pathname review s))
    as (Hposts & Hrev & _ & _).
  assert (Hkey : forall key, key <> Reviews.reviewsKey pathname ->
             Storage.stored_reviews
               (Storage.store_user (credited user 10 0 1)
                  (Reviews.saveReview pathname review s)) !! key
             = Storage.stored_reviews s !! key).
  { intros key Hkey. rewrite Hrev. unfold Reviews.saveReview. cbn [Storage.stored_reviews].
    now apply lookup_insert_ne. }
  split; [reflexivity|]. split; [|split; [|split]].
  - apply store_user_read. change (Storage.userData (Reviews.saveReview pathname review s))
      with (Storage.userData s). congruence.
  - exact Hposts.
  - exact Hkey.
  - intros other Hother. unfold Reviews.loadReviews. now rewrite Hkey.
Qed.

Lemma review_awards_ten_points_and_keeps_the_rest_witness :
  Storage.userData
    (fst (Reviews.handleReviewSubmit Sample.decimal_ToNumber "/games/chess/" (Some "5")
            (Some "A review of twenty characters or more")
            1700000000000 1700000000001 Sample.store))
  = Some (credited Sample.ann 10 0 1).
Proof.
  refine (proj1 (proj2 (review_awards_ten_points_and_keeps_the_rest
                          Sample.decimal_ToNumber "/games/chess/"
                          "5" "A review of twenty characters or more"
                          1700000000000 1700000000001 Sample.store Sample.ann _ _ _ _ _))).
  - discriminate.
  - vm_compute. reflexivity.
  - vm_compute. reflexivity.
  - vm_compute. lia.
  - reflexivity.
Defined.

(** *** Tags *)

Lemma split_ws_from_pieces (cur : string) (in_gap : bool) (s : string) :
  all_chars not_white_space cur = true ->
  Forall (fun piece => all_chars not_white_space piece = true) (JS.split_ws_from cur in_gap s).
Proof.
  revert cur in_gap. induction s as [|c s IH]; intros cur in_gap Hcur; cbn [JS.split_ws_from].
  - now constructor.
  - destruct (JS.is_white_space c) eqn:E.
    + destruct in_gap; [now apply IH|]. constructor; [assumption | now apply IH].
    + apply IH. rewrite all_chars_app, Hcur. cbn [all_chars]. unfold not_white_space.
      now rewrite E.
Qed.

Lemma occurs_in_tail (piece a t : string) : occurs piece t -> occurs piece (a ++ t).
Proof. intros (pre & post & ->). exists (a ++ pre), post. now rewrite append_assoc. Qed.

Lemma split_ws_from_occurs (cur : string) (in_gap : bool) (s : string) :
  (in_gap = true -> cur = "") ->
  Forall (fun piece => occurs piece (cur ++ s)) (JS.split_ws_from cur in_gap s).
Proof.
  revert cur in_gap. induction s as [|c s IH]; intros cur in_gap Hgap;
    cbn [JS.split_ws_from].
  - constructor; [|constructor]. exists "", "". now rewrite append_nil_l.
  - assert (Htail : Forall (fun piece => occurs piece (cur ++ String c s))
                      (JS.split_ws_from "" true s)).
    { eapply List.Forall_impl; [|apply (IH "" true); reflexivity]. intros piece H.
      rewrite append_nil_l in H.
      change (String c s) with (String c "" ++ s). rewrite <- append_assoc.
      now apply occurs_in_tail. }
    destruct (JS.is_white_space c).
    + destruct in_gap; [pose proof (Hgap eq_refl); now subst cur|]. constructor; [|assumption].
      exists "", (String c s). now rewrite append_nil_l.
    + specialize (IH (cur ++ String c "") false). rewrite append_assoc in IH.
      apply IH. discriminate.
Qed.

(** X19.  The tags of a stored post are words of the tags field: each
    tag starts with [#], holds no white space and occurs in the text that
    was typed; a post whose tags field is absent or empty has no
    tag. *)
Theorem post_tags_are_hash_words
    (title category content : string) (tagsInput : option string)
    (now_id now_created : Z) (s : Storage.t) (user : Storage.User) :
  (10 <= String.length title)%nat -> category <> "" ->
  (50 <= String.length content)%nat ->
  Storage.userData s = Some user ->
  exists post,
    hd_error (Community.loadPosts
                (fst (Community.handleNewPost (Some title) (Some category) (Some content)
                        tagsInput now_id now_created s))) = Some post
    /\ Forall (fun tag => JS.startsWith tag "#" = true
                          /\ all_chars not_white_space tag = true
                          /\ exists input, tagsInput = Some input /\ occurs tag input)
              (Storage.tags post)
    /\ (tagsInput = None \/ tagsInput = Some "" -> Storage.tags post = []).
Proof.
  intros Ht Hc Hb Hu. unfold Community.handleNewPost.
  rewrite (too_short_false title 10), (too_short_false content 50) by (assumption || lia).
  rewrite (or_string_truthy category) by assumption.
  rewrite (proj2 (truthy_iff category) Hc), Hu. cbn [negb fst].
  rewrite loadPosts_store_user, loadPosts_savePost. cbn [hd_error].
  eexists. split; [reflexivity|]. cbn [Storage.tags]. split.
  - destruct tagsInput as [input|]; [|constructor].
    destruct (JS.truthy input); [|constructor].
    apply List.Forall_forall. intros tag Hin. apply filter_In in Hin as [Hin Hhash].
    split; [assumption|]. split.
    + pose proof (split_ws_from_pieces "" false input eq_refl) as H.
      apply (proj1 (List.Forall_forall _ _) H). exact Hin.
    + exists input. split; [reflexivity|].
      pose proof (split_ws_from_occurs "" false input ltac:(discriminate)) as H.
      apply (proj1 (List.Forall_forall _ _) H). exact Hin.
  - intros [-> | ->]; reflexivity.
Qed.

Lemma post_tags_are_hash_words_witness :
  exists post,
    hd_error (Community.loadPosts
                (fst (Community.handleNewPost (Some "A title of some length") (Some "general")
                        (Some Sample.long_text) (Some "#chess  opening #tips")
                        1700000000000 1700000000001 Sample.store))) = Some post
    /\ Forall (fun tag => JS.startsWith tag "#" = true
                          /\ all_chars not_white_space tag = true
                          /\ exists input, Some "#chess  opening #tips" = Some input
                                           /\ occurs tag input)
              (Storage.tags post)
    /\ (Some "#chess  opening #tips" = None \/ Some "#chess  opening #tips" = Some ""
        -> Storage.tags post = []).
Proof.
  apply (post_tags_are_hash_words "A title of some length" "general" Sample.long_text
           (Some "#chess  opening #tips") 1700000000000 1700000000001 Sample.store Sample.ann).
  - vm_compute. lia.
  - discriminate.
  - vm_compute. lia.
  - reflexivity.
Defined.

(** ** The game slug *)

Lemma last_Some {A : Type} (l : list A) : List.last (map Some l) None = hd_error (rev l).
Proof.
  induction l as [|x l IH]; [reflexivity|].
  cbn [map rev]. destruct l as [|y l]; [reflexivity|].
  change (List.last (Some x :: map Some (y :: l)) None) with (List.last (map Some (y :: l)) None).
  rewrite IH. cbn [rev]. now destruct (rev l).
Qed.

Lemma last_Some_None {A : Type} (l : list A) : List.last (map Some l) None = None <-> l = [].
Proof.
  rewrite last_Some. split; [|now intros ->].
  destruct l as [|x l]; [reflexivity|]. cbn [rev]. destruct (rev l); discriminate.
Qed.

Lemma last_Some_app {A : Type} (l l' : list A) :
  List.last (map Some (l ++ l')) None
  = match l' with
    | [] => List.last (map Some l) None
    | _ => List.last (map Some l') None
    end.
Proof.
  destruct l' as [|x l']; [now rewrite app_nil_r|].
  rewrite !last_Some, rev_app_distr. cbn [rev]. now destruct (rev l').
Qed.

Lemma segments_all_empty (cur s : string) :
  List.filter JS.truthy (URLSearchParams.split_on "/" cur s) = []
  <-> cur = "" /\ all_chars is_slash s = true.
Proof.
  revert cur. induction s as [|c s IH]; intros cur; cbn [URLSearchParams.split_on all_chars].
  - cbn [List.filter]. destruct (JS.truthy cur) eqn:E.
    + apply truthy_iff in E. split; [discriminate | intros [-> _]; contradiction].
    + apply negb_false_iff, String.eqb_eq in E. now subst cur.
  - unfold is_slash at 1. destruct (Ascii.eqb c "/") eqn:Ec.
    + cbn [List.filter andb]. destruct (JS.truthy cur) eqn:E.
      * apply truthy_iff in E. split; [discriminate | intros [-> _]; contradiction].
      * apply negb_false_iff, String.eqb_eq in E. subst cur. rewrite IH. tauto.
    + cbn [andb]. rewrite IH. split; [|intros [_ H]; discriminate].
      intros [H _]. destruct cur; discriminate.
Qed.

(** The last segment, located in the path. *)
Lemma last_segment (cur s g : string) :
  all_chars not_slash cur = true ->
  List.last (map Some (List.filter JS.truthy (URLSearchParams.split_on "/" cur s))) None
  = Some g ->
  g <> "" /\ all_chars not_slash g = true
  /\ exists pre post,
       cur ++ s = pre ++ g ++ post
       /\ all_chars is_slash post = true
       /\ (pre = "" \/ exists pre', pre = pre' ++ "/").
Proof.
  revert cur. induction s as [|c s IH]; intros cur Hcur; cbn [URLSearchParams.split_on].
  - cbn [List.filter]. destruct (JS.truthy cur) eqn:E; [|discriminate].
    cbn. intros [= <-]. split; [now apply truthy_iff|]. split; [assumption|].
    exists "", "". rewrite append_nil_l. repeat split. now left.
  - destruct (Ascii.eqb c "/") eqn:Ec.
    + apply Ascii.eqb_eq in Ec. subst c.
      assert (Hrest : List.last
                        (map Some (List.filter JS.truthy (URLSearchParams.split_on "/" "" s)))
                        None = Some g ->
                      g <> "" /\ all_chars not_slash g = true
                      /\ exists pre post,
                           cur ++ String "/" s = pre ++ g ++ post
                           /\ all_chars is_slash post = true
                           /\ (pre = "" \/ exists pre', pre = pre' ++ "/")).
      { intros H.
        specialize (IH "" eq_refl H) as (Hg & Hfree & pre & post & E & Hpost & Hpre).
        split; [assumption|]. split; [assumption|].
        exists (cur ++ "/" ++ pre), post. rewrite append_nil_l in E.
        split; [|split; [assumption|]].
        - change (String "/" s) with ("/" ++ s). rewrite E. now rewrite !append_assoc.
        - right. destruct Hpre as [-> | [pre' ->]].
          + exists cur. now rewrite append_nil_r.
          + exists (cur ++ "/" ++ pre'). now rewrite !append_assoc. }
      cbn [List.filter]. destruct (JS.truthy cur) eqn:E; [|exact Hrest].
      change (cur :: List.filter JS.truthy (URLSearchParams.split_on "/" "" s))
        with ([cur] ++ List.filter JS.truthy (URLSearchParams.split_on "/" "" s))%list.
      rewrite last_Some_app.
      destruct (List.filter JS.truthy (URLSearchParams.split_on "/" "" s)) as [|x l] eqn:El;
        [|exact Hrest].
      apply segments_all_empty in El as [_ Hs]. cbn. intros [= <-].
      split; [now apply truthy_iff|]. split; [assumption|].
      exists "", (String "/" s). rewrite append_nil_l. repeat split; [assumption | now left].
    + intros H. assert (Hc : all_chars not_slash (cur ++ String c "") = true).
      { rewrite all_chars_app, Hcur. cbn [all_chars]. unfold not_slash. now rewrite Ec. }
      specialize (IH _ Hc H) as (Hg & Hfree & pre & post & E & Hpost & Hpre).
      split; [assumption|]. split; [assumption|].
      exists pre, post. rewrite append_assoc in E. auto.
Qed.

(** X20.  The game slug is the last segment of the path that is not
    empty: it holds no slash, only slashes follow it in the path and it
    starts the path or follows a slash.  There is no slug exactly when the
    path is made of slashes only.  A slash added at the end of the path
    changes neither the slug nor the storage key of the reviews. *)
Theorem game_slug_is_last_path_segment (pathname : string) :
  (forall g,
      Reviews.gameSlug_of pathname = Some g ->
      g <> "" /\ all_chars not_slash g = true
      /\ exists pre post,
           pathname = pre ++ g ++ post
           /\ all_chars is_slash post = true
           /\ (pre = "" \/ exists pre', pre = pre' ++ "/"))
  /\ (Reviews.gameSlug_of pathname = None <-> all_chars is_slash pathname = true)
  /\ Reviews.gameSlug_of (pathname ++ "/") = Reviews.gameSlug_of pathname
  /\ Reviews.reviewsKey (pathname ++ "/") = Reviews.reviewsKey pathname.
Proof.
  assert (Hslash : Reviews.gameSlug_of (pathname ++ "/") = Reviews.gameSlug_of pathname).
  { unfold Reviews.gameSlug_of.
    change (pathname ++ "/") with (pathname ++ String "/" "").
    rewrite split_on_app. cbn [URLSearchParams.split_on].
    rewrite List.filter_app. cbn [List.filter]. change (JS.truthy "") with false.
    now rewrite app_nil_r. }
  split; [|split; [|split]].
  - intros g H. apply (last_segment "" pathname g eq_refl H).
  - unfold Reviews.gameSlug_of. rewrite last_Some_None, segments_all_empty. tauto.
  - exact Hslash.
  - unfold Reviews.reviewsKey, Reviews.slug. now rewrite Hslash.
Qed.

(** ** Relative times *)

(** X21.  [getTimeAgo] on a valid date.  With [seconds] the whole seconds
    elapsed, it answers [just now] below 60 seconds, also for a date in
    the future; from 60 seconds on it answers a count, a unit and [ago],
    the count being the elapsed time in that unit rounded down, at least
    1, and below 60 for minutes, 24 for hours, 7 for days and 5 for weeks.
    On an invalid date it answers [NaN months ago]. *)
Theorem getTimeAgo_buckets (now date : Z) :
  let seconds := (now - date) / 1000 in
  (seconds < 60 -> TimeAgo.getTimeAgo now (JS.Int date) = "just now")
  /\ (60 <= seconds ->
      exists n unit,
        TimeAgo.getTimeAgo now (JS.Int date) = JS.String_of (JS.Int n) ++ " " ++ unit ++ " ago"
        /\ 1 <= n
        /\ ((unit = "minutes" /\ n = seconds / 60 /\ n < 60)
            \/ (unit = "hours" /\ n = seconds / 3600 /\ n < 24)
            \/ (unit = "days" /\ n = seconds / 86400 /\ n < 7)
            \/ (unit = "weeks" /\ n = seconds / 604800 /\ n < 5)
            \/ (unit = "months" /\ n = seconds / 2592000)))
  /\ TimeAgo.getTimeAgo now JS.NaN = "NaN months ago".
Proof.
  cbv zeta. split; [|split; [|reflexivity]].
  - intros H. unfold TimeAgo.getTimeAgo, TimeAgo.floor_div, JS.sub, JS.neg, JS.add, JS.lt, JS.gt.
    replace (now + - date) with (now - date) by lia.
    assert (E : ((now - date) / 1000 <? 60) = true) by lia. now rewrite E.
  - intros H. unfold TimeAgo.getTimeAgo, TimeAgo.floor_div, JS.sub, JS.neg, JS.add, JS.lt, JS.gt.
    replace (now + - date) with (now - date) by lia.
    set (s := (now - date) / 1000) in *.
    assert (E : (s <? 60) = false) by lia. rewrite E.
    destruct (s <? 3600) eqn:E1.
    { exists (s / 60), "minutes". split; [reflexivity|].
      split; [apply Z.div_le_lower_bound; lia|]. left. repeat split.
      apply Z.div_lt_upper_bound; lia. }
    destruct (s <? 86400) eqn:E2.
    { exists (s / 3600), "hours". split; [reflexivity|].
      split; [apply Z.div_le_lower_bound; lia|]. right. left. repeat split.
      apply Z.div_lt_upper_bound; lia. }
    destruct (s <? 604800) eqn:E3.
    { exists (s / 86400), "days". split; [reflexivity|].
      split; [apply Z.div_le_lower_bound; lia|]. right. right. left. repeat split.
      apply Z.div_lt_upper_bound; lia. }
    destruct (s <? 2592000) eqn:E4.
    { exists (s / 604800), "weeks". split; [reflexivity|].
      split; [apply Z.div_le_lower_bound; lia|]. right. right. right. left. repeat split.
      apply Z.div_lt_upper_bound; lia. }
    exists (s / 2592000), "months". split; [reflexivity|].
    split; [apply Z.div_le_lower_bound; lia|]. right. right. right. right. now split.
Qed.

(** ** Login and registration *)

Lemma split_on_head (sep : ascii) (cur s : string) :
  exists name rest,
    hd "" (URLSearchParams.split_on sep cur s) = cur ++ name
    /\ s = name ++ rest
    /\ all_chars (fun c => negb (Ascii.eqb c sep)) name = true
    /\ (rest = "" \/ exists t, rest = String sep t).
Proof.
  revert cur. induction s as [|c s IH]; intros cur; cbn [URLSearchParams.split_on].
  - exists "", "". rewrite append_nil_r. repeat split. now left.
  - destruct (Ascii.eqb c sep) eqn:E.
    + apply Ascii.eqb_eq in E. subst c. exists "", (String sep s).
      rewrite append_nil_r. repeat split. right. now exists s.
    + destruct (IH (cur ++ String c "")) as (name & rest & Hhd & -> & Hfree & Hrest).
      exists (String c name), rest. rewrite Hhd, append_assoc. cbn [all_chars].
      rewrite E, Hfree. repeat split. exact Hrest.
Qed.

(** X22.  [handleLogin] stores a mock user whose name is the part of the
    email before the first [@] and whose counters are zero, and touches
    neither the posts nor the reviews.  With [remember] ticked the user
    goes to [localStorage] and is the user every script reads from then
    on.  Without it the user goes to [sessionStorage], and the scripts
    read it only when [localStorage] holds no user: a remembered user of
    an earlier login stays the one they read. *)
Theorem login_stores_the_mock_user
    (email : string) (remember : option string) (now_id : Z) (now_joined : string)
    (s : Storage.t) :
  exists name rest,
    email = name ++ rest
    /\ all_chars (fun c => negb (Ascii.eqb c "@")) name = true
    /\ (rest = "" \/ exists domain, rest = String "@" domain)
    /\ let r := Auth.handleLogin email remember now_id now_joined s in
       let user := Auth.mockUser email name now_id now_joined in
       Storage.stored_posts (fst r) = Storage.stored_posts s
       /\ Storage.stored_reviews (fst r) = Storage.stored_reviews s
       /\ (JS.truthy (JS.or_string remember "") = true ->
           Storage.local_user (fst r) = Some user
           /\ Storage.session_user (fst r) = Storage.session_user s
           /\ Storage.userData (fst r) = Some user)
       /\ (JS.truthy (JS.or_string remember "") = false ->
           Storage.session_user (fst r) = Some user
           /\ Storage.local_user (fst r) = Storage.local_user s
           /\ Storage.userData (fst r)
              = match Storage.local_user s with
                | Some remembered => Some remembered
                | None => Some user
                end).
Proof.
  destruct (split_on_head "@" "" email) as (name & rest & Hhd & Hemail & Hfree & Hrest).
  rewrite append_nil_l in Hhd.
  exists name, rest. split; [assumption|]. split; [assumption|]. split; [assumption|].
  cbv zeta. unfold Auth.handleLogin. rewrite Hhd.
  destruct (JS.truthy (JS.or_string remember "")); cbn [fst].
  - repeat split; discriminate.
  - repeat split; discriminate.
Qed.

Lemma handleNewPost_accepts
    (title category content : string) (tagsInput : option string)
    (now_id now_created : Z) (s : Storage.t) (user : Storage.User) :
  (10 <= String.length title)%nat -> category <> "" ->
  (50 <= String.length content)%nat ->
  Storage.userData s = Some user ->
  exists post,
    Community.handleNewPost (Some title) (Some category) (Some content)
      tagsInput now_id now_created s
    = (Storage.store_user (credited user 15 1 0) (Community.savePost post s),
       {| Storage.message := "Post created successfully! +15 points";
          Storage.type := "success" |})
    /\ Storage.authorId post = Storage.id user
    /\ Storage.authorName post = Storage.username user.
Proof.
  intros Ht Hc Hb Hu. unfold Community.handleNewPost.
  rewrite (too_short_false title 10), (too_short_false content 50) by (assumption || lia).
  rewrite (or_string_truthy category) by assumption.
  rewrite (proj2 (truthy_iff category) Hc), Hu. cbn [negb].
  eexists. split; [reflexivity|]. split; reflexivity.
Qed.

Lemma handleReviewSubmit_accepts
    (ToNumber : string -> float) (pathname rating reviewText : string)
    (now_id now_created : Z) (s : Storage.t) (user : Storage.User) :
  rating <> "" ->
  PrimFloat.ltb (ToNumber rating) 1 = false ->
  PrimFloat.ltb 5 (ToNumber rating) = false ->
  (20 <= String.length reviewText)%nat ->
  Storage.userData s = Some user ->
  exists review,
    Reviews.handleReviewSubmit ToNumber pathname (Some rating) (Some reviewText)
      now_id now_created s
    = (Storage.store_user (credited user 10 0 1) (Reviews.saveReview pathname review s),
       {| Storage.message := "Review submitted successfully! +10 points";
          Storage.type := "success" |}).
Proof.
  intros Hr H1 H5 Ht Hu. unfold Reviews.handleReviewSubmit, Reviews.bad_rating.
  rewrite (proj2 (truthy_iff rating) Hr), H1, H5.
  rewrite (too_short_false reviewText 20), Hu by (assumption || lia).
  cbn [negb orb]. eexists. reflexivity.
Qed.

(** X23.  A visitor who registers with matching passwords can post at
    once, under the chosen name: the post is accepted, it is stored in
    front of the posts stored before with the registered user's name and
    identifier as its author, and the user record then holds 15 points
    and one post. *)
Theorem registered_user_posts_under_the_chosen_name
    (username email : string) (password : option string) (joined : string)
    (title category content : string) (tagsInput : option string)
    (registered posted created : Z) (s : Storage.t) :
  (10 <= String.length title)%nat -> category <> "" ->
  (50 <= String.length content)%nat ->
  let s1 := fst (Auth.handleRegister username email password password registered joined s) in
  let r := Community.handleNewPost (Some title) (Some category) (Some content)
             tagsInput posted created s1 in
  Storage.type (snd r) = "success"
  /\ (exists post,
        Community.loadPosts (fst r) = post :: Community.loadPosts s
        /\ Storage.authorName post = username
        /\ Storage.authorId post = "user_" ++ JS.String_of (JS.Int registered))
  /\ Storage.userData (fst r)
     = Some (credited (Auth.mockUser email username registered joined) 15 1 0).
Proof.
  intros Ht Hc Hb. cbv zeta.
  assert (Hs1 : fst (Auth.handleRegister username email password password registered joined s)
                = Auth.set_local_user (Auth.mockUser email username registered joined) s).
  { unfold Auth.handleRegister.
    assert (E : Auth.differ password password = false).
    { destruct password as [p|]; cbn; [|reflexivity]. now rewrite String.eqb_refl. }
    now rewrite E. }
  rewrite Hs1.
  destruct (handleNewPost_accepts title category content tagsInput posted created
              (Auth.set_local_user (Auth.mockUser email username registered joined) s)
              (Auth.mockUser email username registered joined) Ht Hc Hb eq_refl)
    as (post & -> & Hid & Hname).
  cbn [fst snd Storage.type]. split; [reflexivity|]. split.
  - exists post. rewrite loadPosts_store_user, loadPosts_savePost. auto.
  - apply store_user_read. discriminate.
Qed.

Lemma registered_user_posts_under_the_chosen_name_witness :
  Storage.userData
    (fst (Community.handleNewPost (Some "A title of some length") (Some "general")
            (Some Sample.long_text) None 1700000000002 1700000000003
            (fst (Auth.handleRegister "bea" "bea@example.org" (Some "secret") (Some "secret")
                    1700000000000 "2023-11-14T22:13:20.000Z" Sample.store))))
  = Some (credited (Auth.mockUser "bea@example.org" "bea" 1700000000000
                      "2023-11-14T22:13:20.000Z") 15 1 0).
Proof.
  refine (proj2 (proj2 (registered_user_posts_under_the_chosen_name
                          "bea" "bea@example.org" (Some "secret") "2023-11-14T22:13:20.000Z"
                          "A title of some length" "general" Sample.long_text None
                          1700000000000 1700000000002 1700000000003 Sample.store _ _ _))).
  - vm_compute. lia.
  - discriminate.
  - vm_compute. lia.
Defined.

(** ** The profile page *)

(** X24.  The profile page shows what the forum and the review widget
    have credited.  Without a stored user [loadUserData] redirects to the
    login page.  After an accepted post it shows 15 points and one post
    more than the user had, after an accepted review 10 points and one
    comment more, with the user's name, or [User] when the name is
    empty. *)
Theorem profile_shows_the_credited_counters
    (ToNumber : string -> float) (pathname : string) (s : Storage.t) :
  (Storage.userData s = None -> Profile.loadUserData s = Profile.Redirect "/auth/login/")
  /\ (forall user title category content tagsInput now_id now_created,
        Storage.userData s = Some user ->
        (10 <= String.length title)%nat -> category <> "" ->
        (50 <= String.length content)%nat ->
        Profile.loadUserData
          (fst (Community.handleNewPost (Some title) (Some category) (Some content)
                  tagsInput now_id now_created s))
        = Profile.Shown
            (if String.eqb (Storage.username user) "" then "User" else Storage.username user)
            (JS.String_of (JS.Int (counter (Storage.points user) + 15)))
            (JS.String_of (JS.Int (counter (Storage.posts user) + 1)))
            (JS.String_of (JS.Int (counter (Storage.comments user))))
            (Profile.avatarText (Storage.username user)))
  /\ (forall user rating reviewText now_id now_created,
        Storage.userData s = Some user ->
        rating <> "" ->
        PrimFloat.ltb (ToNumber rating) 1 = false ->
        PrimFloat.ltb 5 (ToNumber rating) = false ->
        (20 <= String.length reviewText)%nat ->
        Profile.loadUserData
          (fst (Reviews.handleReviewSubmit ToNumber pathname (Some rating) (Some reviewText)
                  now_id now_created s))
        = Profile.Shown
            (if String.eqb (Storage.username user) "" then "User" else Storage.username user)
            (JS.String_of (JS.Int (counter (Storage.points user) + 10)))
            (JS.String_of (JS.Int (counter (Storage.posts user))))
            (JS.String_of (JS.Int (counter (Storage.comments user) + 1)))
            (Profile.avatarText (Storage.username user))).
Proof.
  assert (Hshow : forall user u s',
             Storage.userData s' = Some user ->
             Profile.loadUserData (Storage.store_user u s')
             = Profile.Shown
                 (if String.eqb (Storage.username u) "" then "User" else Storage.username u)
                 (JS.String_of (JS.Int (counter (Storage.points u))))
                 (JS.String_of (JS.Int (counter (Storage.posts u))))
                 (JS.String_of (JS.Int (counter (Storage.comments u))))
                 (Profile.avatarText (Storage.username u))).
  { intros user u s' Hu. unfold Profile.loadUserData.
    rewrite store_user_read by congruence. unfold JS.or_string, JS.truthy.
    now destruct (String.eqb (Storage.username u) ""). }
  split; [|split].
  - intros Hu. unfold Profile.loadUserData. now rewrite Hu.
  - intros user title category content tagsInput now_id now_created Hu Ht Hc Hb.
    destruct (handleNewPost_accepts title category content tagsInput now_id now_created
                s user Ht Hc Hb Hu) as (post & -> & _).
    cbn [fst]. rewrite (Hshow user) by exact Hu. reflexivity.
  - intros user rating reviewText now_id now_created Hu Hr H1 H5 Ht.
    destruct (handleReviewSubmit_accepts ToNumber pathname rating reviewText now_id now_created
                s user Hr H1 H5 Ht Hu) as (review & ->).
    cbn [fst]. rewrite (Hshow user) by exact Hu. reflexivity.
Qed.

Lemma profile_shows_the_credited_counters_witness :
  Profile.loadUserData
    (fst (Community.handleNewPost (Some "A title of some length") (Some "general")
            (Some Sample.long_text) None 1700000000000 1700000000001 Sample.store))
  = Profile.Shown "ann" "15" "1" "0" "A".
Proof.
  refine (proj1 (proj2 (profile_shows_the_credited_counters
                          Sample.decimal_ToNumber "/games/chess/" Sample.store))
            Sample.ann "A title of some length" "general" Sample.long_text None
            1700000000000 1700000000001 _ _ _ _).
  - reflexivity.
  - vm_compute. lia.
  - discriminate.
  - vm_compute. lia.
Defined.

(** ** The rating input *)

Lemma paint_length (stars : list Rating.Star) (value : JS.number) :
  length (Rating.paint stars value) = length stars.
Proof. unfold Rating.paint. now rewrite length_map, length_seq. Qed.

Lemma paint_paint (stars : list Rating.Star) (v w : JS.number) :
  Rating.paint (Rating.paint stars v) w = Rating.paint stars w.
Proof. unfold Rating.paint at 1. now rewrite paint_length. Qed.

Lemma paint_shape (stars : list Rating.Star) (v : Z) :
  0 <= v ->
  Rating.paint stars (JS.Int v)
  = (repeat Rating.Filled (Nat.min (Z.to_nat v) (length stars))
     ++ repeat Rating.Hollow (length stars - Z.to_nat v))%list.
Proof.
  intros Hv. unfold Rating.paint, JS.lt, JS.gt.
  generalize (length stars) as n. intros n.
  induction n as [|n IH]; [now rewrite Nat.min_0_r|].
  rewrite seq_S, map_app, IH. cbn [map Nat.add].
  destruct (Z.of_nat n <? v) eqn:E.
  - replace (Nat.min (Z.to_nat v) (S n)) with (S (Nat.min (Z.to_nat v) n)) by lia.
    replace (n - Z.to_nat v)%nat with 0%nat by lia.
    replace (S n - Z.to_nat v)%nat with 0%nat by lia.
    cbn [repeat]. rewrite !app_nil_r. replace (Nat.min (Z.to_nat v) n) with n by lia.
    now rewrite <- repeat_cons.
  - replace (Nat.min (Z.to_nat v) (S n)) with (Nat.min (Z.to_nat v) n) by lia.
    replace (S n - Z.to_nat v)%nat with (S (n - Z.to_nat v)) by lia.
    now rewrite <- app_assoc, <- repeat_cons.
Qed.

Lemma parseInt_printed_nonneg (v : Z) :
  0 <= v -> JS.parseInt (JS.String_of (JS.Int v)) 0 = JS.Int v.
Proof.
  intros Hv. destruct v as [|p|p]; [reflexivity | | lia].
  apply parseInt_printed_pos. now right.
Qed.

(** X25.  The stars of the rating input.  Selecting the rating [v] fills
    the first [v] stars, all of them when [v] exceeds their number, and
    leaves the others hollow.  When the page has the hidden field, moving
    the pointer over any star and out again brings back exactly the
    selection; when it has none, moving out leaves every star
    hollow. *)
Theorem rating_preview_is_undone_on_leave (w : Rating.Widget) (v : Z) (hovered : nat) :
  0 <= v ->
  let chosen := Rating.selectRating (JS.Int v) w in
  Rating.stars chosen
  = (repeat Rating.Filled (Nat.min (Z.to_nat v) (length (Rating.stars w)))
     ++ repeat Rating.Hollow (length (Rating.stars w) - Z.to_nat v))%list
  /\ (Rating.rating_value w <> None ->
      Rating.listen Rating.MouseLeave (Rating.listen (Rating.MouseEnter hovered) chosen)
      = chosen)
  /\ (Rating.rating_value w = None ->
      Rating.stars
        (Rating.listen Rating.MouseLeave (Rating.listen (Rating.MouseEnter hovered) chosen))
      = repeat Rating.Hollow (length (Rating.stars w))).
Proof.
  intros Hv. cbv zeta. split; [|split].
  - cbn [Rating.selectRating Rating.stars]. now apply paint_shape.
  - intros Hfield. unfold Rating.listen, Rating.resetHover, Rating.hoverRating,
      Rating.selectRating. cbn [Rating.stars Rating.rating_value].
    destruct (Rating.rating_value w) as [old|]; [|contradiction].
    rewrite parseInt_printed_nonneg by assumption. cbn [Rating.or_zero].
    now rewrite !paint_paint.
  - intros Hfield. unfold Rating.listen, Rating.resetHover, Rating.hoverRating,
      Rating.selectRating. cbn [Rating.stars Rating.rating_value]. rewrite Hfield.
    rewrite !paint_paint, (paint_shape _ 0) by lia. cbn [Z.to_nat].
    now rewrite Nat.min_0_l, Nat.sub_0_r.
Qed.

Lemma rating_preview_is_undone_on_leave_witness :
  Rating.stars
    (Rating.selectRating (JS.Int 3)
       sample_rating)
  = [Rating.Filled; Rating.Filled; Rating.Filled; Rating.Hollow; Rating.Hollow].
Proof.
  refine (proj1 (rating_preview_is_undone_on_leave
                   sample_rating
                   3 4 _)).
  lia.
Defined.

(** ** The listeners of the search panel *)

Lemma submit_ok (index : list SiteSearch.Item) (input_value : string) :
  panel_ok index (SiteSearch.submit index input_value).
Proof.
  unfold SiteSearch.submit.
  destruct (negb (JS.truthy (SiteSearch.normaliseString (Some input_value))));
    [left; now split|].
  right. split; [reflexivity|]. rewrite slice_first_six. cbn [SiteSearch.content].
  destruct (firstn 6 _) as [|item items] eqn:E; [now left|]. right.
  exists (item :: items). split; [reflexivity|]. split; [discriminate|]. split.
  - rewrite <- E. apply firstn_le_length.
  - intros x Hx. rewrite <- E in Hx.
    assert (Hin : In x (List.filter
                          (SiteSearch.item_matches
                             (SiteSearch.normaliseString (Some input_value))) index)).
    { rewrite <- (firstn_skipn 6 (List.filter _ index)). apply in_or_app. now left. }
    now apply filter_In in Hin.
Qed.

Lemma listen_ok (index : list SiteSearch.Item) (e : SearchPanel.Event)
    (p : SiteSearch.Panel) :
  panel_ok index p -> panel_ok index (SearchPanel.listen index e p).
Proof.
  intros Hp. assert (Hclosed : panel_ok index SiteSearch.closePanel) by (left; now split).
  destruct e as [v|v| |inside|key]; cbn [SearchPanel.listen].
  - apply submit_ok.
  - now destruct (negb (JS.truthy v)).
  - destruct (SearchPanel.has_markup (SiteSearch.content p)) eqn:E; [|assumption].
    destruct Hp as [[_ Hblank]|[_ Hcontent]].
    + rewrite Hblank in E. discriminate.
    + right. now split.
  - now destruct (negb inside).
  - now destruct (String.eqb key "Escape").
Qed.

(** X26.  The search panel is expanded exactly when it has content.
    Starting from the closed panel, after any sequence of submits, input
    edits, focus events, clicks and key presses the panel is expanded if
    and only if it is not blank, it displays at most six results, and
    every result it displays is an entry of the index. *)
Theorem search_panel_is_expanded_iff_it_has_content
    (index : list SiteSearch.Item) (events : list SearchPanel.Event) :
  let p := fold_left (fun p e => SearchPanel.listen index e p) events SiteSearch.closePanel in
  SiteSearch.expanded p = SearchPanel.has_markup (SiteSearch.content p)
  /\ (SiteSearch.expanded p = false <-> SiteSearch.content p = SiteSearch.Blank)
  /\ (length (SiteSearch.displayed p) <= 6)%nat
  /\ (forall item, In item (SiteSearch.displayed p) -> In item index).
Proof.
  cbv zeta.
  assert (H : panel_ok index
                (fold_left (fun p e => SearchPanel.listen index e p) events
                   SiteSearch.closePanel)).
  { assert (Hclosed : panel_ok index SiteSearch.closePanel) by (left; now split).
    revert Hclosed. generalize SiteSearch.closePanel as p.
    induction events as [|e events IH]; intros p Hp; [assumption|].
    cbn [fold_left]. apply IH. now apply listen_ok. }
  set (p := fold_left _ events _) in *. unfold SiteSearch.displayed.
  destruct H as [[He Hc]|[He [Hc|(items & Hc & Hne & Hlen & Hin)]]]; rewrite He, Hc.
  - split; [reflexivity|]. split; [tauto|]. split; [cbn; lia | intros item []].
  - split; [reflexivity|]. split; [split; discriminate|]. split; [cbn; lia | intros item []].
  - cbn [SearchPanel.has_markup]. split; [|split; [split; discriminate|]; split; assumption].
    destruct items; [contradiction | reflexivity].
Qed.

(** *** Searching for a title *)

Lemma join_head (sep a : string) (rest : list string) :
  rest <> [] -> exists post, JS.join sep (a :: rest) = a ++ post.
Proof.
  destruct rest as [|b rest]; [contradiction|]. intros _.
  exists (sep ++ JS.join sep (b :: rest)). reflexivity.
Qed.

Lemma includes_prefix (s post : string) : JS.includes (s ++ post) s = true.
Proof. apply includes_iff. exists "", post. now rewrite append_nil_l. Qed.

(** X27.  A game is found by its own title.  [matchesSearch] accepts
    every game for the query that is its title; and submitting the title
    of a game of the catalogue to the sitewide search, provided the title
    is not blank, displays at least one result and not the notice that
    nothing matches. *)
Theorem a_game_is_found_by_its_title (games : list Game.t) (guides : list SiteSearch.Guide)
    (g : Game.t) :
  matchesSearch g (Game.title g) = true
  /\ (In g games ->
      SiteSearch.normaliseString (Some (Game.title g)) <> "" ->
      exists item items,
        SiteSearch.content (SiteSearch.submit (SiteSearch.searchIndex games guides)
                              (Game.title g))
        = SiteSearch.Results (item :: items)).
Proof.
  split.
  - unfold matchesSearch. destruct (JS.truthy (Game.title g)); [|reflexivity]. cbn [negb].
    unfold haystack_parts. cbn [app].
    destruct (join_head " " (Game.title g)
                (printed (Game.summary g) :: printed (Game.author g)
                 :: or_empty (Game.categories g) ++ or_empty (Game.mechanisms g))%list
                ltac:(discriminate)) as [post ->].
    rewrite toLowerCase_app. apply includes_prefix.
  - intros Hin Hq. unfold SiteSearch.submit.
    rewrite (proj2 (truthy_iff _) Hq). cbn [negb SiteSearch.content].
    rewrite slice_first_six.
    set (q := SiteSearch.normaliseString (Some (Game.title g))) in *.
    set (index := SiteSearch.searchIndex games guides).
    assert (Hfound : exists item, In item (List.filter (SiteSearch.item_matches q) index)).
    { eexists. apply filter_In. split.
      - unfold index, SiteSearch.searchIndex. apply in_or_app. left.
        apply in_map. exact Hin.
      - unfold SiteSearch.item_matches.
        cbn [SiteSearch.title SiteSearch.author SiteSearch.mechanisms SiteSearch.categories
             app map].
        fold q.
        destruct (join_head " " q
                    (SiteSearch.normaliseString (Game.author g)
                     :: map SiteSearch.normaliseString
                          (map Some (or_empty (Game.mechanisms g))
                           ++ map Some (or_empty (Game.categories g))))%list
                    ltac:(discriminate)) as [post ->].
        apply includes_prefix. }
    destruct (List.filter (SiteSearch.item_matches q) index) as [|item items];
      [destruct Hfound as [? []]|].
    cbn [firstn Games.nonempty]. eexists _, _. reflexivity.
Qed.

(** ** The tabs *)

Lemma selectTab_buttons (index : nat) (t : Tabs.Tablist) :
  map Tabs.aria_selected (Tabs.buttons (Tabs.selectTab index t))
  = map (fun i => Tabs.String_of_bool (Nat.eqb i index)) (seq 0 (length (Tabs.buttons t)))
  /\ map Tabs.tabindex (Tabs.buttons (Tabs.selectTab index t))
     = map (fun i => if Nat.eqb i index then "0" else "-1") (seq 0 (length (Tabs.buttons t)))
  /\ map Tabs.target (Tabs.buttons (Tabs.selectTab index t)) = map Tabs.target (Tabs.buttons t).
Proof.
  unfold Tabs.selectTab. cbn [Tabs.buttons]. rewrite !map_map.
  generalize 0%nat as start. generalize (Tabs.buttons t) as l.
  induction l as [|b l IH]; intros start; [now repeat split|].
  cbn [length seq combine map]. destruct (IH (S start)) as (H1 & H2 & H3).
  now rewrite H1, H2, H3.
Qed.

Lemma filter_none {A : Type} (p : A -> bool) (l : list A) :
  (forall x, In x l -> p x = false) -> List.filter p l = [].
Proof.
  induction l as [|x l IH]; intros H; [reflexivity|]. cbn [List.filter].
  rewrite (H x (or_introl eq_refl)). apply IH. intros y Hy. apply H. now right.
Qed.

Lemma count_one_index (index n start : nat) :
  (start <= index < start + n)%nat ->
  List.filter (fun i => Nat.eqb i index) (seq start n) = [index].
Proof.
  revert start. induction n as [|n IH]; intros start H; [lia|]. cbn [seq List.filter].
  destruct (Nat.eqb_spec start index) as [->|Hne].
  - f_equal. apply filter_none. intros x Hx. apply in_seq in Hx.
    apply Nat.eqb_neq. lia.
  - apply IH. lia.
Qed.

Lemma wrap_next (i n : nat) : (i < n)%nat -> Tabs.wrap (Z.of_nat i) 1 n = ((i + 1) mod n)%nat.
Proof.
  intros H. unfold Tabs.wrap. rewrite Z.rem_mod_nonneg by lia.
  rewrite <- (Nat2Z.id ((i + 1) mod n)). f_equal. rewrite Nat2Z.inj_mod. f_equal. lia.
Qed.

Lemma wrap_prev (i n : nat) :
  (i < n)%nat -> Tabs.wrap (Z.of_nat i - 1) (Z.of_nat n) n = ((i + n - 1) mod n)%nat.
Proof.
  intros H. unfold Tabs.wrap. rewrite Z.rem_mod_nonneg by lia.
  rewrite <- (Nat2Z.id ((i + n - 1) mod n)). f_equal. rewrite Nat2Z.inj_mod. f_equal. lia.
Qed.

Lemma selectTab_length (index : nat) (t : Tabs.Tablist) :
  length (Tabs.buttons (Tabs.selectTab index t)) = length (Tabs.buttons t).
Proof.
  unfold Tabs.selectTab. cbn [Tabs.buttons].
  rewrite length_map, length_combine, length_seq. lia.
Qed.

(** X28.  The tabs of the home page.  After [selectTab] on a button of
    the list, that button and no other has [aria-selected] set to
    [true], and a panel is shown exactly when its [id] is the target of
    that button.  The arrow keys move the focus to the next and the
    previous button and wrap around at the ends; the tab list they leave
    is that of [selectTab] on the focused button, and a press of the one
    key followed by a press of the other comes back to the button it
    started from. *)
Theorem tabs_select_one_and_arrows_wrap (t : Tabs.Tablist) (i : nat) :
  (i < length (Tabs.buttons t))%nat ->
  let n := length (Tabs.buttons t) in
  let selected := Tabs.selectTab i t in
  List.filter (fun j => match nth_error (Tabs.buttons selected) j with
                        | Some b => String.eqb (Tabs.aria_selected b) "true"
                        | None => false
                        end) (seq 0 n) = [i]
  /\ (forall panel,
         In panel (Tabs.panels selected) ->
         (Tabs.aria_hidden panel = "false"
          <-> exists b, nth_error (Tabs.buttons t) i = Some b
                        /\ Tabs.target b = Some (Tabs.id panel)))
  /\ (let right := Tabs.keydown "ArrowRight" i t in
      (fst right < n)%nat
      /\ fst right = (if Nat.eqb (i + 1) n then 0 else i + 1)%nat
      /\ snd right = Tabs.selectTab (fst right) t
      /\ fst (Tabs.keydown "ArrowLeft" (fst right) (snd right)) = i)
  /\ (let left := Tabs.keydown "ArrowLeft" i t in
      (fst left < n)%nat
      /\ fst left = (if Nat.eqb i 0 then n - 1 else i - 1)%nat
      /\ snd left = Tabs.selectTab (fst left) t
      /\ fst (Tabs.keydown "ArrowRight" (fst left) (snd left)) = i).
Proof.
  intros Hi n selected.
  assert (Hnext : ((i + 1) mod n = if Nat.eqb (i + 1) n then 0 else i + 1)%nat).
  { destruct (Nat.eqb_spec (i + 1) n) as [E|E].
    - rewrite E. apply Nat.Div0.mod_same.
    - apply Nat.mod_small. lia. }
  assert (Hprev : ((i + n - 1) mod n = if Nat.eqb i 0 then n - 1 else i - 1)%nat).
  { destruct (Nat.eqb_spec i 0) as [E|E].
    - subst i. apply Nat.mod_small. lia.
    - replace (i + n - 1)%nat with ((i - 1) + 1 * n)%nat by lia.
      rewrite Nat.Div0.mod_add. apply Nat.mod_small. lia. }
  split; [|split; [|split]].
  - destruct (selectTab_buttons i t) as (Hsel & _ & _). fold n in Hsel. fold selected in Hsel.
    rewrite <- (count_one_index i n 0) by lia.
    apply filter_ext_in. intros j Hj. apply in_seq in Hj.
    assert (Hnth : nth_error (map Tabs.aria_selected (Tabs.buttons selected)) j
                   = Some (Tabs.String_of_bool (Nat.eqb j i))).
    { rewrite Hsel. rewrite nth_error_map, nth_error_seq.
      assert (E : (j <? n)%nat = true) by (apply Nat.ltb_lt; lia). now rewrite E. }
    rewrite nth_error_map in Hnth.
    destruct (nth_error (Tabs.buttons selected) j) as [b|]; [|discriminate].
    cbn in Hnth. injection Hnth as ->. now destruct (Nat.eqb j i).
  - intros panel Hin. unfold selected, Tabs.selectTab in Hin. cbn [Tabs.panels] in Hin.
    apply in_map_iff in Hin as (old & <- & _). cbn [Tabs.aria_hidden Tabs.id].
    destruct (nth_error (Tabs.buttons t) i) as [b|] eqn:Eb.
    + unfold Tabs.is_target. destruct (Tabs.target b) as [target|] eqn:Et.
      * destruct (String.eqb_spec (Tabs.id old) target) as [->|Hne]; cbn.
        -- split; [intros _; now exists b | reflexivity].
        -- split; [discriminate | intros (b' & [= <-] & H); congruence].
      * cbn. split; [discriminate | intros (b' & [= <-] & H); congruence].
    + cbn. split; [discriminate | intros (b' & H & _); discriminate].
  - unfold Tabs.keydown. cbn [String.eqb Ascii.eqb Bool.eqb]. fold n.
    rewrite wrap_next by assumption. rewrite Hnext. cbn [fst snd].
    set (j := (if Nat.eqb (i + 1) n then 0 else i + 1)%nat).
    assert (Hj : (j < n)%nat) by (subst j; destruct (Nat.eqb_spec (i + 1) n); lia).
    split; [assumption|]. split; [reflexivity|]. split; [reflexivity|].
    rewrite selectTab_length. fold n. rewrite wrap_prev by assumption.
    subst j. destruct (Nat.eqb_spec (i + 1) n) as [E|E].
    + replace (0 + n - 1)%nat with i by lia. apply Nat.mod_small. lia.
    + replace (i + 1 + n - 1)%nat with (i + 1 * n)%nat by lia.
      rewrite Nat.Div0.mod_add. apply Nat.mod_small. lia.
  - unfold Tabs.keydown. cbn [String.eqb Ascii.eqb Bool.eqb]. fold n.
    rewrite wrap_prev by assumption. rewrite Hprev. cbn [fst snd].
    set (j := (if Nat.eqb i 0 then n - 1 else i - 1)%nat).
    assert (Hj : (j < n)%nat) by (subst j; destruct (Nat.eqb_spec i 0); lia).
    split; [assumption|]. split; [reflexivity|]. split; [reflexivity|].
    rewrite selectTab_length. fold n. rewrite wrap_next by assumption.
    subst j. destruct (Nat.eqb_spec i 0) as [E|E].
    + subst i. replace (n - 1 + 1)%nat with n by lia. apply Nat.Div0.mod_same.
    + replace (i - 1 + 1)%nat with i by lia. apply Nat.mod_small. lia.
Qed.

Lemma tabs_select_one_and_arrows_wrap_witness :
  let right := Tabs.keydown "ArrowRight" 2 sample_tabs in
  (fst right < 3)%nat
  /\ fst right = 0%nat
  /\ snd right = Tabs.selectTab (fst right) sample_tabs
  /\ fst (Tabs.keydown "ArrowLeft" (fst right) (snd right)) = 2%nat.
Proof.
  refine (proj1 (proj2 (proj2 (tabs_select_one_and_arrows_wrap sample_tabs 2 _)))).
  vm_compute. lia.
Defined.

(** ** The overlay *)

Lemma closed_overlay_stays_closed (e : Overlay.Event) (s : Overlay.State) :
  Overlay.listen e (Overlay.closeOverlay s) = Overlay.closeOverlay s.
Proof. destruct e as [ | |[]|key]; try reflexivity. cbn. now rewrite andb_false_r. Qed.

Lemma overlay_needs_the_timer (e : Overlay.Event) (s : Overlay.State) :
  e <> Overlay.Timeout -> Overlay.is_shown s = false ->
  Overlay.is_shown (Overlay.listen e s) = false.
Proof.
  intros He Hs. destruct e as [ | |[]|key]; try reflexivity; try assumption; [contradiction|].
  cbn. now destruct (String.eqb key "Escape" && Overlay.is_shown s).
Qed.

(** X29.  The overlay of a game page opens at most once and only by its
    timer.  While the timer has not run out the overlay is not shown,
    whatever is clicked or typed; once the timer has run out or has been
    cleared, an overlay that is not shown stays so; and after it has been
    closed, by the dismiss button, by a click on the overlay itself or by
    the Escape key while it is shown, it is hidden with the timer
    cleared, whatever follows. *)
Theorem overlay_opens_at_most_once (s : Overlay.State) (before after : list Overlay.Event)
    (closing : Overlay.Event) :
  let run := fold_left (fun s e => Overlay.listen e s) in
  (Overlay.is_shown s = false -> ~ In Overlay.Timeout before ->
   Overlay.is_shown (run before s) = false)
  /\ (Overlay.timer s = false -> Overlay.is_shown s = false ->
      Overlay.is_shown (run before s) = false)
  /\ (closing = Overlay.DismissClick \/ closing = Overlay.OverlayClick true
      \/ (closing = Overlay.Keydown "Escape" /\ Overlay.is_shown (run before s) = true) ->
      run (before ++ closing :: after)%list s
      = {| Overlay.aria_hidden := Some "true"; Overlay.timer := false |}).
Proof.
  cbv zeta. split; [|split].
  - revert s. induction before as [|e before IH]; intros s Hs Hnot; [assumption|].
    cbn [fold_left]. apply IH.
    + apply overlay_needs_the_timer; [|assumption]. intros ->. apply Hnot. now left.
    + intros H. apply Hnot. now right.
  - revert s. induction before as [|e before IH]; intros s Ht Hs; [assumption|].
    cbn [fold_left].
    assert (H : Overlay.timer (Overlay.listen e s) = false
                /\ Overlay.is_shown (Overlay.listen e s) = false).
    { destruct e as [ | |[]|key]; cbn [Overlay.listen]; try (now split).
      - now rewrite Ht.
      - now destruct (String.eqb key "Escape" && Overlay.is_shown s). }
    now apply IH.
  - intros Hclose. rewrite fold_left_app. cbn [fold_left].
    set (s1 := fold_left _ before s) in *.
    assert (H1 : Overlay.listen closing s1 = Overlay.closeOverlay s1).
    { destruct Hclose as [-> | [-> | [-> Hshown]]]; try reflexivity.
      cbn. now rewrite Hshown. }
    rewrite H1. generalize s1. clear. intros s1.
    induction after as [|e after IH]; [reflexivity|].
    cbn [fold_left]. now rewrite closed_overlay_stays_closed.
Qed.
